(** * ande-faucet: the request-admission pipeline

    A shallow embedding of the backend services of the faucet
    (FaucetService, RedisService, CaptchaService, BlockchainService and
    the configuration they read) and the properties of the admission
    pipeline proved about them.

    Asynchronous methods are embedded as functions in a state-and-exception
    monad over a [World]: the Redis database and its clock, the schedule of
    Redis outages, the captcha provider, the chain endpoints, and two logs
    (the service methods invoked, and the commands put on the wire). *)

From Stdlib Require Import ZArith Lia Bool Ascii String List.
From Stdlib Require Import DecimalString DecimalPos DecimalN DecimalZ.
From stdpp Require Import gmap strings list fin_maps.

Local Open Scope string_scope.
Local Open Scope Z_scope.
Local Open Scope list_scope.

(** ** JavaScript primitives used by the services *)

Module JS.

(** A JS number as the services use it: an integer, or NaN (what
    [parseInt] answers when there is no digit to read). *)
Inductive number := NaN | Num (z : Z).

(** [a >= b]: any comparison with NaN is false. *)
Definition ge (a : number) (b : Z) : bool :=
  match a with
  | Num z => b <=? z
  | NaN => false
  end.

(** [a - b - 1] with NaN propagated. *)
Definition sub (a : Z) (b : number) : number :=
  match b with
  | Num z => Num (a - z)
  | NaN => NaN
  end.

Definition pred (a : number) : number :=
  match a with
  | Num z => Num (z - 1)
  | NaN => NaN
  end.

Definition code (c : ascii) : Z := Z.of_N (N_of_ascii c).

Definition is_digit (c : ascii) : bool := (48 <=? code c) && (code c <=? 57).

(** StrWhiteSpaceChar, on the code units below 256. *)
Definition is_space (c : ascii) : bool :=
  let n := code c in
  (n =? 9) || (n =? 10) || (n =? 11) || (n =? 12) || (n =? 13)
  || (n =? 32) || (n =? 160).

Fixpoint trim_start (s : string) : string :=
  match s with
  | String c r => if is_space c then trim_start r else s
  | EmptyString => s
  end.

(** The value of the longest prefix of decimal digits, read left to
    right on top of [acc]. *)
Fixpoint digits_value (acc : Z) (s : string) : Z :=
  match s with
  | String c r =>
      if is_digit c then digits_value (10 * acc + (code c - 48)) r else acc
  | EmptyString => acc
  end.

Definition starts_with_digit (s : string) : bool :=
  match s with
  | String c _ => is_digit c
  | EmptyString => false
  end.

(** [parseInt(s, 10)]: leading white space, an optional sign, then the
    longest run of digits; NaN when that run is empty. *)
Definition parseInt (s : string) : number :=
  let t := trim_start s in
  let '(neg, body) :=
    match t with
    | String "-" r => (true, r)
    | String "+" r => (false, r)
    | _ => (false, t)
    end in
  if starts_with_digit body
  then Num (if neg then - digits_value 0 body else digits_value 0 body)
  else NaN.

(** [Number.prototype.toString] on an integer. *)
Definition toString (z : Z) : string := NilZero.string_of_int (Z.to_int z).

(** [!s] on a value that is a string or null/undefined. *)
Definition falsy (s : option string) : bool :=
  match s with
  | None => true
  | Some "" => true
  | Some _ => false
  end.

(** Upper-case letters among the code units below 256: A-Z, and the
    Latin-1 letters U+00C0-U+00DE without the multiplication sign. *)
Definition is_upper (c : ascii) : bool :=
  let n := code c in
  ((65 <=? n) && (n <=? 90))
  || ((192 <=? n) && (n <=? 222) && negb (n =? 215)).

Definition lower_char (c : ascii) : ascii :=
  if is_upper c then ascii_of_N (N_of_ascii c + 32) else c.

(** [String.prototype.toLowerCase]. *)
Fixpoint toLowerCase (s : string) : string :=
  match s with
  | String c r => String (lower_char c) (toLowerCase r)
  | EmptyString => EmptyString
  end.

(** [Math.ceil(a / b)] for a positive divisor. *)
Definition ceil_div (a b : Z) : Z := - ((- a) / b).

End JS.

(** ** JavaScript numbers with a fraction

    The amounts the code compares and adds are JavaScript numbers, that
    is IEEE 754 doubles: [parseFloat] of a decimal text is the double
    nearest to the decimal (ties to the even one), and [+] is the double
    nearest to the exact sum.  A finite double is [Finite m e], the
    value [m * 2^e], with [e >= -1074] and [|m| < 2^53], and
    [2^52 <= |m|] unless [e = -1074]. *)

Module Double.

Inductive t :=
| NaN
| Infinity (negative : bool)
| Finite (m e : Z).

Definition zero : t := Finite 0 (-1074).

(** The integer nearest to n/d (for d > 0), ties to even. *)
Definition rne (n d : Z) : Z :=
  let q := n / d in
  let r := n mod d in
  if 2 * r <? d then q
  else if d <? 2 * r then q + 1
  else if Z.even q then q else q + 1.

(** floor (log2 (n/d)) for n, d > 0. *)
Definition ilog2 (n d : Z) : Z :=
  let k := Z.log2 d + 1 in
  Z.log2 (n * 2 ^ k / d) - k.

(** Beyond the largest double is Infinity. *)
Definition finite (m e : Z) : t :=
  if 971 <? e then Infinity false else Finite m e.

(** The exponent of the last binary place of the double nearest to n/d,
    and the digits of n/d up to that place, rounded. *)
Definition exponent (n d : Z) : Z := Z.max (-1074) (ilog2 n d - 52).

Definition mantissa (n d e : Z) : Z :=
  rne (n * 2 ^ Z.max 0 (- e)) (d * 2 ^ Z.max 0 e).

(** Rounding up to 2^53 carries into the next exponent. *)
Definition pack (m e : Z) : t :=
  if m =? 2 ^ 53 then finite (2 ^ 52) (e + 1) else finite m e.

(** The double nearest to n/d, for n, d > 0. *)
Definition round_pos (n d : Z) : t :=
  let e := exponent n d in
  pack (mantissa n d e) e.

Definition opp (x : t) : t :=
  match x with
  | NaN => NaN
  | Infinity s => Infinity (negb s)
  | Finite m e => Finite (- m) e
  end.

(** The double nearest to n/d, for d > 0. *)
Definition round (n d : Z) : t :=
  if n =? 0 then zero
  else if 0 <? n then round_pos n d
  else opp (round_pos (- n) d).

(** A finite double in units of 2^-1074. *)
Definition units (m e : Z) : Z := m * 2 ^ (e + 1074).

(** [x < y] *)
Definition ltb (x y : t) : bool :=
  match x, y with
  | NaN, _ | _, NaN => false
  | _, Infinity true => false
  | Infinity true, _ => true
  | Infinity false, _ => false
  | Finite _ _, Infinity false => true
  | Finite m1 e1, Finite m2 e2 => units m1 e1 <? units m2 e2
  end.

(** [x * 2]: doubling is exact, unless it passes the largest double. *)
Definition twice (x : t) : t :=
  match x with
  | Finite m e =>
      if Z.abs m <? 2 ^ 52 then Finite (2 * m) e
      else if e <? 971 then Finite m (e + 1)
      else Infinity (m <? 0)
  | _ => x
  end.

(** [x + y]: the double nearest to the exact sum. *)
Definition add (x y : t) : t :=
  match x, y with
  | NaN, _ | _, NaN => NaN
  | Infinity a, Infinity b => if Bool.eqb a b then Infinity a else NaN
  | Infinity a, Finite _ _ => Infinity a
  | Finite _ _, Infinity b => Infinity b
  | Finite m1 e1, Finite m2 e2 => round (units m1 e1 + units m2 e2) (2 ^ 1074)
  end.

(** [parseFloat] of an amount of wei written in ether, as formatEther
    and a decimal configuration value write it: the double nearest to
    wei / 10^18. *)
Definition of_ether (wei : Z) : t := round wei (10 ^ 18).

End Double.

(** ** Data model *)

(** Exceptions raised by the services and by the libraries they call. *)
Inductive Exn :=
| InvalidAddressFormat               (* 'Invalid Ethereum address format' *)
| CaptchaVerificationFailed          (* 'Captcha verification failed' *)
| IPRateLimitExceeded (minutes : Z)  (* 'IP rate limit exceeded. Try again in .. minutes' *)
| AddressRateLimitExceeded (hours : Z) (* 'Address rate limit exceeded. Try again in .. hours' *)
| FaucetBalanceTooLow                (* 'Faucet balance too low. Please contact support.' *)
| BalanceUnavailable                 (* 'Failed to get balance from blockchain' *)
| InvalidEthereumAddress             (* sendTokens: 'Invalid Ethereum address' *)
| ProviderError                      (* the chain endpoint rejected a call *)
| ReceiptIsNull                      (* 'Transaction receipt is null' *)
| TransactionFailedOnChain           (* 'Transaction failed on chain' *)
| RedisError                         (* ioredis rejected a command *)
| AxiosError                         (* axios rejected the request *)
| TypeError
| SyntaxError.

(** FaucetStats as stored under the stats key (the balance is added by
    getStats and is not stored).  [totalDistributed] is stored as the
    decimal writing of a number, which reads back as the same number: it
    is kept as that number. *)
Record Stats := mkStats {
  totalRequests : Z;
  successfulRequests : Z;
  failedRequests : Z;
  totalDistributed : Double.t;
  lastRequest : option Z
}.

(** The per-transaction record written by updateStats. *)
Record RequestRecord := mkRequestRecord {
  rec_address : string;
  rec_txHash : string;
  rec_amount : Z;
  rec_timestamp : Z
}.

(** A string held in Redis.  The JSON texts written by updateStats are kept
    as the objects they stringify ([JSON.parse (JSON.stringify o) = o]);
    every other string is [Text].  A [Text] under the stats key stands
    for a text that [JSON.parse] rejects: a JSON text of another shape
    there (an empty object, a number), which updateStats never writes,
    is not represented, and what is proved of the stats document is
    proved of the documents updateStats writes and of a missing key. *)
Inductive Stored :=
| Text (s : string)
| StatsJson (st : Stats)
| RequestJson (r : RequestRecord).

(** A key of the database: its value and the instant (ms) it expires at,
    if it has a time to live. *)
Record Entry := mkEntry {
  value : Stored;
  expireAt : option Z
}.

(** Redis commands issued through the ioredis client. *)
Inductive RedisCmd :=
| GET (key : string)
| SET (key : string) (v : Stored)
| SETEX (key : string) (seconds : Z) (v : Stored)
| INCR (key : string)
| TTL (key : string).

(** What leaves the process: a Redis command and whether it succeeded
    (it was neither lost nor answered by an error), a POST to the captcha
    provider, a balance read on the primary or the fallback endpoint and
    whether it was answered, a transaction submitted to the chain. *)
Inductive Wire :=
| WRedis (cmd : RedisCmd) (ok : bool)
| WHttpPost (token : string) (ip : option string)
| WGetBalance (fallback : bool) (answered : bool)
| WSendTransaction (to : string).

(** The methods of the three collaborating services (what a test would
    replace by mocks), with their arguments. *)
Inductive Call :=
| CaptchaVerify (token : option string) (ip : option string)
| RedisCheckRateLimit (key : string) (limit windowMs : Z)
| RedisGet (key : string)
| RedisSet (key : string)
| RedisSetex (key : string) (seconds : Z)
| ChainGetBalance
| ChainSendTokens (to requestId : string).

(** The value of a field of a JSON object, or undefined for a field that
    is not there; [truthy] is what [if (v)] and [!v] test. *)
Inductive JsVal := JUndefined | JNull | JBool (b : bool) | JStr (s : string).

Definition truthy (v : JsVal) : bool :=
  match v with
  | JBool b => b
  | JStr s => negb (String.eqb s "")
  | JUndefined | JNull => false
  end.

(** The fields verify reads from the provider's JSON answer. *)
Record SiteverifyObject := mkSiteverify {
  sv_success : JsVal;
  sv_challenge_ts : option string;
  sv_hostname : option string;
  sv_error_codes : option (list string);
  sv_action : option string;
  sv_cdata : option string
}.

(** The body of the provider's answer as axios hands it over
    ([response.data]): null, a string (a body that is not JSON is passed on
    as text), or the parsed object with the fields verify reads. *)
Inductive ResponseData :=
| DataNull
| DataText (s : string)
| DataObject (o : SiteverifyObject).

(** axios.post: rejects (network error, timeout, status outside 2xx) or
    resolves with the body. *)
Inductive AxiosReply :=
| Rejects
| Resolves (data : ResponseData).

(** What verify returns. *)
Record CaptchaResult := mkCaptchaResult {
  success : JsVal;
  challenge_ts : option string;
  hostname : option string;
  errorCodes : option (list string);
  action : option string;
  cdata : option string
}.

(** What checkRateLimit returns. *)
Record RateLimit := mkRateLimit {
  allowed : bool;
  remaining : JS.number;
  resetAt : Z
}.

(** What sendTokens returns. *)
Record TxResult := mkTxResult {
  tx_hash : string;
  tx_from : string;
  tx_to : string;
  tx_amount : Z;
  tx_gasUsed : Z
}.

(** How a submitted transfer ends, as the chain decides it. *)
Inductive SendOutcome :=
| NotAnAddress                 (* ethers.isAddress(toAddress) is false *)
| SubmitRejected               (* getNonce, getFeeData or sendTransaction rejects *)
| SubmittedNoReceipt (hash : string)
| SubmittedReverted (hash : string)
| SubmittedWaitRejected (hash : string)  (* wait(1) rejects once the transaction is out *)
| Confirmed (hash checksumAddress : string) (gasUsed : Z).

Record FaucetRequest := mkRequest {
  address : string;
  captchaToken : option string;
  ipAddress : string;
  requestId : string
}.

Record FaucetResponse := mkResponse {
  txHash : string;
  resp_address : string;
  amount : Z;
  timestamp : Z
}.

(** The part of the configuration the pipeline reads.  [faucet_amount]
    is the configured amount in wei, as sendTokens sends it and reports
    it ([parseEther] of the decimal writing of [config.faucet.amount]);
    the number [config.faucet.amount] itself is the double nearest to
    it, [amount_number]. *)
Record Config := mkConfig {
  redis_keyPrefix : string;
  captcha_enabled : bool;
  captcha_secret : string;
  faucet_amount : Z;
  rateLimit_ip_maxRequests : Z;
  rateLimit_ip_windowMs : Z;
  rateLimit_address_maxRequests : Z;
  rateLimit_address_windowMs : Z
}.

(** The defaults of config/index.ts (10 ether per request, 5 requests per
    hour and IP, 1 request per 24 hours and address, captcha off). *)
Definition default_config : Config := {|
  redis_keyPrefix := "ande-faucet:";
  captcha_enabled := false;
  captcha_secret := "";
  faucet_amount := 10 * 10 ^ 18;
  rateLimit_ip_maxRequests := 5;
  rateLimit_ip_windowMs := 3600000;
  rateLimit_address_maxRequests := 1;
  rateLimit_address_windowMs := 86400000
|}.

(** ** The world the services run in *)

(** One call of a service method runs at one instant of the clock: time
    passes between calls ([advance]), not between the awaits of a call.
    The provider and the chain are oracles: what they answer is fixed by
    the world, the services only read it. *)
Record World := mkWorld {
  clock : Z;                                 (* Date.now(), and the clock of Redis *)
  db : gmap string Entry;                    (* the Redis database *)
  outages : list bool;                       (* for each coming command: is it lost? *)
  siteverify : string -> option string -> AxiosReply;
  primary_balance : option Z;                (* provider.getBalance, None: rejects *)
  fallback_balance : option (option Z);      (* None: no fallback endpoint *)
  wallet_address : string;
  submit : string -> SendOutcome;
  calls : list Call;
  wire : list Wire
}.

Definition with_db (d : gmap string Entry) (w : World) : World :=
  mkWorld (clock w) d (outages w) (siteverify w) (primary_balance w)
    (fallback_balance w) (wallet_address w) (submit w) (calls w) (wire w).

Definition with_outages (o : list bool) (w : World) : World :=
  mkWorld (clock w) (db w) o (siteverify w) (primary_balance w)
    (fallback_balance w) (wallet_address w) (submit w) (calls w) (wire w).

Definition with_clock (t : Z) (w : World) : World :=
  mkWorld t (db w) (outages w) (siteverify w) (primary_balance w)
    (fallback_balance w) (wallet_address w) (submit w) (calls w) (wire w).

Definition log_call (c : Call) (w : World) : World :=
  mkWorld (clock w) (db w) (outages w) (siteverify w) (primary_balance w)
    (fallback_balance w) (wallet_address w) (submit w) (calls w ++ [c]) (wire w).

Definition log_wire (e : Wire) (w : World) : World :=
  mkWorld (clock w) (db w) (outages w) (siteverify w) (primary_balance w)
    (fallback_balance w) (wallet_address w) (submit w) (calls w) (wire w ++ [e]).

(** Time passes between two requests. *)
Definition advance (dt : Z) (w : World) : World := with_clock (clock w + dt) w.

(** ** The monad of asynchronous methods: state and exceptions *)

Inductive Outcome (A : Type) :=
| Ret (a : A)
| Throw (e : Exn).
Arguments Ret {A} a.
Arguments Throw {A} e.

Definition M (A : Type) : Type := World -> Outcome A * World.

Definition ret {A} (a : A) : M A := fun w => (Ret a, w).
Definition throw {A} (e : Exn) : M A := fun w => (Throw e, w).

Definition bind {A B} (m : M A) (k : A -> M B) : M B :=
  fun w =>
    match m w with
    | (Ret a, w') => k a w'
    | (Throw e, w') => (Throw e, w')
    end.

(** [try { m } catch (error) { h error }] *)
Definition try_catch {A} (m : M A) (h : Exn -> M A) : M A :=
  fun w =>
    match m w with
    | (Ret a, w') => (Ret a, w')
    | (Throw e, w') => h e w'
    end.

Definition get_world : M World := fun w => (Ret w, w).
Definition modify (f : World -> World) : M unit := fun w => (Ret tt, f w).
Definition Date_now : M Z := fun w => (Ret (clock w), w).

Notation "'let*' x ':=' m 'in' k" := (bind m (fun x => k))
  (at level 10, x name, m at level 100, k at level 200, only parsing).

(** ** The services *)

Section Services.

Variable config : Config.

(** *** The ioredis client (and the Redis server behind it) *)

(** The client is created with [keyPrefix]: every key is sent prefixed. *)
Definition prefixed (key : string) : string := redis_keyPrefix config +:+ key.

Definition live (now : Z) (e : Entry) : bool :=
  match expireAt e with
  | Some t => now <? t
  | None => true
  end.

(** The entry of a key, unless it has expired. *)
Definition lookup_live (w : World) (key : string) : option Entry :=
  match db w !! prefixed key with
  | Some e => if live (clock w) e then Some e else None
  | None => None
  end.

(** The integers Redis accepts for INCR: the canonical decimal writing of
    a signed 64-bit integer. *)
Definition string2ll (s : string) : option Z :=
  match NilZero.int_of_string s with
  | Some i =>
      let z := Z.of_int i in
      if String.eqb (JS.toString z) s && (- 2 ^ 63 <=? z) && (z <=? 2 ^ 63 - 1)
      then Some z else None
  | None => None
  end.

Definition redis_integer (v : Stored) : option Z :=
  match v with
  | Text s => string2ll s
  | StatsJson _ | RequestJson _ => None
  end.

(** One command: it is lost when the outage schedule says so, otherwise
    the server executes it; the promise rejects when the command is lost
    or answered by an error.  The wire log records whether it succeeded. *)
Definition command {A} (cmd : RedisCmd)
    (exec : World -> Outcome A * gmap string Entry) : M A :=
  fun w =>
    let '(lost, rest) :=
      match outages w with
      | b :: r => (b, r)
      | [] => (false, [])
      end in
    let w1 := with_outages rest w in
    if lost then (Throw RedisError, log_wire (WRedis cmd false) w1)
    else
      match exec w1 with
      | (Ret a, d) => (Ret a, log_wire (WRedis cmd true) (with_db d w1))
      | (Throw e, _) => (Throw e, log_wire (WRedis cmd false) w1)
      end.

Definition client_get (key : string) : M (option Stored) :=
  command (GET key) (fun w => (Ret (value <$> lookup_live w key), db w)).

Definition client_set (key : string) (v : Stored) : M unit :=
  command (SET key v)
    (fun w => (Ret tt, <[prefixed key := mkEntry v None]> (db w))).

(** SETEX answers an error for a time to live that is not positive. *)
Definition client_setex (key : string) (seconds : Z) (v : Stored) : M unit :=
  command (SETEX key seconds v)
    (fun w =>
       if 0 <? seconds
       then (Ret tt,
             <[prefixed key := mkEntry v (Some (clock w + seconds * 1000))]> (db w))
       else (Throw RedisError, db w)).

(** INCR keeps the time to live of the key; a missing key counts from 0
    and gets none; a value that is not an integer, or the largest one, is
    an error. *)
Definition client_incr (key : string) : M Z :=
  command (INCR key)
    (fun w =>
       match lookup_live w key with
       | None => (Ret 1, <[prefixed key := mkEntry (Text "1") None]> (db w))
       | Some e =>
           match redis_integer (value e) with
           | Some n =>
               if n <? 2 ^ 63 - 1
               then (Ret (n + 1),
                     <[prefixed key :=
                         mkEntry (Text (JS.toString (n + 1))) (expireAt e)]> (db w))
               else (Throw RedisError, db w)
           | None => (Throw RedisError, db w)
           end
       end).

(** TTL: -2 for a missing key, -1 for a key without expiry, else the
    remaining time in seconds, rounded. *)
Definition client_ttl (key : string) : M Z :=
  command (TTL key)
    (fun w =>
       (Ret match lookup_live w key with
            | None => -2
            | Some e =>
                match expireAt e with
                | None => -1
                | Some t => (t - clock w + 500) / 1000
                end
            end, db w)).

(** *** RedisService *)

Definition redis_get (key : string) : M (option Stored) :=
  let* _ := modify (log_call (RedisGet key)) in
  try_catch (client_get key) (fun _ => ret None).

(** [set(key, value)] as its callers use it, without ttl. *)
Definition redis_set (key : string) (v : Stored) : M bool :=
  let* _ := modify (log_call (RedisSet key)) in
  try_catch (let* _ := client_set key v in ret true) (fun _ => ret false).

Definition redis_setex (key : string) (seconds : Z) (v : Stored) : M bool :=
  let* _ := modify (log_call (RedisSetex key seconds)) in
  try_catch (let* _ := client_setex key seconds v in ret true)
    (fun _ => ret false).

(** [!current] and [parseInt(current, 10)] on what GET answered. *)
Definition no_current (current : option Stored) : bool :=
  match current with
  | None => true
  | Some (Text s) => JS.falsy (Some s)
  | Some (StatsJson _) | Some (RequestJson _) => false
  end.

Definition parse_current (current : option Stored) : JS.number :=
  match current with
  | Some (Text s) => JS.parseInt s
  | _ => JS.NaN
  end.

(** checkRateLimit, for a call that runs on its own: nothing else
    touches the database and no time passes between its commands.  (A
    call during whose await the rest of the program runs is
    checkRateLimit_meanwhile, further down.) *)
Definition checkRateLimit (key : string) (limit windowMs : Z) : M RateLimit :=
  let* _ := modify (log_call (RedisCheckRateLimit key limit windowMs)) in
  try_catch
    (let windowSeconds := windowMs / 1000 in
     let* current := client_get key in
     if no_current current then
       (* First request in window *)
       let* _ := client_setex key windowSeconds (Text "1") in
       let* now := Date_now in
       ret (mkRateLimit true (JS.Num (limit - 1)) (now + windowMs))
     else
       let count := parse_current current in
       if JS.ge count limit then
         (* Rate limit exceeded *)
         let* ttl := client_ttl key in
         let* now := Date_now in
         ret (mkRateLimit false (JS.Num 0) (now + ttl * 1000))
       else
         (* Increment counter *)
         let* _ := client_incr key in
         let* now := Date_now in
         ret (mkRateLimit true (JS.pred (JS.sub limit count)) (now + windowMs)))
    (fun _ =>
       (* Fail open - allow request if Redis is down *)
       let* now := Date_now in
       ret (mkRateLimit true (JS.Num limit) (now + windowMs))).

(** *** CaptchaService *)

Definition axios_post (token : string) (ip : option string) : M ResponseData :=
  fun w =>
    let remoteip := if JS.falsy ip then None else ip in
    let w1 := log_wire (WHttpPost token remoteip) w in
    match siteverify w token remoteip with
    | Rejects => (Throw AxiosError, w1)
    | Resolves data => (Ret data, w1)
    end.

Definition verify (token : option string) (ip : option string) : M CaptchaResult :=
  let* _ := modify (log_call (CaptchaVerify token ip)) in
  if negb (captcha_enabled config) then
    ret (mkCaptchaResult (JBool true) None None None None None)
  else
    match token with
    | None | Some "" =>
        ret (mkCaptchaResult (JBool false) None None
               (Some ["missing-input-response"]) None None)
    | Some tok =>
        try_catch
          (let* result := axios_post tok ip in
           match result with
           | DataNull => throw TypeError
           | DataText _ =>
               ret (mkCaptchaResult JUndefined None None None None None)
           | DataObject o =>
               ret (mkCaptchaResult (sv_success o) (sv_challenge_ts o)
                      (sv_hostname o) (sv_error_codes o) (sv_action o)
                      (sv_cdata o))
           end)
          (fun _ =>
             ret (mkCaptchaResult (JBool false) None None
                    (Some ["verification-error"]) None None))
    end.

(** *** BlockchainService *)

Definition provider_getBalance (fallback : bool) : M Z :=
  fun w =>
    let answer :=
      if fallback
      then match fallback_balance w with Some b => b | None => None end
      else primary_balance w in
    match answer with
    | Some b => (Ret b, log_wire (WGetBalance fallback true) w)
    | None => (Throw ProviderError, log_wire (WGetBalance fallback false) w)
    end.

Definition getBalance : M Z :=
  let* _ := modify (log_call ChainGetBalance) in
  try_catch (provider_getBalance false)
    (fun _ =>
       let* w := get_world in
       match fallback_balance w with
       | Some _ =>
           (* Try fallback provider *)
           try_catch (provider_getBalance true)
             (fun _ => throw BalanceUnavailable)
       | None => throw BalanceUnavailable
       end).

Definition sendTokens (toAddress requestId : string) : M TxResult :=
  let* _ := modify (log_call (ChainSendTokens toAddress requestId)) in
  try_catch
    (let* w := get_world in
     match submit w toAddress with
     | NotAnAddress => throw InvalidEthereumAddress
     | SubmitRejected => throw ProviderError
     | SubmittedNoReceipt _ =>
         let* _ := modify (log_wire (WSendTransaction toAddress)) in
         throw ReceiptIsNull
     | SubmittedReverted _ =>
         let* _ := modify (log_wire (WSendTransaction toAddress)) in
         throw TransactionFailedOnChain
     | SubmittedWaitRejected _ =>
         let* _ := modify (log_wire (WSendTransaction toAddress)) in
         throw ProviderError
     | Confirmed hash checksumAddress gasUsed =>
         let* _ := modify (log_wire (WSendTransaction toAddress)) in
         ret (mkTxResult hash (wallet_address w) checksumAddress
                (faucet_amount config) gasUsed)
     end)
    (fun error => throw error).

(** *** FaucetService *)

Definition IP_KEY_PREFIX : string := "ip:".
Definition ADDRESS_KEY_PREFIX : string := "address:".
Definition STATS_KEY : string := "stats".

Definition is_hex (c : ascii) : bool :=
  let n := JS.code c in
  ((97 <=? n) && (n <=? 102))        (* a-f *)
  || ((65 <=? n) && (n <=? 70))      (* A-F *)
  || ((48 <=? n) && (n <=? 57)).     (* 0-9 *)

(** [[a-fA-F0-9]{n}$] *)
Fixpoint hex_run (n : nat) (s : string) : bool :=
  match n, s with
  | O, EmptyString => true
  | S n', String c r => is_hex c && hex_run n' r
  | _, _ => false
  end.

(** [/^0x[a-fA-F0-9]{40}$/.test(address)] *)
Definition isValidAddress (address : string) : bool :=
  match address with
  | String "0" (String "x" r) => hex_run 40 r
  | _ => false
  end.

Definition checkIPRateLimit (ip : string) : M RateLimit :=
  let key := IP_KEY_PREFIX +:+ ip in
  checkRateLimit key (rateLimit_ip_maxRequests config)
    (rateLimit_ip_windowMs config).

Definition checkAddressRateLimit (address : string) : M RateLimit :=
  let key := ADDRESS_KEY_PREFIX +:+ JS.toLowerCase address in
  checkRateLimit key (rateLimit_address_maxRequests config)
    (rateLimit_address_windowMs config).

Definition default_stats : Stats := mkStats 0 0 0 Double.zero None.

(** [config.faucet.amount], the number. *)
Definition amount_number : Double.t := Double.of_ether (faucet_amount config).

(** [JSON.parse(statsData)] on a non-empty string of the stats key. *)
Definition JSON_parse_stats (data : Stored) : M Stats :=
  match data with
  | StatsJson st => ret st
  | Text _ | RequestJson _ => throw SyntaxError
  end.

Definition updateStats (address txHash : string) : M unit :=
  try_catch
    (let* statsData := redis_get STATS_KEY in
     let* stats :=
       if no_current statsData then ret default_stats
       else match statsData with
            | Some data => JSON_parse_stats data
            | None => ret default_stats
            end in
     let* now := Date_now in
     let stats' :=
       mkStats (totalRequests stats + 1)
               (successfulRequests stats + 1)
               (failedRequests stats)
               (Double.add (totalDistributed stats) amount_number)
               (Some now) in
     let* _ := redis_set STATS_KEY (StatsJson stats') in
     (* Also store individual request *)
     let requestKey := "request:" +:+ txHash in
     let* _ := redis_setex requestKey (86400 * 7)
                 (RequestJson (mkRequestRecord address txHash
                                 (faucet_amount config) now)) in
     ret tt)
    (fun _ => ret tt).

Definition processRequest (request : FaucetRequest) : M FaucetResponse :=
  try_catch
    ((* Step 1: Validate address format *)
     if negb (isValidAddress (address request)) then
       throw InvalidAddressFormat
     else
     (* Step 2: Verify captcha *)
     let* captchaResult :=
       verify (captchaToken request) (Some (ipAddress request)) in
     if negb (truthy (success captchaResult)) then
       throw CaptchaVerificationFailed
     else
     (* Step 3: Check IP rate limit *)
     let* ipRateLimit := checkIPRateLimit (ipAddress request) in
     if negb (allowed ipRateLimit) then
       let* now := Date_now in
       throw (IPRateLimitExceeded
                (JS.ceil_div (resetAt ipRateLimit - now) 60000))
     else
     (* Step 4: Check address rate limit *)
     let* addressRateLimit := checkAddressRateLimit (address request) in
     if negb (allowed addressRateLimit) then
       let* now := Date_now in
       throw (AddressRateLimitExceeded
                (JS.ceil_div (resetAt addressRateLimit - now) 3600000))
     else
     (* Step 5: Check faucet balance *)
     let* balanceText := getBalance in
     let balance := Double.of_ether balanceText in
     if Double.ltb balance (Double.twice amount_number) then
       throw FaucetBalanceTooLow
     else
     (* Step 6: Send tokens *)
     let* txResult := sendTokens (address request) (requestId request) in
     (* Step 7: Update stats *)
     let* _ := updateStats (address request) (tx_hash txResult) in
     let* now := Date_now in
     ret (mkResponse (tx_hash txResult) (tx_to txResult)
            (tx_amount txResult) now))
    (fun error => throw error).

(** The body of processRequest cut in two, to state what holds of a
    request that has reached the balance check: the admission checks
    (steps 1 to 4) and the payout (steps 5 to 7 and the response).
    [processRequest_stages] shows that processRequest is the first followed
    by the second. *)
Definition admission (request : FaucetRequest) : M unit :=
  if negb (isValidAddress (address request)) then
    throw InvalidAddressFormat
  else
  let* captchaResult :=
    verify (captchaToken request) (Some (ipAddress request)) in
  if negb (truthy (success captchaResult)) then
    throw CaptchaVerificationFailed
  else
  let* ipRateLimit := checkIPRateLimit (ipAddress request) in
  if negb (allowed ipRateLimit) then
    let* now := Date_now in
    throw (IPRateLimitExceeded
             (JS.ceil_div (resetAt ipRateLimit - now) 60000))
  else
  let* addressRateLimit := checkAddressRateLimit (address request) in
  if negb (allowed addressRateLimit) then
    let* now := Date_now in
    throw (AddressRateLimitExceeded
             (JS.ceil_div (resetAt addressRateLimit - now) 3600000))
  else ret tt.

Definition payout (request : FaucetRequest) : M FaucetResponse :=
  let* balanceText := getBalance in
  let balance := Double.of_ether balanceText in
  if Double.ltb balance (Double.twice amount_number) then
    throw FaucetBalanceTooLow
  else
  let* txResult := sendTokens (address request) (requestId request) in
  let* _ := updateStats (address request) (tx_hash txResult) in
  let* now := Date_now in
  ret (mkResponse (tx_hash txResult) (tx_to txResult)
         (tx_amount txResult) now).

(** What checkCooldown answers. *)
Record Cooldown := mkCooldown {
  canRequest : bool;
  cooldownEndsAt : option Z;
  remainingTime : option Z
}.

(** The clock does not move during a call: the second reading of
    [Date.now()] gives the instant checkRateLimit has read. *)
Definition checkCooldown (address : string) : M Cooldown :=
  let key := ADDRESS_KEY_PREFIX +:+ JS.toLowerCase address in
  let* rateLimit :=
    checkRateLimit key (rateLimit_address_maxRequests config)
      (rateLimit_address_windowMs config) in
  if allowed rateLimit then
    ret (mkCooldown true None None)
  else
    let* now := Date_now in
    ret (mkCooldown false (Some (resetAt rateLimit))
           (Some (resetAt rateLimit - now))).

(** *** Reading the database back *)

(** The stats document of the database, as getStats reads it (the
    defaults when the key is missing). *)
Definition stored_stats (w : World) : Stats :=
  match lookup_live w STATS_KEY with
  | Some (mkEntry (StatsJson st) _) => st
  | _ => default_stats
  end.

(** The counter stored under a key, if the key is there. *)
Definition stored_count (w : World) (key : string) : option JS.number :=
  match lookup_live w key with
  | Some e => Some (parse_current (Some (value e)))
  | None => None
  end.

End Services.

(** ** Vocabulary of the specifications *)

(** The environment (clock, provider, chain) is as it was. *)
Definition same_env (w w' : World) : Prop :=
  clock w' = clock w /\ siteverify w' = siteverify w
  /\ primary_balance w' = primary_balance w
  /\ fallback_balance w' = fallback_balance w
  /\ wallet_address w' = wallet_address w /\ submit w' = submit w.

(** What one command does to the world, answered ([ok]) or not. *)
Definition cmd_frame (w w1 : World) (cmd : RedisCmd) (ok : bool) : Prop :=
  same_env w w1 /\ calls w1 = calls w
  /\ wire w1 = wire w ++ [WRedis cmd ok]
  /\ (outages w = [] -> outages w1 = [])
  /\ (ok = false -> db w1 = db w).

(** What checkRateLimit answers from its catch block. *)
Definition fail_open (limit windowMs : Z) (w : World) : RateLimit :=
  mkRateLimit true (JS.Num limit) (clock w + windowMs).

(** What GET answers for a key when Redis is up. *)
Definition current (config : Config) (key : string) (w : World) : option Stored :=
  value <$> lookup_live config w key.

(** The test of step 5 on a balance in wei: is the number read from
    the balance below twice the configured number? *)
Definition balance_too_low (config : Config) (balance : Z) : bool :=
  Double.ltb (Double.of_ether balance) (Double.twice (amount_number config)).

(** What getBalance answers in a world: the primary endpoint, else the
    fallback endpoint if there is one. *)
Definition treasury_balance (w : World) : option Z :=
  match primary_balance w with
  | Some b => Some b
  | None =>
      match fallback_balance w with
      | Some (Some b) => Some b
      | _ => None
      end
  end.

(** The service calls of one request, in the order of the steps. *)
Definition admission_calls (config : Config) (request : FaucetRequest) : list Call :=
  [ CaptchaVerify (captchaToken request) (Some (ipAddress request));
    RedisCheckRateLimit (IP_KEY_PREFIX +:+ ipAddress request)
      (rateLimit_ip_maxRequests config) (rateLimit_ip_windowMs config);
    RedisCheckRateLimit
      (ADDRESS_KEY_PREFIX +:+ JS.toLowerCase (address request))
      (rateLimit_address_maxRequests config)
      (rateLimit_address_windowMs config) ].

Definition pipeline_calls (config : Config) (request : FaucetRequest) : list Call :=
  admission_calls config request
  ++ [ ChainGetBalance;
       ChainSendTokens (address request) (requestId request) ].

(** The steps of a run one by one: each is the service call of the
    step, made in the world the steps before it have left. *)
Definition captcha_step (config : Config) (request : FaucetRequest) (w : World)
    : Outcome CaptchaResult * World :=
  verify config (captchaToken request) (Some (ipAddress request)) w.

Definition ip_step (config : Config) (request : FaucetRequest) (w : World)
    : Outcome RateLimit * World :=
  checkIPRateLimit config (ipAddress request)
    (snd (captcha_step config request w)).

Definition address_step (config : Config) (request : FaucetRequest) (w : World)
    : Outcome RateLimit * World :=
  checkAddressRateLimit config (address request)
    (snd (ip_step config request w)).

Definition balance_step (config : Config) (request : FaucetRequest) (w : World)
    : Outcome Z * World :=
  getBalance (snd (address_step config request w)).

Definition send_step (config : Config) (request : FaucetRequest) (w : World)
    : Outcome TxResult * World :=
  sendTokens config (address request) (requestId request)
    (snd (balance_step config request w)).

Definition stats_step (config : Config) (request : FaucetRequest)
    (tx : TxResult) (w : World) : Outcome unit * World :=
  updateStats config (address request) (tx_hash tx)
    (snd (send_step config request w)).

(** How many of them a run has made when it ends with this outcome. *)
Definition steps_made (r : Outcome FaucetResponse) : nat :=
  match r with
  | Throw InvalidAddressFormat => 0
  | Throw CaptchaVerificationFailed => 1
  | Throw (IPRateLimitExceeded _) => 2
  | Throw (AddressRateLimitExceeded _) => 3
  | Throw FaucetBalanceTooLow | Throw BalanceUnavailable => 4
  | _ => 5
  end.

(** The errors processRequest can end with. *)
Definition pipeline_error (e : Exn) : bool :=
  match e with
  | RedisError | AxiosError | TypeError | SyntaxError => false
  | _ => true
  end.

(** A transaction submitted to the chain; a call of sendTokens. *)
Definition is_send_wire (e : Wire) : bool :=
  match e with
  | WSendTransaction _ => true
  | _ => false
  end.

Definition is_send_call (c : Call) : bool :=
  match c with
  | ChainSendTokens _ _ => true
  | _ => false
  end.

(** The stats document after one more successful request at instant [now]. *)
Definition bump_stats (config : Config) (now : Z) (st : Stats) : Stats :=
  mkStats (totalRequests st + 1) (successfulRequests st + 1)
    (failedRequests st)
    (Double.add (totalDistributed st) (amount_number config)) (Some now).

(** The stats updateStats starts from, given what GET answered. *)
Definition stats_read (data : option Stored) : option Stats :=
  match data with
  | None | Some (Text "") => Some default_stats
  | Some (StatsJson st) => Some st
  | Some (Text _) | Some (RequestJson _) => None
  end.

(** A write that takes effect only if its command succeeded. *)
Definition insert_if (ok : bool) (k : string) (e : Entry)
    (d : gmap string Entry) : gmap string Entry :=
  if ok then <[k := e]> d else d.

(** The record updateStats keeps of a transaction for 7 days. *)
Definition request_record (config : Config) (address txHash : string) (now : Z) : Stored :=
  RequestJson (mkRequestRecord address txHash (faucet_amount config) now).

(** The results verify builds itself, and the one it copies from the body
    of the provider's answer. *)
Definition captcha_passed : CaptchaResult :=
  mkCaptchaResult (JBool true) None None None None None.
Definition captcha_missing_input : CaptchaResult :=
  mkCaptchaResult (JBool false) None None (Some ["missing-input-response"]) None None.
Definition captcha_verification_error : CaptchaResult :=
  mkCaptchaResult (JBool false) None None (Some ["verification-error"]) None None.
Definition captcha_undefined : CaptchaResult :=
  mkCaptchaResult JUndefined None None None None None.
Definition captcha_of_body (o : SiteverifyObject) : CaptchaResult :=
  mkCaptchaResult (sv_success o) (sv_challenge_ts o) (sv_hostname o)
    (sv_error_codes o) (sv_action o) (sv_cdata o).

(** The remoteip field of the form: appended only for a non-empty ip. *)
Definition remoteip (ip : option string) : option string :=
  if JS.falsy ip then None else ip.

(** What sendTokens answers for each way the chain can treat the transfer. *)
Definition send_result (config : Config) (w : World) (toAddress : string) : Outcome TxResult :=
  match submit w toAddress with
  | NotAnAddress => Throw InvalidEthereumAddress
  | SubmitRejected => Throw ProviderError
  | SubmittedNoReceipt _ => Throw ReceiptIsNull
  | SubmittedReverted _ => Throw TransactionFailedOnChain
  | SubmittedWaitRejected _ => Throw ProviderError
  | Confirmed hash checksumAddress gasUsed =>
      Ret (mkTxResult hash (wallet_address w) checksumAddress
             (faucet_amount config) gasUsed)
  end.

(** The counter keys of a request. *)
Definition ip_key (request : FaucetRequest) : string :=
  IP_KEY_PREFIX +:+ ipAddress request.
Definition address_key (request : FaucetRequest) : string :=
  ADDRESS_KEY_PREFIX +:+ JS.toLowerCase (address request).

(** The response built from a confirmed transfer at instant [now]. *)
Definition response_of (tx : TxResult) (now : Z) : FaucetResponse :=
  mkResponse (tx_hash tx) (tx_to tx) (tx_amount tx) now.

(** Two characters that are the same letter, in the same or in different
    case: the lower-case form of a letter is 32 code points above its
    upper-case form. *)
Definition same_letter (c d : ascii) : Prop :=
  c = d
  \/ (JS.is_upper c = true /\ JS.code d = JS.code c + 32)
  \/ (JS.is_upper d = true /\ JS.code c = JS.code d + 32).

(** Two strings that differ only in letter case. *)
Inductive case_variant : string -> string -> Prop :=
| case_variant_nil : case_variant "" ""
| case_variant_cons (c d : ascii) (s t : string) :
    same_letter c d -> case_variant s t ->
    case_variant (String c s) (String d t).

(** The counter stored under a key does not exceed the limit (a key that is
    missing, or holds no number, has no counter). *)
Definition count_within (config : Config) (key : string) (limit : Z) (w : World) : Prop :=
  match stored_count config w key with
  | Some (JS.Num c) => c <= limit
  | _ => True
  end.

(** Sequential calls of checkRateLimit for one key, each made after
    waiting the given delay (in ms). *)
Fixpoint checks (config : Config) (key : string) (limit windowMs : Z)
    (delays : list N) (w : World) : list RateLimit * World :=
  match delays with
  | [] => ([], w)
  | d :: ds =>
      match checkRateLimit config key limit windowMs (advance (Z.of_N d) w) with
      | (Ret r, w1) =>
          let '(rs, w2) := checks config key limit windowMs ds w1 in
          (r :: rs, w2)
      | (Throw _, w1) => ([], w1)
      end
  end.

(** The time a sequence of delays takes. *)
Definition total (delays : list N) : Z := Z.of_N (fold_right N.add 0%N delays).

(** ** Example worlds and requests *)

Definition provider_accepts : string -> option string -> AxiosReply :=
  fun _ _ =>
    Resolves (DataObject (mkSiteverify (JBool true) None None None None None)).

(** An answer with status 200 whose body is an HTML page. *)
Definition provider_sends_html : string -> option string -> AxiosReply :=
  fun _ _ => Resolves (DataText "<html>Bad Gateway</html>").

Definition chain_confirms : string -> SendOutcome :=
  fun toAddress => Confirmed "0x5e7d" toAddress 21000.

(** An empty database, Redis up, a treasury of 1000 ether. *)
Definition fresh_world : World :=
  mkWorld 1700000000000 ∅ [] provider_accepts (Some (1000 * 10 ^ 18)) None
    "0xFa0ce7" chain_confirms [] [].

(** The same with a treasury of 15 ether, under twice the amount of 10. *)
Definition poor_world : World :=
  mkWorld 1700000000000 ∅ [] provider_accepts (Some (15 * 10 ^ 18)) None
    "0xFa0ce7" chain_confirms [] [].

(** The same with a treasury one wei short of twice the amount of 10. *)
Definition short_world : World :=
  mkWorld 1700000000000 ∅ [] provider_accepts (Some (20 * 10 ^ 18 - 1)) None
    "0xFa0ce7" chain_confirms [] [].





(** Redis answers the four commands of the rate limits, then goes down. *)
Definition flaky_world : World :=
  mkWorld 1700000000000 ∅ [false; false; false; false; true; true; true]
    provider_accepts (Some (1000 * 10 ^ 18)) None
    "0xFa0ce7" chain_confirms [] [].

(** Redis is down. *)
Definition down_world : World :=
  mkWorld 1700000000000 ∅ [true] provider_accepts (Some (1000 * 10 ^ 18)) None
    "0xFa0ce7" chain_confirms [] [].

(** The provider answers with a page that is not JSON. *)
Definition html_world : World :=
  mkWorld 1700000000000 ∅ [] provider_sends_html (Some (1000 * 10 ^ 18)) None
    "0xFa0ce7" chain_confirms [] [].

Definition captcha_config : Config :=
  mkConfig "ande-faucet:" true "secret" (10 * 10 ^ 18) 5 3600000 1 86400000.

Definition alice : string := "0x742d35Cc6634C0532925a3b844Bc9e7595f0bEb1".
Definition alice_lower : string := "0x742d35cc6634c0532925a3b844bc9e7595f0beb1".

Definition good_request : FaucetRequest :=
  mkRequest alice (Some "token") "203.0.113.7" "req_1".

Definition bad_request : FaucetRequest :=
  mkRequest "0xZZZZ" (Some "token") "203.0.113.7" "req_2".

(** * The rest of the services *)

(** ** RedisService: the other methods *)

Section MoreRedis.

Variable config : Config.

(** A command the wire log has no name for: it is lost or executed like
    any other command. *)
Definition request {A} (exec : World -> Outcome A * gmap string Entry) : M A :=
  fun w =>
    let '(lost, rest) :=
      match outages w with
      | b :: r => (b, r)
      | [] => (false, [])
      end in
    let w1 := with_outages rest w in
    if lost then (Throw RedisError, w1)
    else
      match exec w1 with
      | (Ret a, d) => (Ret a, with_db d w1)
      | (Throw e, _) => (Throw e, w1)
      end.

(** DEL answers the number of keys removed. *)
Definition client_del (key : string) : M Z :=
  request
    (fun w =>
       (Ret match lookup_live config w key with Some _ => 1 | None => 0 end,
        delete (prefixed config key) (db w))).

(** EXISTS answers 1 or 0. *)
Definition client_exists (key : string) : M Z :=
  request
    (fun w =>
       (Ret match lookup_live config w key with Some _ => 1 | None => 0 end,
        db w)).

(** MGET without a key is an error (wrong number of arguments). *)
Definition client_mget (keys : list string) : M (list (option Stored)) :=
  request
    (fun w =>
       match keys with
       | [] => (Throw RedisError, db w)
       | _ => (Ret (map (fun k => value <$> lookup_live config w k) keys), db w)
       end).

Definition client_ping : M string :=
  request (fun w => (Ret "PONG", db w)).

(** [set(key, value, ttl?)]: [if (ttl)] takes SETEX for a ttl that is
    there and not 0, SET otherwise. *)
Definition redis_set_ttl (key : string) (v : Stored) (ttl : option Z) : M bool :=
  let* _ := modify (log_call (RedisSet key)) in
  try_catch
    (let* _ :=
       match ttl with
       | Some t => if t =? 0 then client_set config key v
                   else client_setex config key t v
       | None => client_set config key v
       end in
     ret true)
    (fun _ => ret false).

Definition redis_del (key : string) : M bool :=
  try_catch (let* _ := client_del key in ret true) (fun _ => ret false).

(** [delete]: alias for [del]. *)
Definition redis_delete (key : string) : M bool := redis_del key.

Definition redis_incr (key : string) : M Z :=
  try_catch (client_incr config key) (fun _ => ret 0).

Definition redis_ttl (key : string) : M Z :=
  try_catch (client_ttl config key) (fun _ => ret (-1)).

Definition redis_exists (key : string) : M bool :=
  try_catch (let* result := client_exists key in ret (result =? 1))
    (fun _ => ret false).

Definition redis_mget (keys : list string) : M (list (option Stored)) :=
  try_catch (client_mget keys) (fun _ => ret []).

Definition redis_ping : M bool :=
  try_catch (let* result := client_ping in ret (String.eqb result "PONG"))
    (fun _ => ret false).

End MoreRedis.

(** ** checkRateLimit among other calls *)

Section Overlap.

Variable config : Config.

(** checkRateLimit is not one step: it awaits the answer of GET before
    it sends its second command, and the rest of the program runs in
    between.  This is checkRateLimit with what the rest of the program
    does to the world during that await. *)
Definition checkRateLimit_meanwhile (key : string) (limit windowMs : Z)
    (meanwhile : World -> World) : M RateLimit :=
  let* _ := modify (log_call (RedisCheckRateLimit key limit windowMs)) in
  try_catch
    (let windowSeconds := windowMs / 1000 in
     let* current := client_get config key in
     let* _ := modify meanwhile in
     if no_current current then
       (* First request in window *)
       let* _ := client_setex config key windowSeconds (Text "1") in
       let* now := Date_now in
       ret (mkRateLimit true (JS.Num (limit - 1)) (now + windowMs))
     else
       let count := parse_current current in
       if JS.ge count limit then
         (* Rate limit exceeded *)
         let* ttl := client_ttl config key in
         let* now := Date_now in
         ret (mkRateLimit false (JS.Num 0) (now + ttl * 1000))
       else
         (* Increment counter *)
         let* _ := client_incr config key in
         let* now := Date_now in
         ret (mkRateLimit true (JS.pred (JS.sub limit count)) (now + windowMs)))
    (fun _ =>
       (* Fail open - allow request if Redis is down *)
       let* now := Date_now in
       ret (mkRateLimit true (JS.Num limit) (now + windowMs))).

End Overlap.

(** ** FaucetService: the other methods *)

Section MoreFaucet.

Variable config : Config.

(** [config.rateLimit.cooldownHours], quoted in the reason of
    checkEligibility. *)
Variable cooldownHours : Z.

(** What checkEligibility answers. *)
Record Eligibility := mkEligibility {
  eligible : bool;
  reason : option string;
  nextEligibleAt : option Z
}.

Definition checkEligibility (address : string) : M Eligibility :=
  (* Validate address *)
  if negb (isValidAddress address) then
    ret (mkEligibility false (Some "Invalid address format") None)
  else
  (* Check rate limit *)
  let* rateLimit := checkAddressRateLimit config address in
  if negb (allowed rateLimit) then
    ret (mkEligibility false
           (Some ("Address has received tokens recently. Please wait "
                  +:+ JS.toString cooldownHours +:+ " hours."))
           (Some (resetAt rateLimit)))
  else
    ret (mkEligibility true None None).

(** What getStats answers: the stored document and the balance. *)
Record FaucetStats := mkFaucetStats {
  fs_stats : Stats;
  faucetBalance : Z
}.

Definition getStats : M FaucetStats :=
  try_catch
    (let* statsData := redis_get config STATS_KEY in
     let* balance := getBalance in
     if no_current statsData then
       (* Default stats *)
       ret (mkFaucetStats default_stats balance)
     else
       match statsData with
       | Some data =>
           let* stats := JSON_parse_stats data in
           ret (mkFaucetStats stats balance)
       | None => ret (mkFaucetStats default_stats balance)
       end)
    (fun _ => ret (mkFaucetStats default_stats 0)).

End MoreFaucet.

(** ** The HTTP handlers *)

(** [error.message] of the errors the services construct; the errors of
    the libraries carry a message of their own. *)
Definition error_message (library_message : string) (e : Exn) : string :=
  match e with
  | InvalidAddressFormat => "Invalid Ethereum address format"
  | CaptchaVerificationFailed => "Captcha verification failed"
  | IPRateLimitExceeded minutes =>
      "IP rate limit exceeded. Try again in " +:+ JS.toString minutes +:+ " minutes"
  | AddressRateLimitExceeded hours =>
      "Address rate limit exceeded. Try again in " +:+ JS.toString hours +:+ " hours"
  | FaucetBalanceTooLow => "Faucet balance too low. Please contact support."
  | BalanceUnavailable => "Failed to get balance from blockchain"
  | InvalidEthereumAddress => "Invalid Ethereum address"
  | ReceiptIsNull => "Transaction receipt is null"
  | TransactionFailedOnChain => "Transaction failed on chain"
  | ProviderError | RedisError | AxiosError | TypeError | SyntaxError =>
      library_message
  end.

(** [s.includes(sub)] *)
Fixpoint includes (sub s : string) : bool :=
  if String.prefix sub s then true
  else match s with
       | String _ r => includes sub r
       | EmptyString => false
       end.

(** [s.substring(n)] *)
Fixpoint substring_from (n : nat) (s : string) : string :=
  match n, s with
  | S n', String _ r => substring_from n' r
  | _, _ => s
  end.

(** A word between double quotes. *)
Definition quoted (s : string) : string :=
  String (ascii_of_nat 34) (s +:+ String (ascii_of_nat 34) "").

(** A response: its status and either the data or the error text. *)
Record HttpResponse (A : Type) := mkHttp {
  status : Z;
  body : A + string
}.
Arguments mkHttp {A} status body.
Arguments status {A} h.
Arguments body {A} h.

Section Handlers.

Variable config : Config.

(** [isAddress] of ethers, and the message of the library errors. *)
Variable isAddress : string -> bool.
Variable library_message : string.

(** The handler of POST /request: the function the route runs once its
    rate-limit middleware has let the request through (the middleware is
    not part of it, nor is what the handler writes to the application
    log).  The fields of the body are a string or missing; [nonce] is
    the random part of the request id. *)
Definition post_request (address captchaToken : option string)
    (req_ip remoteAddress : option string) (nonce : string)
    : M (HttpResponse FaucetResponse) :=
  let* now := Date_now in
  let requestId := "req_" +:+ JS.toString now +:+ "_" +:+ nonce in
  try_catch
    (match address, captchaToken with
     | Some a, Some token =>
         (* Validate request body *)
         if JS.falsy address || JS.falsy captchaToken then
           ret (mkHttp 400 (inr "Missing required fields: address and captchaToken"))
         else
         (* Validate Ethereum address *)
         if negb (isAddress a) then
           ret (mkHttp 400 (inr "Invalid Ethereum address"))
         else
         let ipAddress :=
           match remoteip req_ip, remoteip remoteAddress with
           | Some ip, _ => ip
           | None, Some ip => ip
           | None, None => "unknown"
           end in
         let* result :=
           processRequest config (mkRequest a (Some token) ipAddress requestId) in
         ret (mkHttp 200 (inl result))
     | _, _ =>
         ret (mkHttp 400 (inr "Missing required fields: address and captchaToken"))
     end)
    (fun error =>
       let message := error_message library_message error in
       (* Handle specific errors *)
       if includes "rate limit" message then
         ret (mkHttp 429 (inr message))
       else if includes "captcha" message then
         ret (mkHttp 400 (inr "Captcha verification failed"))
       else if includes "balance" message then
         ret (mkHttp 503
                (inr "Faucet temporarily unavailable. Please try again later."))
       else
         ret (mkHttp 500 (inr "Internal server error"))).

(** The handler of GET /cooldown/:address. *)
Definition get_cooldown (address : string) : M (HttpResponse Cooldown) :=
  try_catch
    (if negb (isAddress address) then
       ret (mkHttp 400 (inr "Invalid Ethereum address"))
     else
       let* cooldown := checkCooldown config address in
       ret (mkHttp 200 (inl cooldown)))
    (fun _ => ret (mkHttp 500 (inr "Failed to check cooldown status"))).

(** What the admin middleware does with a request. *)
Inductive Auth := Next | Refused (code : Z).

(** adminAuth, on the Authorization header and [config.admin.token]. *)
Definition adminAuth (authHeader : option string) (adminToken : string) : Auth :=
  match authHeader with
  | None => Refused 401
  | Some h =>
      if JS.falsy authHeader || negb (String.prefix "Bearer " h) then Refused 401
      else
        let token := substring_from 7 h in
        if JS.falsy (Some adminToken) then Refused 500
        else if negb (String.eqb token adminToken) then Refused 403
        else Next
  end.

(** The handler of POST /reset-rate-limit. *)
Definition reset_rate_limit (type value : option string) : M (HttpResponse string) :=
  try_catch
    (match type, value with
     | Some t, Some v =>
         if JS.falsy type || JS.falsy value then
           ret (mkHttp 400 (inr "Missing required fields: type and value"))
         else if negb (String.eqb t "ip" || String.eqb t "address") then
           ret (mkHttp 400
                  (inr ("Invalid type. Must be " +:+ quoted "ip" +:+ " or "
                        +:+ quoted "address")))
         else
           let key := if String.eqb t "ip"
                      then "ratelimit:ip:" +:+ v
                      else "ratelimit:address:" +:+ v in
           let* _ := redis_delete config key in
           ret (mkHttp 200 (inl ("Rate limit reset for " +:+ t +:+ ": " +:+ v)))
     | _, _ =>
         ret (mkHttp 400 (inr "Missing required fields: type and value"))
     end)
    (fun _ => ret (mkHttp 500 (inr "Failed to reset rate limit"))).

(** The handler of POST /manual-send.  The amount of the body is read
    into [amountToSend], which is logged and not used. *)
Definition manual_send {A} (address : option string) (amount : option A)
    : M (HttpResponse TxResult) :=
  try_catch
    (match address with
     | Some a =>
         if JS.falsy address then
           ret (mkHttp 400 (inr "Missing required field: address"))
         else
           let* now := Date_now in
           let requestId := "manual_" +:+ JS.toString now in
           let* result := sendTokens config a requestId in
           ret (mkHttp 200 (inl result))
     | None => ret (mkHttp 400 (inr "Missing required field: address"))
     end)
    (fun error => ret (mkHttp 500 (inr (error_message library_message error)))).

End Handlers.

(** ** The information routes *)

Section Information.

Variable config : Config.

(** [config.blockchain.chainId]. *)
Variable chainId : Z.

(** What getFaucetInfo answers.  Its [cooldownHours] is read from
    [config.faucet], which has no such field: it is undefined. *)
Record FaucetInfo := mkFaucetInfo {
  info_chainId : Z;
  faucetAddress : string;
  info_faucetBalance : Z;
  info_amount : Z;
  info_cooldownHours : option Z
}.

Definition getAddress : M string := fun w => (Ret (wallet_address w), w).

Definition getFaucetInfo : M FaucetInfo :=
  let* balance := getBalance in
  let* address := getAddress in
  ret (mkFaucetInfo chainId address balance (faucet_amount config) None).

(** The handler of GET /info. *)
Definition get_info : M (HttpResponse FaucetInfo) :=
  try_catch
    (let* info := getFaucetInfo in
     ret (mkHttp 200 (inl info)))
    (fun _ => ret (mkHttp 500 (inr "Failed to retrieve faucet information"))).

(** The handler of GET /stats. *)
Definition get_stats : M (HttpResponse FaucetStats) :=
  try_catch
    (let* stats := getStats config in
     ret (mkHttp 200 (inl stats)))
    (fun _ => ret (mkHttp 500 (inr "Failed to retrieve faucet statistics"))).

End Information.

(** ** The configuration *)

(** [process.env]. *)
Abbreviation Env := (gmap string string).

(** [process.env.NAME || fallback] *)
Definition env_or (env : Env) (name fallback : string) : string :=
  match env !! name with
  | Some s => if JS.falsy (Some s) then fallback else s
  | None => fallback
  end.

(** [parseInt(text, 10)] as a limit of [Config]: the integer, when it is
    one a JavaScript number holds exactly (up to 2^53 in size).  Beyond
    that parseInt rounds, and a text without digits gives NaN, a limit
    the program runs with: such limits are outside of what [Config]
    holds, and of what is proved here. *)
Definition parse_limit (text : string) : option Z :=
  match JS.parseInt text with
  | JS.Num n => if Z.abs n <=? 2 ^ 53 then Some n else None
  | JS.NaN => None
  end.

(** The part of [config] the services read, but for the amount, which is
    a [parseFloat]: it is given in wei.  [None]: one of the four limits
    is outside of [Config] (see [parse_limit]). *)
Definition config_of_env (env : Env) (amount : Z) : option Config :=
  match parse_limit (env_or env "RATE_LIMIT_IP_MAX_REQUESTS" "5"),
        parse_limit (env_or env "RATE_LIMIT_IP_WINDOW_MS" "3600000"),
        parse_limit (env_or env "RATE_LIMIT_ADDRESS_MAX_REQUESTS" "1"),
        parse_limit (env_or env "RATE_LIMIT_ADDRESS_WINDOW_MS" "86400000") with
  | Some ipMax, Some ipWindow, Some addressMax, Some addressWindow =>
      Some {|
        redis_keyPrefix := env_or env "REDIS_KEY_PREFIX" "ande-faucet:";
        captcha_enabled :=
          match env !! "HCAPTCHA_ENABLED" with
          | Some s => String.eqb s "true"
          | None => false
          end;
        captcha_secret :=
          env_or env "TURNSTILE_SECRET_KEY" (env_or env "HCAPTCHA_SECRET" "");
        faucet_amount := amount;
        rateLimit_ip_maxRequests := ipMax;
        rateLimit_ip_windowMs := ipWindow;
        rateLimit_address_maxRequests := addressMax;
        rateLimit_address_windowMs := addressWindow
      |}
  | _, _, _, _ => None
  end.

(** What validateConfig throws. *)
Inductive ConfigError :=
| MissingVariables (names : list string)
| PrivateKeyWithoutPrefix
| CaptchaSecretRequired.

(** validateConfig: [None] when it returns. *)
Definition validateConfig (env : Env) : option ConfigError :=
  let required := ["FAUCET_PRIVATE_KEY"; "RPC_URL"] in
  let missing := List.filter (fun key => JS.falsy (env !! key)) required in
  if (0 <? length missing)%nat then Some (MissingVariables missing)
  else
    (* Validate private key format *)
    let privateKey := env !! "FAUCET_PRIVATE_KEY" in
    if negb (JS.falsy privateKey)
       && negb (String.prefix "0x" (default "" privateKey))
    then Some PrivateKeyWithoutPrefix
    else
      (* Validate captcha config if enabled *)
      let enabled :=
        match env !! "HCAPTCHA_ENABLED" with
        | Some s => String.eqb s "true"
        | None => false
        end in
      if enabled && JS.falsy (Some (env_or env "HCAPTCHA_SECRET" ""))
      then Some CaptchaSecretRequired
      else None.

(** ** More example worlds *)

(** The world after one cooldown query for alice, a second later: her
    counter is at the limit of 1. *)
Definition cooling_world : World :=
  advance 1000 (snd (checkCooldown default_config alice fresh_world)).

(** The world after a request of alice that failed on the low balance,
    a second later, the treasury refilled. *)
Definition refilled_world : World :=
  with_db (db (snd (processRequest default_config good_request poor_world)))
    (advance 1000 fresh_world).

(** Four requests of an IP are counted; the window ends in half an hour. *)
Definition counting_world : World :=
  with_db (<["ande-faucet:ip:203.0.113.7" :=
               mkEntry (Text "4") (Some 1700001800000)]> ∅) fresh_world.

(** A request for alice from another IP. *)
Definition second_request : FaucetRequest :=
  mkRequest alice (Some "token") "198.51.100.9" "req_3".

(** An environment with the two required variables and nothing else. *)
Definition minimal_env : Env :=
  <["FAUCET_PRIVATE_KEY" := "0xac0974bec39a17e36ba4a6b4d238ff944bacb478"]>
    (<["RPC_URL" := "http://localhost:8545"]> ∅).
(** * Properties *)

(** ** The embedding on concrete inputs *)

Example parseInt_counter : JS.parseInt "7" = JS.Num 7.
Proof. reflexivity. Qed.

Example parseInt_prefix : JS.parseInt "  -12px" = JS.Num (-12).
Proof. reflexivity. Qed.

Example parseInt_no_digit : JS.parseInt "abc" = JS.NaN.
Proof. reflexivity. Qed.

Example toString_42 : JS.toString 42 = "42".
Proof. reflexivity. Qed.

Example toLowerCase_alice : JS.toLowerCase alice = alice_lower.
Proof. reflexivity. Qed.

Example isValidAddress_alice : isValidAddress alice = true.
Proof. reflexivity. Qed.

Example isValidAddress_not_hex : isValidAddress "0xZZZZ" = false.
Proof. reflexivity. Qed.

Example isValidAddress_39_digits :
  isValidAddress "0x742d35Cc6634C0532925a3b844Bc9e7595f0bEb" = false.
Proof. reflexivity. Qed.

Example isValidAddress_no_prefix :
  isValidAddress "742d35Cc6634C0532925a3b844Bc9e7595f0bEb1ab" = false.
Proof. reflexivity. Qed.

(** A first request is served and counted; the same address asking again
    at once is turned away for 24 hours. *)
Example first_request_served :
  fst (processRequest default_config good_request fresh_world)
  = Ret (mkResponse "0x5e7d" alice (10 * 10 ^ 18) 1700000000000).
Proof. vm_compute. reflexivity. Qed.

Example second_request_limited :
  fst (processRequest default_config good_request
         (snd (processRequest default_config good_request fresh_world)))
  = Throw (AddressRateLimitExceeded 24).
Proof. vm_compute. reflexivity. Qed.

Example first_request_calls :
  calls (snd (processRequest default_config good_request fresh_world))
  = [ CaptchaVerify (Some "token") (Some "203.0.113.7");
      RedisCheckRateLimit "ip:203.0.113.7" 5 3600000;
      RedisCheckRateLimit ("address:" +:+ alice_lower) 1 86400000;
      ChainGetBalance;
      ChainSendTokens alice "req_1";
      RedisGet "stats"; RedisSet "stats"; RedisSetex "request:0x5e7d" 604800 ].
Proof. vm_compute. reflexivity. Qed.

(** ** Rounding to the nearest double *)

Module DoubleFacts.
Import Double.

Lemma rne_mono (n1 n2 d : Z) : 0 < d -> n1 <= n2 -> rne n1 d <= rne n2 d.
Proof.
  intros Hd Hn. unfold rne.
  pose proof (Z.div_mod n1 d ltac:(lia)) as E1.
  pose proof (Z.div_mod n2 d ltac:(lia)) as E2.
  pose proof (Z.mod_pos_bound n1 d Hd) as B1.
  pose proof (Z.mod_pos_bound n2 d Hd) as B2.
  set (q1 := n1 / d) in *. set (r1 := n1 mod d) in *.
  set (q2 := n2 / d) in *. set (r2 := n2 mod d) in *.
  assert (Hq : q1 <= q2) by nia.
  destruct (Z.eq_dec q1 q2) as [Heq|Hne].
  - rewrite Heq in *. assert (r1 <= r2) by nia.
    destruct (Z.ltb_spec (2 * r1) d), (Z.ltb_spec (2 * r2) d),
      (Z.ltb_spec d (2 * r1)), (Z.ltb_spec d (2 * r2)),
      (Z.even q2); lia.
  - destruct (Z.ltb_spec (2 * r1) d), (Z.ltb_spec (2 * r2) d),
      (Z.ltb_spec d (2 * r1)), (Z.ltb_spec d (2 * r2)),
      (Z.even q1), (Z.even q2); lia.
Qed.

Lemma rne_exact (k d : Z) : 0 < d -> rne (k * d) d = k.
Proof.
  intros Hd. unfold rne. rewrite Z.div_mul, Z.mod_mul by lia.
  destruct (Z.ltb_spec (2 * 0) d); [reflexivity | lia].
Qed.

Lemma rne_scale (c n d : Z) : 0 < c -> 0 < d -> rne (c * n) (c * d) = rne n d.
Proof.
  intros Hc Hd. unfold rne.
  rewrite Z.div_mul_cancel_l, Zmult_mod_distr_l by lia.
  pose proof (Z.mod_pos_bound n d Hd) as B.
  set (q := n / d). set (r := n mod d) in *.
  destruct (Z.ltb_spec (2 * (c * r)) (c * d)), (Z.ltb_spec (2 * r) d),
    (Z.ltb_spec (c * d) (2 * (c * r))), (Z.ltb_spec d (2 * r));
    try reflexivity; nia.
Qed.

Lemma rne_lower (lo n d : Z) : 0 < d -> lo * d <= n -> lo <= rne n d.
Proof.
  intros Hd H. pose proof (rne_mono (lo * d) n d Hd H) as M.
  now rewrite rne_exact in M.
Qed.

Lemma rne_upper (hi n d : Z) : 0 < d -> n <= hi * d -> rne n d <= hi.
Proof.
  intros Hd H. pose proof (rne_mono n (hi * d) d Hd H) as M.
  now rewrite rne_exact in M.
Qed.

(** floor (log2 (n/d)), by its bounds *)
Lemma ilog2_spec (n d : Z) :
  0 < n -> 0 < d ->
  let k := Z.log2 d + 1 in
  let L := ilog2 n d + k in
  0 <= L /\ 2 ^ L * d <= n * 2 ^ k < 2 ^ (L + 1) * d.
Proof.
  intros Hn Hd k L. unfold L, ilog2. fold k.
  replace (Z.log2 (n * 2 ^ k / d) - k + k) with (Z.log2 (n * 2 ^ k / d)) by lia.
  assert (Hk : 0 <= k) by (unfold k; pose proof (Z.log2_nonneg d); lia).
  assert (Hdk : d < 2 ^ k).
  { unfold k. apply Z.log2_spec in Hd. replace (Z.log2 d + 1) with (Z.succ (Z.log2 d)) by lia. lia. }
  assert (Hp : 0 < 2 ^ k) by (apply Z.pow_pos_nonneg; lia).
  set (t := n * 2 ^ k / d).
  assert (Ht : 1 <= t).
  { unfold t. apply Z.div_le_lower_bound; nia. }
  pose proof (Z.log2_spec t ltac:(lia)) as Hl.
  pose proof (Z.log2_nonneg t) as Hl0.
  replace (Z.succ (Z.log2 t)) with (Z.log2 t + 1) in Hl by lia.
  pose proof (Z.div_mod (n * 2 ^ k) d ltac:(lia)) as E.
  pose proof (Z.mod_pos_bound (n * 2 ^ k) d Hd) as B.
  fold t in E. split; [exact Hl0|]. nia.
Qed.

Lemma ilog2_unique (n d l : Z) :
  0 < n -> 0 < d ->
  let k := Z.log2 d + 1 in
  0 <= l + k ->
  2 ^ (l + k) * d <= n * 2 ^ k < 2 ^ (l + k + 1) * d ->
  ilog2 n d = l.
Proof.
  intros Hn Hd k Hl H.
  destruct (ilog2_spec n d Hn Hd) as (HL & HS). fold k in HL, HS.
  set (L := ilog2 n d + k) in *.
  assert (Hlt1 : 2 ^ L < 2 ^ (l + k + 1)) by nia.
  assert (Hlt2 : 2 ^ (l + k) < 2 ^ (L + 1)) by nia.
  apply Z.pow_lt_mono_r_iff in Hlt1; [|lia|lia].
  apply Z.pow_lt_mono_r_iff in Hlt2; [|lia|lia].
  unfold L in *. lia.
Qed.

Lemma pow2_split (a b : Z) : 0 <= a -> 0 <= b -> 2 ^ (a + b) = 2 ^ a * 2 ^ b.
Proof. intros. now apply Z.pow_add_r. Qed.

Lemma pow2_pos (a : Z) : 0 <= a -> 0 < 2 ^ a.
Proof. intros. apply Z.pow_pos_nonneg; lia. Qed.

Lemma mantissa_E (n d e E : Z) :
  0 < d -> Z.max 0 e <= E ->
  mantissa n d e = rne (n * 2 ^ (E - e)) (d * 2 ^ E).
Proof.
  intros Hd HE. unfold mantissa.
  set (j := E - Z.max 0 e).
  assert (H1 : 2 ^ (E - e) = 2 ^ j * 2 ^ Z.max 0 (- e)).
  { rewrite <- pow2_split by lia. f_equal. lia. }
  assert (H2 : 2 ^ E = 2 ^ j * 2 ^ Z.max 0 e).
  { rewrite <- pow2_split by lia. f_equal. lia. }
  rewrite H1, H2.
  replace (n * (2 ^ j * 2 ^ Z.max 0 (- e))) with (2 ^ j * (n * 2 ^ Z.max 0 (- e))) by ring.
  replace (d * (2 ^ j * 2 ^ Z.max 0 e)) with (2 ^ j * (d * 2 ^ Z.max 0 e)) by ring.
  symmetry. apply rne_scale.
  - apply pow2_pos. lia.
  - pose proof (pow2_pos (Z.max 0 e) ltac:(lia)). nia.
Qed.

(** The value of n/d in units of 2^e, for E large enough. *)
Lemma scaled_bounds (n d E : Z) :
  0 < n -> 0 < d ->
  let e := ilog2 n d - 52 in
  Z.max 0 e <= E ->
  2 ^ 52 * (d * 2 ^ E) <= n * 2 ^ (E - e) < 2 ^ 53 * (d * 2 ^ E).
Proof.
  intros Hn Hd e HE.
  destruct (ilog2_spec n d Hn Hd) as (HL & HS).
  set (k := Z.log2 d + 1) in *. set (L := ilog2 n d + k) in *.
  assert (Hk : 0 <= k) by (unfold k; pose proof (Z.log2_nonneg d); lia).
  assert (HeL : L = e + 52 + k) by (unfold L, e; lia).
  pose proof (pow2_pos k Hk) as Pk.
  pose proof (pow2_pos (E - e) ltac:(lia)) as Pe.
  pose proof (pow2_pos E ltac:(lia)) as PE.
  assert (H1 : 2 ^ L * 2 ^ (E - e) = 2 ^ k * (2 ^ 52 * 2 ^ E)).
  { rewrite <- !pow2_split by lia. f_equal. lia. }
  assert (H2 : 2 ^ (L + 1) * 2 ^ (E - e) = 2 ^ k * (2 ^ 53 * 2 ^ E)).
  { rewrite <- !pow2_split by lia. f_equal. lia. }
  split.
  - apply (Z.mul_le_mono_pos_l _ _ (2 ^ k) Pk).
    replace (2 ^ k * (2 ^ 52 * (d * 2 ^ E))) with (2 ^ L * 2 ^ (E - e) * d)
      by (rewrite H1; ring).
    replace (2 ^ k * (n * 2 ^ (E - e))) with (n * 2 ^ k * 2 ^ (E - e)) by ring.
    nia.
  - apply (Z.mul_lt_mono_pos_l (2 ^ k) _ _ Pk).
    replace (2 ^ k * (2 ^ 53 * (d * 2 ^ E))) with (2 ^ (L + 1) * 2 ^ (E - e) * d)
      by (rewrite H2; ring).
    replace (2 ^ k * (n * 2 ^ (E - e))) with (n * 2 ^ k * 2 ^ (E - e)) by ring.
    nia.
Qed.

Lemma mantissa_bounds (n d : Z) :
  0 < n -> 0 < d ->
  2 ^ 52 <= mantissa n d (ilog2 n d - 52) <= 2 ^ 53.
Proof.
  intros Hn Hd. set (e := ilog2 n d - 52).
  rewrite (mantissa_E n d e (Z.max 0 e) Hd) by lia.
  pose proof (scaled_bounds n d (Z.max 0 e) Hn Hd ltac:(fold e; lia)) as B.
  fold e in B. cbv zeta in B.
  pose proof (pow2_pos (Z.max 0 e) ltac:(lia)) as PE.
  split.
  - apply rne_lower; [nia | lia].
  - apply rne_upper; [nia | lia].
Qed.

Lemma ilog2_mono (n1 n2 d : Z) :
  0 < n1 -> n1 <= n2 -> 0 < d -> ilog2 n1 d <= ilog2 n2 d.
Proof.
  intros H1 H12 Hd.
  destruct (ilog2_spec n1 d H1 Hd) as (HL1 & HS1).
  destruct (ilog2_spec n2 d ltac:(lia) Hd) as (HL2 & HS2).
  set (k := Z.log2 d + 1) in *.
  assert (Hk : 0 <= k) by (unfold k; pose proof (Z.log2_nonneg d); lia).
  pose proof (pow2_pos k Hk) as Pk.
  assert (Hlt : 2 ^ (ilog2 n1 d + k) < 2 ^ (ilog2 n2 d + k + 1)) by nia.
  apply Z.pow_lt_mono_r_iff in Hlt; lia.
Qed.

Lemma ilog2_double (n d : Z) :
  0 < n -> 0 < d -> ilog2 (2 * n) d = ilog2 n d + 1.
Proof.
  intros Hn Hd.
  destruct (ilog2_spec n d Hn Hd) as (HL & HS).
  apply ilog2_unique; try lia.
  set (k := Z.log2 d + 1) in *.
  replace (ilog2 n d + 1 + k) with (ilog2 n d + k + 1) by lia.
  replace (ilog2 n d + k + 1 + 1) with (Z.succ (ilog2 n d + k + 1)) by lia.
  rewrite Z.pow_succ_r by lia.
  replace (ilog2 n d + k + 1) with (Z.succ (ilog2 n d + k)) in * by lia.
  rewrite Z.pow_succ_r in * by lia. nia.
Qed.

(** The result of [pack], in canonical form. *)
Lemma pack_shape (m e : Z) :
  2 ^ 52 <= m <= 2 ^ 53 -> -1074 <= e ->
  exists m' e',
    2 ^ 52 <= m' < 2 ^ 53 /\ -1074 <= e'
    /\ units m' e' = units m e
    /\ pack m e = if 971 <? e' then Infinity false else Finite m' e'.
Proof.
  intros Hm He. unfold pack, finite.
  destruct (Z.eqb_spec m (2 ^ 53)) as [->|Hne].
  - exists (2 ^ 52), (e + 1). split; [lia|]. split; [lia|]. split; [|reflexivity].
    unfold units. replace (e + 1 + 1074) with (Z.succ (e + 1074)) by lia.
    rewrite Z.pow_succ_r by lia. change (2 ^ 53) with (2 ^ 52 * 2). ring.
  - exists m, e. split; [lia|]. auto.
Qed.

Lemma units_exponent (m1 e1 m2 e2 : Z) :
  2 ^ 52 <= m1 -> m2 < 2 ^ 53 -> -1074 <= e1 -> -1074 <= e2 ->
  units m1 e1 <= units m2 e2 -> e1 <= e2.
Proof.
  intros H1 H2 He1 He2 H. unfold units in H.
  pose proof (pow2_pos (e1 + 1074) ltac:(lia)) as P1.
  pose proof (pow2_pos (e2 + 1074) ltac:(lia)) as P2.
  assert (Hlt : 2 ^ 52 * 2 ^ (e1 + 1074) < 2 ^ 53 * 2 ^ (e2 + 1074)).
  { apply Z.le_lt_trans with (m1 * 2 ^ (e1 + 1074));
      [apply Z.mul_le_mono_nonneg_r; lia|].
    apply Z.le_lt_trans with (m2 * 2 ^ (e2 + 1074)); [exact H|].
    apply Zmult_lt_compat_r; lia. }
  rewrite <- !pow2_split in Hlt by lia.
  apply Z.pow_lt_mono_r_iff in Hlt; lia.
Qed.

Lemma pack_le (m1 e1 m2 e2 : Z) :
  2 ^ 52 <= m1 <= 2 ^ 53 -> 2 ^ 52 <= m2 <= 2 ^ 53 ->
  -1074 <= e1 -> -1074 <= e2 ->
  units m1 e1 <= units m2 e2 ->
  ltb (pack m2 e2) (pack m1 e1) = false.
Proof.
  intros Hm1 Hm2 He1 He2 H.
  destruct (pack_shape m1 e1 Hm1 He1) as (a1 & x1 & Ha1 & Hx1 & Hu1 & ->).
  destruct (pack_shape m2 e2 Hm2 He2) as (a2 & x2 & Ha2 & Hx2 & Hu2 & ->).
  rewrite <- Hu1, <- Hu2 in H.
  pose proof (units_exponent a1 x1 a2 x2 ltac:(lia) ltac:(lia) Hx1 Hx2 H) as Hx.
  destruct (Z.ltb_spec 971 x1), (Z.ltb_spec 971 x2); try reflexivity; try lia.
  cbn. apply Z.ltb_ge. exact H.
Qed.

Lemma round_pos_mono (n1 n2 d : Z) :
  0 < n1 -> n1 <= n2 -> 0 < d ->
  -1074 <= ilog2 n1 d - 52 ->
  ltb (round_pos n2 d) (round_pos n1 d) = false.
Proof.
  intros H1 H12 Hd Hc.
  pose proof (ilog2_mono n1 n2 d H1 H12 Hd) as Hl.
  unfold round_pos, exponent.
  rewrite !Z.max_r by lia.
  set (e1 := ilog2 n1 d - 52) in *. set (e2 := ilog2 n2 d - 52) in *.
  pose proof (mantissa_bounds n1 d H1 Hd) as B1.
  pose proof (mantissa_bounds n2 d ltac:(lia) Hd) as B2.
  fold e1 in B1. fold e2 in B2.
  apply pack_le; try lia.
  unfold units.
  pose proof (pow2_pos (e1 + 1074) ltac:(lia)) as P1.
  destruct (Z.eq_dec e1 e2) as [Heq|Hne].
  - rewrite <- Heq in *.
    assert (mantissa n1 d e1 <= mantissa n2 d e1).
    { rewrite !(mantissa_E _ d e1 (Z.max 0 e1) Hd) by lia.
      pose proof (pow2_pos (Z.max 0 e1) ltac:(lia)).
      pose proof (pow2_pos (Z.max 0 e1 - e1) ltac:(lia)).
      apply rne_mono; nia. }
    nia.
  - assert (He : e1 + 1 <= e2) by lia.
    replace (e2 + 1074) with ((e2 - e1 - 1) + Z.succ (e1 + 1074)) by lia.
    rewrite (pow2_split (e2 - e1 - 1) (Z.succ (e1 + 1074))) by lia.
    rewrite (Z.pow_succ_r 2 (e1 + 1074)) by lia.
    pose proof (pow2_pos (e2 - e1 - 1) ltac:(lia)) as P2.
    change (2 ^ 53) with (2 ^ 52 * 2) in B1.
    set (p1 := 2 ^ (e1 + 1074)) in *. set (p2 := 2 ^ (e2 - e1 - 1)) in *.
    set (c := 2 ^ 52) in *.
    set (m1 := mantissa n1 d e1) in *. set (m2 := mantissa n2 d e2) in *.
    apply Z.le_trans with (c * 2 * p1); [apply Z.mul_le_mono_nonneg_r; lia|].
    apply Z.le_trans with (m2 * (1 * (2 * p1))).
    + replace (c * 2 * p1) with (c * (1 * (2 * p1))) by ring.
      apply Z.mul_le_mono_nonneg_r; lia.
    + apply Z.mul_le_mono_nonneg_l; [lia|].
      apply Z.mul_le_mono_nonneg_r; lia.
Qed.

Lemma twice_finite (m e : Z) :
  2 ^ 52 <= m < 2 ^ 53 -> twice (finite m e) = finite m (e + 1).
Proof.
  intros Hm. unfold finite, twice.
  destruct (Z.ltb_spec 971 e), (Z.ltb_spec 971 (e + 1)); try lia;
    try reflexivity.
  - destruct (Z.ltb_spec (Z.abs m) (2 ^ 52)); [lia|].
    destruct (Z.ltb_spec e 971); [lia|].
    destruct (Z.ltb_spec m 0); [lia | reflexivity].
  - destruct (Z.ltb_spec (Z.abs m) (2 ^ 52)); [lia|].
    destruct (Z.ltb_spec e 971); [reflexivity | lia].
Qed.

Lemma round_pos_double (n d : Z) :
  0 < n -> 0 < d -> -1074 <= ilog2 n d - 52 ->
  round_pos (2 * n) d = twice (round_pos n d).
Proof.
  intros Hn Hd Hc. unfold round_pos, exponent.
  rewrite ilog2_double by assumption.
  rewrite !Z.max_r by lia.
  set (e := ilog2 n d - 52) in *.
  replace (ilog2 n d + 1 - 52) with (e + 1) by (unfold e; lia).
  assert (Hm : mantissa (2 * n) d (e + 1) = mantissa n d e).
  { rewrite (mantissa_E (2 * n) d (e + 1) (Z.max 0 (e + 1)) Hd) by lia.
    rewrite (mantissa_E n d e (Z.max 0 (e + 1)) Hd) by lia.
    f_equal.
    replace (Z.max 0 (e + 1) - e) with (Z.succ (Z.max 0 (e + 1) - (e + 1))) by lia.
    rewrite Z.pow_succ_r by lia. ring. }
  rewrite Hm.
  pose proof (mantissa_bounds n d Hn Hd) as B. fold e in B.
  set (m := mantissa n d e) in *.
  unfold pack.
  destruct (Z.eqb_spec m (2 ^ 53)) as [E|E].
  - symmetry. apply twice_finite. lia.
  - symmetry. apply twice_finite. lia.
Qed.

(** The doubles of amounts in wei. *)
Lemma of_wei_normal (n : Z) : 0 < n -> -1074 <= ilog2 n (10 ^ 18) - 52.
Proof.
  intros Hn.
  destruct (ilog2_spec n (10 ^ 18) Hn ltac:(lia)) as (HL & _).
  change (Z.log2 (10 ^ 18) + 1) with 60 in HL. lia.
Qed.

Lemma round_pos_shape (n : Z) :
  0 < n ->
  round_pos n (10 ^ 18) = Infinity false
  \/ exists m e, round_pos n (10 ^ 18) = Finite m e /\ 2 ^ 52 <= m < 2 ^ 53 /\ -1074 <= e.
Proof.
  intros Hn. pose proof (of_wei_normal n Hn) as Hc.
  unfold round_pos, exponent. rewrite Z.max_r by lia.
  pose proof (mantissa_bounds n (10 ^ 18) Hn ltac:(lia)) as B.
  destruct (pack_shape _ _ B Hc) as (m' & e' & Hm & He & _ & ->).
  destruct (971 <? e'); [left; reflexivity | right; eauto].
Qed.

Lemma twice_opp (x : t) :
  (forall e, x <> Finite 0 e) -> twice (opp x) = opp (twice x).
Proof.
  intros Hx. destruct x as [|s|m e]; try reflexivity. cbn [twice opp].
  rewrite Z.abs_opp.
  destruct (Z.ltb_spec (Z.abs m) (2 ^ 52)); [cbn [opp]; f_equal; lia|].
  destruct (e <? 971); [reflexivity|]. cbn [opp].
  assert (m <> 0) by (intros ->; now apply (Hx e)).
  destruct (Z.ltb_spec (- m) 0), (Z.ltb_spec m 0); try reflexivity; lia.
Qed.

Lemma units_opp (m e : Z) : units (- m) e = - units m e.
Proof. unfold units. ring. Qed.

Lemma ltb_opp (x y : t) : ltb (opp x) (opp y) = ltb y x.
Proof.
  destruct x as [|[|]|m1 e1], y as [|[|]|m2 e2]; try reflexivity.
  cbn [ltb opp]. rewrite !units_opp.
  destruct (Z.ltb_spec (- units m1 e1) (- units m2 e2)),
    (Z.ltb_spec (units m2 e2) (units m1 e1)); try reflexivity; lia.
Qed.

(** A balance of at least twice the amount is never below the double of
    twice the amount. *)
Lemma of_ether_twice_le (A B : Z) :
  2 * A <= B -> ltb (of_ether B) (twice (of_ether A)) = false.
Proof.
  intros H. unfold of_ether, round.
  destruct (Z.eqb_spec A 0) as [->|HA0].
  - change (twice zero) with zero.
    destruct (Z.eqb_spec B 0) as [->|HB0]; [reflexivity|].
    destruct (Z.ltb_spec 0 B); [|lia].
    destruct (round_pos_shape B ltac:(lia)) as [-> | (m & e & -> & Hm & He)];
      [reflexivity|].
    cbn. apply Z.ltb_ge. unfold units.
    pose proof (pow2_pos (e + 1074) ltac:(lia)). nia.
  - destruct (Z.ltb_spec 0 A).
    + rewrite <- round_pos_double by (try apply of_wei_normal; lia).
      destruct (Z.eqb_spec B 0); [lia|].
      destruct (Z.ltb_spec 0 B); [|lia].
      apply round_pos_mono; try lia. apply of_wei_normal. lia.
    + assert (Hs : forall e, round_pos (- A) (10 ^ 18) <> Finite 0 e).
      { intros e E.
        destruct (round_pos_shape (- A) ltac:(lia)) as [E' | (m & e' & E' & Hm & _)];
          rewrite E' in E; [discriminate|]. injection E as -> _. lia. }
      rewrite twice_opp by exact Hs.
      rewrite <- round_pos_double by (try apply of_wei_normal; lia).
      destruct (round_pos_shape (2 * - A) ltac:(lia))
        as [EA | (ma & ea & EA & Hma & Hea)].
      * rewrite EA. cbn [opp negb].
        destruct (B =? 0); [reflexivity|].
        destruct (0 <? B); [|destruct (opp _) as [|[|]|]; reflexivity].
        destruct (round_pos B _) as [|[|]|]; reflexivity.
      * destruct (Z.eqb_spec B 0) as [->|HB0].
        { rewrite EA. cbn. apply Z.ltb_ge. rewrite units_opp. unfold units.
          pose proof (pow2_pos (ea + 1074) ltac:(lia)). nia. }
        destruct (Z.ltb_spec 0 B).
        { rewrite EA.
          destruct (round_pos_shape B ltac:(lia)) as [-> | (m & e & -> & Hm & He)];
            [reflexivity|].
          cbn. apply Z.ltb_ge. rewrite units_opp. unfold units.
          pose proof (pow2_pos (ea + 1074) ltac:(lia)).
          pose proof (pow2_pos (e + 1074) ltac:(lia)). nia. }
        rewrite ltb_opp.
        apply round_pos_mono; try lia. apply of_wei_normal. lia.
Qed.

End DoubleFacts.

(** A balance of at least twice the amount passes the test of step 5. *)
Lemma balance_enough (config : Config) (B : Z) :
  faucet_amount config * 2 <= B -> balance_too_low config B = false.
Proof.
  intros H. unfold balance_too_low, amount_number.
  apply DoubleFacts.of_ether_twice_le. lia.
Qed.

(** ** The address format *)

Lemma hex_run_length (n : nat) (s : string) :
  hex_run n s = true -> String.length s = n.
Proof.
  revert s. induction n as [|n IH]; intros [|c r]; cbn; try discriminate; auto.
  intros H. apply andb_true_iff in H as (_ & H). f_equal. now apply IH.
Qed.

(** An address passes the check exactly when it is 0x followed by 40
    hexadecimal digits. *)
Lemma isValidAddress_shape (a : string) :
  isValidAddress a = true <->
  exists digits, a = "0x" +:+ digits /\ hex_run 40 digits = true.
Proof.
  split.
  - unfold isValidAddress.
    destruct a as [|c0 [|c1 r]]; try discriminate.
    + destruct c0 as [[] [] [] [] [] [] [] []]; discriminate.
    + destruct c0 as [[] [] [] [] [] [] [] []]; try discriminate.
      destruct c1 as [[] [] [] [] [] [] [] []]; try discriminate.
      intros H. exists r. split; [reflexivity | exact H].
  - intros (digits & -> & H). exact H.
Qed.

Lemma isValidAddress_length (a : string) :
  isValidAddress a = true -> String.length a = 42%nat.
Proof.
  intros H. apply isValidAddress_shape in H as (digits & -> & H).
  apply hex_run_length in H.
  change (S (S (String.length digits)) = 42%nat). now rewrite H.
Qed.

(** ** Decimal strings *)

Lemma of_uint_cons (d : Decimal.uint) (k : N) (dk : Decimal.uint -> Decimal.uint) :
  (forall x, Decimal.revapp (dk d) x = Decimal.revapp d (dk x)) ->
  DecimalPos.Unsigned.of_lu (dk Decimal.Nil) = k ->
  Pos.of_uint (dk d) = (Pos.of_uint d + k * 10 ^ DecimalPos.Unsigned.usize d)%N.
Proof.
  intros Hrev Hk.
  rewrite !DecimalPos.Unsigned.of_uint_alt. unfold Decimal.rev.
  rewrite Hrev, DecimalPos.Unsigned.of_lu_revapp, Hk. reflexivity.
Qed.

Lemma digits_value_uint (d : Decimal.uint) (acc : Z) :
  JS.digits_value acc (NilEmpty.string_of_uint d)
  = acc * 10 ^ Z.of_N (DecimalPos.Unsigned.usize d) + Z.of_N (Pos.of_uint d).
Proof.
  revert acc. induction d; intros acc; simpl DecimalPos.Unsigned.usize;
    [ simpl; lia | .. ];
    cbn [NilEmpty.string_of_uint JS.digits_value];
    change (JS.is_digit _) with true; cbv iota;
    rewrite IHd;
    match goal with
    | |- context [Pos.of_uint (?dk d)] =>
        rewrite (of_uint_cons d (DecimalPos.Unsigned.of_lu (dk Decimal.Nil)) dk)
          by (intros; reflexivity)
    end;
    rewrite N2Z.inj_succ, Z.pow_succ_r by lia;
    rewrite N2Z.inj_add, N2Z.inj_mul, N2Z.inj_pow;
    cbn [DecimalPos.Unsigned.of_lu]; unfold JS.code; simpl; lia.
Qed.

Lemma digit_not_space_sign (c : ascii) :
  JS.is_digit c = true ->
  JS.is_space c = false /\ c <> "-"%char /\ c <> "+"%char.
Proof.
  destruct c as [[] [] [] [] [] [] [] []]; intros H;
    try discriminate H; repeat split; try reflexivity; discriminate.
Qed.

Lemma parseInt_digits (s : string) :
  JS.starts_with_digit s = true -> JS.parseInt s = JS.Num (JS.digits_value 0 s).
Proof.
  destruct s as [|c r]; [discriminate|]. intros H. simpl in H.
  destruct (digit_not_space_sign c H) as (Hs & Hm & Hp).
  unfold JS.parseInt. cbn [JS.trim_start]. rewrite Hs.
  destruct c as [[] [] [] [] [] [] [] []]; try discriminate H;
    try (exfalso; apply Hm; reflexivity); try (exfalso; apply Hp; reflexivity);
    reflexivity.
Qed.

Lemma uint_string_starts_with_digit (d : Decimal.uint) :
  d <> Decimal.Nil -> JS.starts_with_digit (NilEmpty.string_of_uint d) = true.
Proof. destruct d; intros H; try reflexivity. now destruct H. Qed.

Lemma digits_value_pos (p : positive) :
  JS.digits_value 0 (NilEmpty.string_of_uint (Pos.to_uint p)) = Z.pos p.
Proof. rewrite digits_value_uint, DecimalPos.Unsigned.of_to. simpl. reflexivity. Qed.

Lemma nilzero_pos (p : positive) :
  NilZero.string_of_uint (Pos.to_uint p) = NilEmpty.string_of_uint (Pos.to_uint p).
Proof.
  pose proof (DecimalPos.Unsigned.to_uint_nonnil p) as H.
  destruct (Pos.to_uint p); try reflexivity. now destruct H.
Qed.

Lemma parseInt_toString (z : Z) : JS.parseInt (JS.toString z) = JS.Num z.
Proof.
  destruct z as [|p|p]; unfold JS.toString; simpl Z.to_int.
  - reflexivity.
  - simpl NilZero.string_of_int. rewrite nilzero_pos.
    rewrite parseInt_digits
      by (apply uint_string_starts_with_digit, DecimalPos.Unsigned.to_uint_nonnil).
    now rewrite digits_value_pos.
  - simpl NilZero.string_of_int. rewrite nilzero_pos.
    unfold JS.parseInt. cbn [JS.trim_start]. change (JS.is_space "-") with false.
    cbv iota.
    rewrite uint_string_starts_with_digit by apply DecimalPos.Unsigned.to_uint_nonnil.
    now rewrite digits_value_pos.
Qed.

Lemma string2ll_toString (z : Z) :
  - 2 ^ 63 <= z <= 2 ^ 63 - 1 -> string2ll (JS.toString z) = Some z.
Proof.
  intros Hz. unfold string2ll, JS.toString.
  rewrite NilZero.isi.
  - rewrite DecimalZ.of_to, String.eqb_refl.
    destruct (Z.leb_spec (- 2 ^ 63) z); [|lia].
    destruct (Z.leb_spec z (2 ^ 63 - 1)); [reflexivity|lia].
  - destruct z; simpl; try discriminate;
      intros [= H]; now apply DecimalPos.Unsigned.to_uint_nonnil in H.
  - destruct z; simpl; try discriminate;
      intros [= H]; now apply DecimalPos.Unsigned.to_uint_nonnil in H.
Qed.


(** ** The world record *)

Lemma with_outages_id (w : World) : with_outages (outages w) w = w.
Proof. now destruct w. Qed.

(** ** Redis commands *)

Ltac break_match :=
  match goal with
  | H : context [match ?x with _ => _ end] |- _ => destruct x eqn:?
  | |- context [match ?x with _ => _ end] => destruct x eqn:?
  end.

Ltac frame_tac :=
  unfold cmd_frame, same_env in *; cbn [calls wire outages db clock siteverify
    primary_balance fallback_balance wallet_address submit log_call log_wire
    with_db with_outages] in *;
  repeat match goal with H : _ /\ _ |- _ => destruct H end;
  repeat split; try congruence; auto.

Ltac wire_tac :=
  unfold cmd_frame in *;
  repeat match goal with H : _ /\ _ |- _ => destruct H end;
  repeat match goal with H : wire _ = _ |- _ => rewrite H; clear H end;
  cbn [wire log_call log_wire with_db with_outages];
  rewrite <- ?app_assoc; reflexivity.

Section CheckRateLimit.
Variable config : Config.
Variables (key : string) (limit windowMs : Z).

Lemma command_up {A} (cmd : RedisCmd) exec (w : World) :
  outages w = [] ->
  @command A cmd exec w =
    match exec w with
    | (Ret a, d) => (Ret a, log_wire (WRedis cmd true) (with_db d w))
    | (Throw e, _) => (Throw e, log_wire (WRedis cmd false) w)
    end.
Proof.
  intros H. unfold command. rewrite H. cbv iota beta.
  replace (with_outages [] w) with w
    by (rewrite <- H; symmetry; apply with_outages_id).
  reflexivity.
Qed.

Lemma with_db_id (w : World) : with_db (db w) w = w.
Proof. now destruct w. Qed.

Lemma client_get_up (w : World) :
  outages w = [] ->
  client_get config key w =
    (Ret (value <$> lookup_live config w key), log_wire (WRedis (GET key) true) w).
Proof.
  intros H. unfold client_get. rewrite command_up by exact H.
  now rewrite with_db_id.
Qed.

Lemma client_ttl_up (w : World) :
  outages w = [] ->
  exists t, client_ttl config key w = (Ret t, log_wire (WRedis (TTL key) true) w).
Proof.
  intros H. unfold client_ttl. rewrite command_up by exact H.
  rewrite with_db_id. eauto.
Qed.

Lemma client_setex_up (w : World) (seconds : Z) (v : Stored) :
  outages w = [] -> 0 < seconds ->
  client_setex config key seconds v w =
    (Ret tt,
     log_wire (WRedis (SETEX key seconds v) true)
       (with_db (<[prefixed config key :=
                     mkEntry v (Some (clock w + seconds * 1000))]> (db w)) w)).
Proof.
  intros H Hs. unfold client_setex. rewrite command_up by exact H.
  destruct (Z.ltb_spec 0 seconds); [reflexivity | lia].
Qed.

Lemma client_incr_up (w : World) (e : Entry) (n : Z) :
  outages w = [] ->
  lookup_live config w key = Some e ->
  value e = Text (JS.toString n) ->
  - 2 ^ 63 <= n < 2 ^ 63 - 1 ->
  client_incr config key w =
    (Ret (n + 1),
     log_wire (WRedis (INCR key) true)
       (with_db (<[prefixed config key :=
                     mkEntry (Text (JS.toString (n + 1))) (expireAt e)]> (db w)) w)).
Proof.
  intros H He Hv Hn. unfold client_incr. rewrite command_up by exact H.
  rewrite He, Hv. cbn [redis_integer].
  rewrite string2ll_toString by lia.
  destruct (Z.ltb_spec n (2 ^ 63 - 1)); [reflexivity | lia].
Qed.

Lemma checkRateLimit_first (w : World) :
  outages w = [] ->
  no_current (value <$> lookup_live config w key) = true ->
  1000 <= windowMs ->
  checkRateLimit config key limit windowMs w =
    (Ret (mkRateLimit true (JS.Num (limit - 1)) (clock w + windowMs)),
     log_wire (WRedis (SETEX key (windowMs / 1000) (Text "1")) true)
       (with_db (<[prefixed config key :=
                     mkEntry (Text "1") (Some (clock w + windowMs / 1000 * 1000))]> (db w))
          (log_wire (WRedis (GET key) true)
             (log_call (RedisCheckRateLimit key limit windowMs) w)))).
Proof.
  intros Hup Hno Hw.
  unfold checkRateLimit, bind, try_catch, modify. cbv beta iota.
  rewrite client_get_up by exact Hup.
  change (lookup_live config (log_call _ w) key) with (lookup_live config w key).
  rewrite Hno.
  rewrite client_setex_up;
    [reflexivity | exact Hup | apply Z.div_str_pos; lia].
Qed.

Lemma checkRateLimit_denied (w : World) (e : Entry) (s : string) (c : Z) :
  outages w = [] ->
  lookup_live config w key = Some e ->
  value e = Text s ->
  JS.parseInt s = JS.Num c ->
  limit <= c ->
  exists t,
    checkRateLimit config key limit windowMs w =
      (Ret (mkRateLimit false (JS.Num 0) t),
       log_wire (WRedis (TTL key) true)
         (log_wire (WRedis (GET key) true)
            (log_call (RedisCheckRateLimit key limit windowMs) w))).
Proof.
  intros Hup He Hv Hs Hc.
  unfold checkRateLimit, bind, try_catch, modify. cbv beta iota.
  rewrite client_get_up by exact Hup.
  change (lookup_live config (log_call _ w) key) with (lookup_live config w key).
  rewrite He. cbn [fmap option_fmap option_map]. rewrite Hv.
  assert (Hne : JS.falsy (Some s) = false).
  { destruct s; [discriminate Hs | reflexivity]. }
  cbn [no_current parse_current]. rewrite Hne, Hs. cbn [JS.ge].
  destruct (Z.leb_spec limit c); [|lia].
  edestruct (client_ttl_up
               (log_wire (WRedis (GET key) true)
                  (log_call (RedisCheckRateLimit key limit windowMs) w)))
    as [t Ht]; [exact Hup|].
  rewrite Ht. eexists. reflexivity.
Qed.

Lemma checkRateLimit_incr (w : World) (e : Entry) (c : Z) :
  outages w = [] ->
  lookup_live config w key = Some e ->
  value e = Text (JS.toString c) ->
  c < limit -> - 2 ^ 63 <= c < 2 ^ 63 - 1 ->
  checkRateLimit config key limit windowMs w =
    (Ret (mkRateLimit true (JS.Num (limit - c - 1)) (clock w + windowMs)),
     log_wire (WRedis (INCR key) true)
       (with_db (<[prefixed config key :=
                     mkEntry (Text (JS.toString (c + 1))) (expireAt e)]> (db w))
          (log_wire (WRedis (GET key) true)
             (log_call (RedisCheckRateLimit key limit windowMs) w)))).
Proof.
  intros Hup He Hv Hc Hr.
  unfold checkRateLimit, bind, try_catch, modify. cbv beta iota.
  rewrite client_get_up by exact Hup.
  change (lookup_live config (log_call _ w) key) with (lookup_live config w key).
  rewrite He. cbn [fmap option_fmap option_map]. rewrite Hv.
  assert (Hne : JS.falsy (Some (JS.toString c)) = false).
  { pose proof (parseInt_toString c) as Hp.
    destruct (JS.toString c); [discriminate Hp | reflexivity]. }
  cbn [no_current parse_current]. rewrite Hne, parseInt_toString. cbn [JS.ge].
  destruct (Z.leb_spec limit c); [lia|].
  rewrite (client_incr_up _ e c); [reflexivity | exact Hup | exact He | exact Hv | exact Hr].
Qed.

Lemma command_spec {A} cmd exec (w w1 : World) (o : Outcome A) :
  command cmd exec w = (o, w1) ->
  (exists a, o = Ret a /\ cmd_frame w w1 cmd true
             /\ exec (with_outages (tail (outages w)) w) = (Ret a, db w1))
  \/ (exists e, o = Throw e /\ cmd_frame w w1 cmd false
        /\ (outages w = [] ->
            exists d, exec (with_outages (tail (outages w)) w) = (Throw e, d))).
Proof.
  unfold command, cmd_frame, same_env.
  destruct (outages w) as [|[] rest] eqn:Ho; cbn [tail].
  - destruct (exec (with_outages [] w)) as [[a|e] d] eqn:He; intros [= <- <-].
    + left. exists a. cbn. repeat split; auto; discriminate.
    + right. exists e. cbn. repeat split; eauto.
  - intros [= <- <-]. right. exists RedisError. cbn.
    repeat split; auto; discriminate.
  - destruct (exec (with_outages rest w)) as [[a|e] d] eqn:He; intros [= <- <-].
    + left. exists a. cbn. repeat split; auto; discriminate.
    + right. exists e. cbn. repeat split; auto; discriminate.
Qed.

Lemma client_get_spec (w w1 : World) o :
  client_get config key w = (o, w1) ->
  db w1 = db w
  /\ ((o = Ret (value <$> lookup_live config w key)
       /\ cmd_frame w w1 (GET key) true)
      \/ (exists e, o = Throw e /\ cmd_frame w w1 (GET key) false
                    /\ outages w <> [])).
Proof.
  intros H. apply command_spec in H as [(a & -> & Hf & He) | (e & -> & Hf & Hwhy)].
  - injection He as <- <-. split; [reflexivity|]. left. split; [reflexivity|exact Hf].
  - split; [apply Hf; reflexivity|]. right. exists e.
    split; [reflexivity|]. split; [exact Hf|].
    intros Ho. destruct (Hwhy Ho) as [d Hd]. discriminate Hd.
Qed.

Lemma client_ttl_spec (w w1 : World) o :
  client_ttl config key w = (o, w1) ->
  db w1 = db w
  /\ ((exists t, o = Ret t /\ cmd_frame w w1 (TTL key) true)
      \/ (exists e, o = Throw e /\ cmd_frame w w1 (TTL key) false
                    /\ outages w <> [])).
Proof.
  intros H. apply command_spec in H as [(a & -> & Hf & He) | (e & -> & Hf & Hwhy)].
  - injection He as _ <-. split; [reflexivity|]. left. eauto.
  - split; [apply Hf; reflexivity|]. right. exists e.
    split; [reflexivity|]. split; [exact Hf|].
    intros Ho. destruct (Hwhy Ho) as [d Hd]. discriminate Hd.
Qed.

Lemma client_setex_spec (w w1 : World) (seconds : Z) (v : Stored) o :
  client_setex config key seconds v w = (o, w1) ->
  (o = Ret tt /\ cmd_frame w w1 (SETEX key seconds v) true /\ 0 < seconds
   /\ db w1 = <[prefixed config key :=
                  mkEntry v (Some (clock w + seconds * 1000))]> (db w))
  \/ (exists e, o = Throw e /\ cmd_frame w w1 (SETEX key seconds v) false).
Proof.
  intros H. apply command_spec in H as [(a & -> & Hf & He) | (e & -> & Hf & Hwhy)].
  - left. destruct (Z.ltb_spec 0 seconds); [|discriminate He].
    injection He as <- <-. auto.
  - right. eauto.
Qed.

(** INCR either fails and leaves the database alone, or stores the
    successor of the integer it found (1 for a missing key). *)
Lemma client_incr_spec (w w1 : World) o :
  client_incr config key w = (o, w1) ->
  (exists n, o = Ret n /\ cmd_frame w w1 (INCR key) true
     /\ ((lookup_live config w key = None /\ n = 1
          /\ db w1 = <[prefixed config key := mkEntry (Text "1") None]> (db w))
         \/ (exists e, lookup_live config w key = Some e
               /\ redis_integer (value e) = Some (n - 1)
               /\ db w1 = <[prefixed config key :=
                              mkEntry (Text (JS.toString n)) (expireAt e)]> (db w))))
  \/ (exists e, o = Throw e /\ cmd_frame w w1 (INCR key) false).
Proof.
  intros H. apply command_spec in H as [(a & -> & Hf & He) | (e & -> & Hf & Hwhy)].
  - left.
    change (lookup_live config (with_outages _ w) key)
      with (lookup_live config w key) in He.
    destruct (lookup_live config w key) as [e|] eqn:Hl.
    + destruct (redis_integer (value e)) as [n|] eqn:Hn; [|discriminate He].
      destruct (Z.ltb_spec n (2 ^ 63 - 1)); [|discriminate He].
      injection He as <- <-. exists (n + 1).
      split; [reflexivity|]. split; [exact Hf|].
      right. exists e. split; [reflexivity|]. split; [|reflexivity].
      rewrite Hn. f_equal. lia.
    + injection He as <- <-. exists 1.
      split; [reflexivity|]. split; [exact Hf|].
      left. repeat split; reflexivity.
  - right. eauto.
Qed.

(** The four ways a call of checkRateLimit can go. *)
Lemma checkRateLimit_cases (w w' : World) r :
  checkRateLimit config key limit windowMs w = (r, w') ->
  same_env w w'
  /\ calls w' = calls w ++ [RedisCheckRateLimit key limit windowMs]
  /\ (outages w = [] -> outages w' = [])
  /\ ((r = Ret (fail_open limit windowMs w) /\ db w' = db w
       /\ (outages w = [] ->
           no_current (current config key w) = true
           \/ JS.ge (parse_current (current config key w)) limit = false)
       /\ exists evs c, wire w' = wire w ++ evs ++ [WRedis c false]
                        /\ (evs = [] \/ evs = [WRedis (GET key) true]))
      \/ (no_current (current config key w) = true /\ 0 < windowMs / 1000
          /\ r = Ret (mkRateLimit true (JS.Num (limit - 1)) (clock w + windowMs))
          /\ db w' = <[prefixed config key :=
                         mkEntry (Text "1")
                           (Some (clock w + windowMs / 1000 * 1000))]> (db w)
          /\ wire w' = wire w ++ [WRedis (GET key) true;
                                  WRedis (SETEX key (windowMs / 1000) (Text "1")) true])
      \/ (no_current (current config key w) = false
          /\ JS.ge (parse_current (current config key w)) limit = true
          /\ (exists t, r = Ret (mkRateLimit false (JS.Num 0) t))
          /\ db w' = db w
          /\ wire w' = wire w ++ [WRedis (GET key) true; WRedis (TTL key) true])
      \/ (no_current (current config key w) = false
          /\ JS.ge (parse_current (current config key w)) limit = false
          /\ r = Ret (mkRateLimit true (JS.pred (JS.sub limit (parse_current (current config key w))))
                        (clock w + windowMs))
          /\ (exists n e, lookup_live config w key = Some e
                /\ redis_integer (value e) = Some (n - 1)
                /\ db w' = <[prefixed config key :=
                               mkEntry (Text (JS.toString n)) (expireAt e)]> (db w))
          /\ wire w' = wire w ++ [WRedis (GET key) true; WRedis (INCR key) true])).
Proof.
  unfold checkRateLimit, bind, try_catch, modify, current. cbv beta iota.
  destruct (client_get config key _) as [o1 w1] eqn:Hget.
  apply client_get_spec in Hget as (Hdb1 & [(-> & Hf1) | (e & -> & Hf1 & Hdown)]).
  2:{ intros [= <- <-]. split; [frame_tac|]. split; [frame_tac|].
      split; [frame_tac|]. left. split; [f_equal; unfold fail_open; f_equal; frame_tac|].
      split; [exact Hdb1|]. split; [intros Ho; now destruct Hdown|].
      exists [], (GET key). split; [wire_tac | left; reflexivity]. }
  cbv iota.
  change (lookup_live config (log_call _ w) key) with (lookup_live config w key).
  destruct (no_current (value <$> lookup_live config w key)) eqn:Hno.
  - destruct (client_setex config key _ _ w1) as [o2 w2] eqn:Hset.
    apply client_setex_spec in Hset
        as [(-> & Hf2 & Hpos & Hdb2) | (e & -> & Hf2)]; cbv iota;
      intros [= <- <-].
    + split; [frame_tac|]. split; [frame_tac|]. split; [frame_tac|].
      right; left. split; [reflexivity|]. split; [exact Hpos|].
      split; [do 2 f_equal; frame_tac|].
      split; [rewrite Hdb2, Hdb1; do 3 f_equal; frame_tac | wire_tac].
    + split; [frame_tac|]. split; [frame_tac|]. split; [frame_tac|].
      left. split; [f_equal; unfold fail_open; f_equal; frame_tac|].
      split; [transitivity (db w1); [apply Hf2; reflexivity | exact Hdb1]|].
      split; [intros _; left; reflexivity|].
      exists [WRedis (GET key) true], (SETEX key (windowMs / 1000) (Text "1")).
      split; [wire_tac | right; reflexivity].
  - destruct (JS.ge _ limit) eqn:Hge.
    + destruct (client_ttl config key w1) as [o2 w2] eqn:Httl.
      apply client_ttl_spec in Httl
          as (Hdb2 & [(t & -> & Hf2) | (e & -> & Hf2 & Hdown)]); cbv iota;
        intros [= <- <-].
      * split; [frame_tac|]. split; [frame_tac|]. split; [frame_tac|].
        right; right; left. split; [reflexivity|]. split; [reflexivity|].
        split; [eauto|]. split; [rewrite Hdb2, Hdb1; reflexivity | wire_tac].
      * split; [frame_tac|]. split; [frame_tac|]. split; [frame_tac|].
        left. split; [f_equal; unfold fail_open; f_equal; frame_tac|].
        split; [rewrite Hdb2, Hdb1; reflexivity|].
        split; [intros Ho; destruct Hdown; apply Hf1, Ho|].
        exists [WRedis (GET key) true], (TTL key).
        split; [wire_tac | right; reflexivity].
    + destruct (client_incr config key w1) as [o2 w2] eqn:Hincr.
      apply client_incr_spec in Hincr
          as [(n & -> & Hf2 & Hwhat) | (e & -> & Hf2)]; cbv iota;
        intros [= <- <-].
      * split; [frame_tac|]. split; [frame_tac|]. split; [frame_tac|].
        right; right; right. split; [reflexivity|]. split; [reflexivity|].
        split; [do 2 f_equal; frame_tac|].
        split; [|wire_tac].
        assert (Hl : lookup_live config w1 key = lookup_live config w key).
        { unfold lookup_live. rewrite Hdb1.
          cbn [db log_call]. replace (clock w1) with (clock w) by frame_tac.
          reflexivity. }
        rewrite Hl in Hwhat. destruct Hwhat as [(Hnone & _) | (e & He & Hn & Hdb2)].
        { rewrite Hnone in Hno. discriminate Hno. }
        exists n, e. split; [exact He|]. split; [exact Hn|].
        rewrite Hdb2, Hdb1. reflexivity.
      * split; [frame_tac|]. split; [frame_tac|]. split; [frame_tac|].
        left. split; [f_equal; unfold fail_open; f_equal; frame_tac|].
        split; [transitivity (db w1); [apply Hf2; reflexivity | exact Hdb1]|].
        split; [intros _; right; reflexivity|].
        exists [WRedis (GET key) true], (INCR key).
        split; [wire_tac | right; reflexivity].
Qed.

(** What every call of checkRateLimit does, whatever the store does: it
    returns (never throws), touches its own key only, and talks to Redis
    only. *)
Lemma checkRateLimit_frame (w w' : World) r :
  checkRateLimit config key limit windowMs w = (r, w') ->
  exists rl evs,
    r = Ret rl /\ same_env w w'
    /\ calls w' = calls w ++ [RedisCheckRateLimit key limit windowMs]
    /\ (outages w = [] -> outages w' = [])
    /\ wire w' = wire w ++ evs
    /\ forallb (fun e => negb (is_send_wire e)) evs = true
    /\ (forall k, k <> prefixed config key -> db w' !! k = db w !! k).
Proof.
  intros H. apply checkRateLimit_cases in H as (Henv & Hc & Ho & Hcases).
  destruct Hcases as
    [(-> & Hdb & _ & evs & c & Hw & Hevs)
    |[(_ & _ & -> & Hdb & Hw)
    |[(_ & _ & (t & ->) & Hdb & Hw)
    |(_ & _ & -> & (n & e & _ & _ & Hdb) & Hw)]]];
    eexists; eexists; (split; [reflexivity|]); (split; [exact Henv|]);
    (split; [exact Hc|]); (split; [exact Ho|]); (split; [exact Hw|]).
  - split; [destruct Hevs as [-> | ->]; reflexivity|]. intros; now rewrite Hdb.
  - split; [reflexivity|]. intros k Hk. rewrite Hdb. now apply lookup_insert_ne.
  - split; [reflexivity|]. intros; now rewrite Hdb.
  - split; [reflexivity|]. intros k Hk. rewrite Hdb. now apply lookup_insert_ne.
Qed.

End CheckRateLimit.

(** ** The pipeline in two stages *)

Lemma processRequest_stages (config : Config) (req : FaucetRequest) (w : World) :
  processRequest config req w
  = bind (admission config req) (fun _ => payout config req) w.
Proof.
  unfold processRequest, admission, payout, bind, try_catch, throw, ret, Date_now.
  repeat (break_match; try reflexivity; try congruence).
Qed.

(** ** The wrappers of RedisService: they never throw *)

Section RedisService.
Variable config : Config.
Variable key : string.

Lemma redis_get_spec (w w1 : World) r :
  redis_get config key w = (r, w1) ->
  exists ok : bool,
    r = Ret (if ok then current config key w else None)
    /\ same_env w w1
    /\ calls w1 = calls w ++ [RedisGet key]
    /\ wire w1 = wire w ++ [WRedis (GET key) ok]
    /\ db w1 = db w
    /\ (outages w = [] -> outages w1 = [] /\ ok = true).
Proof.
  unfold redis_get, bind, try_catch, modify, ret. cbv beta iota.
  destruct (client_get config key _) as [o w2] eqn:Hget.
  apply command_spec in Hget as [(a & -> & Hf & He) | (e & -> & Hf & Hwhy)];
    intros [= <- <-].
  - exists true. injection He as <- Hdb.
    split; [reflexivity|]. split; [frame_tac|]. split; [frame_tac|].
    split; [wire_tac|]. split; [symmetry; exact Hdb|].
    intros Ho. split; [frame_tac | reflexivity].
  - exists false.
    split; [reflexivity|]. split; [frame_tac|]. split; [frame_tac|].
    split; [wire_tac|]. split; [apply Hf; reflexivity|].
    intros Ho. destruct (Hwhy Ho) as [d Hd]. discriminate Hd.
Qed.

Lemma redis_set_spec (w w1 : World) (v : Stored) r :
  redis_set config key v w = (r, w1) ->
  exists ok : bool,
    r = Ret ok
    /\ same_env w w1
    /\ calls w1 = calls w ++ [RedisSet key]
    /\ wire w1 = wire w ++ [WRedis (SET key v) ok]
    /\ db w1 = insert_if ok (prefixed config key) (mkEntry v None) (db w)
    /\ (outages w = [] -> outages w1 = [] /\ ok = true).
Proof.
  unfold redis_set, bind, try_catch, modify, ret. cbv beta iota.
  destruct (client_set config key v _) as [o w2] eqn:Hset.
  apply command_spec in Hset as [(a & -> & Hf & He) | (e & -> & Hf & Hwhy)];
    intros [= <- <-].
  - exists true. injection He as _ Hdb.
    split; [reflexivity|]. split; [frame_tac|]. split; [frame_tac|].
    split; [wire_tac|]. split; [symmetry; exact Hdb|].
    intros Ho. split; [frame_tac | reflexivity].
  - exists false.
    split; [reflexivity|]. split; [frame_tac|]. split; [frame_tac|].
    split; [wire_tac|]. split; [apply Hf; reflexivity|].
    intros Ho. destruct (Hwhy Ho) as [d Hd]. discriminate Hd.
Qed.

Lemma redis_setex_spec (w w1 : World) (seconds : Z) (v : Stored) r :
  redis_setex config key seconds v w = (r, w1) ->
  exists ok : bool,
    r = Ret ok
    /\ same_env w w1
    /\ calls w1 = calls w ++ [RedisSetex key seconds]
    /\ wire w1 = wire w ++ [WRedis (SETEX key seconds v) ok]
    /\ db w1 = insert_if ok (prefixed config key)
                 (mkEntry v (Some (clock w + seconds * 1000))) (db w)
    /\ (outages w = [] -> outages w1 = [] /\ (0 < seconds -> ok = true)).
Proof.
  unfold redis_setex, bind, try_catch, modify, ret. cbv beta iota.
  destruct (client_setex config key seconds v _) as [o w2] eqn:Hset.
  apply command_spec in Hset as [(a & -> & Hf & He) | (e & -> & Hf & Hwhy)];
    intros [= <- <-].
  - exists true. destruct (Z.ltb_spec 0 seconds); [|discriminate He].
    injection He as _ Hdb.
    split; [reflexivity|]. split; [frame_tac|]. split; [frame_tac|].
    split; [wire_tac|]. split; [symmetry; exact Hdb|].
    intros Ho. split; [frame_tac | reflexivity].
  - exists false.
    split; [reflexivity|]. split; [frame_tac|]. split; [frame_tac|].
    split; [wire_tac|]. split; [apply Hf; reflexivity|].
    intros Ho. split; [frame_tac|]. intros Hs.
    destruct (Hwhy Ho) as [d Hd].
    destruct (Z.ltb_spec 0 seconds); [discriminate Hd | lia].
Qed.

End RedisService.

(** ** CaptchaService and BlockchainService *)

Section Collaborators.
Variable config : Config.

(** verify never throws, never touches Redis, and posts to the provider
    only when captcha is enabled and a token is present. *)
Lemma verify_cases (token ip : option string) (w w1 : World) r :
  verify config token ip w = (r, w1) ->
  same_env w w1 /\ db w1 = db w /\ outages w1 = outages w
  /\ calls w1 = calls w ++ [CaptchaVerify token ip]
  /\ ((captcha_enabled config = false /\ r = Ret captcha_passed
       /\ wire w1 = wire w)
      \/ (captcha_enabled config = true /\ JS.falsy token = true
          /\ r = Ret captcha_missing_input /\ wire w1 = wire w)
      \/ (captcha_enabled config = true
          /\ exists tok, token = Some tok /\ JS.falsy token = false
             /\ wire w1 = wire w ++ [WHttpPost tok (remoteip ip)]
             /\ r = Ret match siteverify w tok (remoteip ip) with
                        | Rejects | Resolves DataNull => captcha_verification_error
                        | Resolves (DataText _) => captcha_undefined
                        | Resolves (DataObject o) => captcha_of_body o
                        end)).
Proof.
  unfold verify, bind, try_catch, modify, ret, throw, axios_post. cbv beta iota zeta.
  destruct (captcha_enabled config) eqn:Hen; cbn [negb].
  - destruct token as [[|c tok]|]; cbv iota.
    + intros [= <- <-]. repeat split; auto. right; left. auto.
    + change (siteverify (log_call _ w)) with (siteverify w).
      fold (remoteip ip).
      destruct (siteverify w _ _) as [|[| |]] eqn:Hsv; intros [= <- <-];
        (repeat split; auto); right; right; (split; [reflexivity|]);
        exists (String c tok); rewrite Hsv; repeat split; reflexivity.
    + intros [= <- <-]. repeat split; auto. right; left. auto.
  - intros [= <- <-]. repeat split; auto.
Qed.

Lemma getBalance_spec (w w1 : World) r :
  getBalance w = (r, w1) ->
  same_env w w1 /\ db w1 = db w /\ outages w1 = outages w
  /\ calls w1 = calls w ++ [ChainGetBalance]
  /\ r = match treasury_balance w with
         | Some b => Ret b
         | None => Throw BalanceUnavailable
         end
  /\ exists evs, wire w1 = wire w ++ evs
                 /\ forallb (fun e => negb (is_send_wire e)) evs = true.
Proof.
  unfold getBalance, bind, try_catch, modify, ret, throw, get_world,
    provider_getBalance, treasury_balance. cbv beta iota.
  change (primary_balance (log_call ChainGetBalance w)) with (primary_balance w).
  destruct (primary_balance w) as [b|].
  - intros [= <- <-]. repeat split; auto.
    exists [WGetBalance false true]. split; reflexivity.
  - change (fallback_balance (log_wire _ (log_call _ w)))
      with (fallback_balance w).
    destruct (fallback_balance w) as [[b|]|] eqn:Hfb; cbv beta iota;
      change (fallback_balance (log_wire _ (log_call _ w)))
        with (fallback_balance w); rewrite ?Hfb; cbv beta iota;
      intros [= <- <-]; (repeat split; auto);
      cbn [wire log_wire log_call]; rewrite <- ?app_assoc;
      eexists; (split; [reflexivity|reflexivity]).
Qed.

Lemma sendTokens_spec (toAddress requestId : string) (w w1 : World) r :
  sendTokens config toAddress requestId w = (r, w1) ->
  same_env w w1 /\ db w1 = db w /\ outages w1 = outages w
  /\ calls w1 = calls w ++ [ChainSendTokens toAddress requestId]
  /\ r = send_result config w toAddress
  /\ exists evs, wire w1 = wire w ++ evs.
Proof.
  unfold sendTokens, bind, try_catch, modify, ret, throw, get_world, send_result.
  cbv beta iota. cbn [submit log_call wallet_address].
  destruct (submit w toAddress); intros [= <- <-]; (repeat split; auto);
    cbn [wire log_wire log_call]; eexists;
    try reflexivity; symmetry; apply app_nil_r.
Qed.

End Collaborators.

(** ** updateStats *)

Section UpdateStats.
Variable config : Config.
Variables address txHash : string.

Lemma stats_read_code (data : option Stored) (w : World) :
  (if no_current data then ret default_stats
   else match data with
        | Some d => JSON_parse_stats d
        | None => ret default_stats
        end) w
  = match stats_read data with
    | Some st => (Ret st, w)
    | None => (Throw SyntaxError, w)
    end.
Proof. destruct data as [[[|c s]|st|rq]|]; reflexivity. Qed.

(** updateStats never throws.  It stops after the GET when the document
    does not parse; otherwise it issues the SET and the SETEX, each of
    which takes effect if it is answered. *)
Lemma updateStats_cases (w w1 : World) r :
  updateStats config address txHash w = (r, w1) ->
  r = Ret tt /\ same_env w w1 /\ (outages w = [] -> outages w1 = [])
  /\ exists ok0 : bool,
       (outages w = [] -> ok0 = true)
       /\ match stats_read (if ok0 then current config STATS_KEY w else None) with
          | None =>
              calls w1 = calls w ++ [RedisGet STATS_KEY]
              /\ wire w1 = wire w ++ [WRedis (GET STATS_KEY) ok0]
              /\ db w1 = db w
          | Some st =>
              let doc := StatsJson (bump_stats config (clock w) st) in
              let rq := request_record config address txHash (clock w) in
              let requestKey := "request:" +:+ txHash in
              exists ok1 ok2 : bool,
                (outages w = [] -> ok1 = true /\ ok2 = true)
                /\ calls w1 = calls w ++ [RedisGet STATS_KEY; RedisSet STATS_KEY;
                                          RedisSetex requestKey (86400 * 7)]
                /\ wire w1 = wire w ++ [WRedis (GET STATS_KEY) ok0;
                                        WRedis (SET STATS_KEY doc) ok1;
                                        WRedis (SETEX requestKey (86400 * 7) rq) ok2]
                /\ db w1 =
                     insert_if ok2 (prefixed config requestKey)
                       (mkEntry rq (Some (clock w + 86400 * 7 * 1000)))
                       (insert_if ok1 (prefixed config STATS_KEY)
                          (mkEntry doc None) (db w))
          end.
Proof.
  unfold updateStats, bind, try_catch. cbv beta iota.
  destruct (redis_get config STATS_KEY w) as [o0 w2] eqn:Hget.
  apply redis_get_spec in Hget
      as (ok0 & -> & Henv0 & Hc0 & Hw0 & Hdb0 & Hup0).
  cbv iota. rewrite stats_read_code.
  destruct (stats_read _) as [st|] eqn:Hread; cbv iota.
  2:{ intros [= <- <-]. split; [reflexivity|]. split; [exact Henv0|].
      split; [intros Ho; apply Hup0, Ho|].
      exists ok0. split; [intros Ho; apply Hup0, Ho|].
      rewrite Hread. auto. }
  unfold Date_now at 1. cbv beta iota.
  destruct (redis_set config STATS_KEY _ w2) as [o1 w3] eqn:Hset.
  apply redis_set_spec in Hset
      as (ok1 & -> & Henv1 & Hc1 & Hw1 & Hdb1 & Hup1).
  cbv iota.
  destruct (redis_setex config _ _ _ w3) as [o2 w4] eqn:Hsetex.
  apply redis_setex_spec in Hsetex
      as (ok2 & -> & Henv2 & Hc2 & Hw2 & Hdb2 & Hup2).
  cbv iota. intros [= <- <-].
  assert (Hclock2 : clock w2 = clock w) by apply Henv0.
  assert (Hclock3 : clock w3 = clock w)
    by (transitivity (clock w2); [apply Henv1 | exact Hclock2]).
  split; [reflexivity|]. split; [frame_tac|].
  split; [intros Ho; apply Hup2, Hup1, Hup0, Ho|].
  exists ok0. split; [intros Ho; apply Hup0, Ho|].
  rewrite Hread. cbv zeta. exists ok1, ok2.
  split.
  { intros Ho. split; [apply Hup1, Hup0, Ho|].
    apply Hup2; [apply Hup1, Hup0, Ho | lia]. }
  split.
  { rewrite Hc2, Hc1, Hc0, <- !app_assoc. reflexivity. }
  split.
  { rewrite Hw2, Hw1, Hw0, <- !app_assoc, Hclock2. reflexivity. }
  rewrite Hdb2, Hdb1, Hdb0, Hclock2, Hclock3. reflexivity.
Qed.

End UpdateStats.

(** ** The admission checks *)

Section Pipeline.
Variable config : Config.
Variable req : FaucetRequest.

Lemma forallb_app_true {A} (f : A -> bool) (l1 l2 : list A) :
  forallb f l1 = true -> forallb f l2 = true -> forallb f (l1 ++ l2) = true.
Proof. intros H1 H2. rewrite forallb_app, H1, H2. reflexivity. Qed.

Lemma admission_cases (w w1 : World) r :
  admission config req w = (r, w1) ->
  same_env w w1
  /\ (outages w = [] -> outages w1 = [])
  /\ (forall k, k <> prefixed config (ip_key req) -> k <> prefixed config (address_key req) ->
                db w1 !! k = db w !! k)
  /\ (exists evs, wire w1 = wire w ++ evs
                  /\ forallb (fun e => negb (is_send_wire e)) evs = true)
  /\ ((isValidAddress (address req) = false
       /\ r = Throw InvalidAddressFormat /\ w1 = w)
      \/ (isValidAddress (address req) = true
          /\ ((r = Throw CaptchaVerificationFailed
               /\ calls w1 = calls w ++ firstn 1 (admission_calls config req)
               /\ db w1 = db w /\ outages w1 = outages w)
              \/ ((exists m, r = Throw (IPRateLimitExceeded m))
                  /\ calls w1 = calls w ++ firstn 2 (admission_calls config req))
              \/ ((exists h, r = Throw (AddressRateLimitExceeded h))
                  /\ calls w1 = calls w ++ admission_calls config req)
              \/ (r = Ret tt
                  /\ calls w1 = calls w ++ admission_calls config req)))).
Proof.
  unfold admission, bind, throw, ret, Date_now, checkIPRateLimit,
    checkAddressRateLimit. cbv beta iota zeta.
  destruct (isValidAddress (address req)) eqn:Hvalid; cbn [negb].
  2:{ intros [= <- <-]. split; [frame_tac|]. split; [auto|]. split; [auto|].
      split; [exists []; split; [symmetry; apply app_nil_r | reflexivity]|].
      left. auto. }
  destruct (verify config _ _ w) as [o1 w2] eqn:Hv.
  apply verify_cases in Hv as (Henv1 & Hdb1 & Ho1 & Hc1 & Hv).
  assert (Hw1 : exists cr evs, o1 = Ret cr /\ wire w2 = wire w ++ evs
                 /\ forallb (fun e => negb (is_send_wire e)) evs = true).
  { destruct Hv as [(_ & -> & Hw)|[(_ & _ & -> & Hw)|(_ & tok & _ & _ & Hw & ->)]];
      eexists; eexists; (split; [reflexivity|]).
    - split; [rewrite Hw; symmetry; apply app_nil_r | reflexivity].
    - split; [rewrite Hw; symmetry; apply app_nil_r | reflexivity].
    - split; [exact Hw | reflexivity]. }
  clear Hv. destruct Hw1 as (cr & evs1 & -> & Hw1 & Hns1). cbv iota.
  destruct (truthy (success cr)); cbn [negb].
  2:{ intros [= <- <-]. split; [exact Henv1|]. split; [congruence|].
      split; [intros; now rewrite Hdb1|]. split; [eauto|].
      right. split; [reflexivity|]. left. auto. }
  destruct (checkRateLimit config _ _ _ w2) as [o2 w3] eqn:Hip.
  apply checkRateLimit_frame in Hip
      as (rl2 & evs2 & -> & Henv2 & Hc2 & Ho2 & Hw2 & Hns2 & Hdb2).
  cbv iota.
  assert (Henv13 : same_env w w3) by frame_tac.
  assert (Hw13 : wire w3 = wire w ++ (evs1 ++ evs2))
    by (rewrite Hw2, Hw1, <- app_assoc; reflexivity).
  assert (Hc13 : calls w3 = calls w ++ firstn 2 (admission_calls config req))
    by (rewrite Hc2, Hc1, <- app_assoc; reflexivity).
  destruct (allowed rl2); cbn [negb].
  2:{ intros [= <- <-]. split; [exact Henv13|].
      split; [intros Ho; apply Ho2; congruence|].
      split; [intros k Hk _; rewrite Hdb2 by exact Hk; now rewrite Hdb1|].
      split; [exists (evs1 ++ evs2); split;
              [exact Hw13 | now apply forallb_app_true]|].
      right. split; [reflexivity|]. right; left. eauto. }
  destruct (checkRateLimit config _ _ _ w3) as [o3 w4] eqn:Haddr.
  apply checkRateLimit_frame in Haddr
      as (rl3 & evs3 & -> & Henv3 & Hc3 & Ho3 & Hw3 & Hns3 & Hdb3).
  cbv iota.
  assert (Henv14 : same_env w w4) by frame_tac.
  assert (Hw14 : wire w4 = wire w ++ ((evs1 ++ evs2) ++ evs3))
    by (rewrite Hw3, Hw13, <- app_assoc; reflexivity).
  assert (Hc14 : calls w4 = calls w ++ admission_calls config req)
    by (rewrite Hc3, Hc13, <- app_assoc; reflexivity).
  assert (Hdb14 : forall k, k <> prefixed config (ip_key req) ->
                            k <> prefixed config (address_key req) ->
                            db w4 !! k = db w !! k).
  { intros k Hk1 Hk2. rewrite Hdb3 by exact Hk2. rewrite Hdb2 by exact Hk1.
    now rewrite Hdb1. }
  assert (Hns14 : forallb (fun e => negb (is_send_wire e))
                    ((evs1 ++ evs2) ++ evs3) = true)
    by (repeat apply forallb_app_true; assumption).
  destruct (allowed rl3); cbn [negb]; intros [= <- <-];
    (split; [exact Henv14|]);
    (split; [intros Ho; apply Ho3, Ho2; congruence|]);
    (split; [exact Hdb14|]); (split; [eauto|]);
    right; (split; [reflexivity|]); right; right; [right|left]; eauto.
Qed.

(** ** The payout *)

Lemma payout_cases (w w1 : World) r :
  payout config req w = (r, w1) ->
  same_env w w1 /\ (outages w = [] -> outages w1 = [])
  /\ match treasury_balance w with
     | None =>
         r = Throw BalanceUnavailable
         /\ calls w1 = calls w ++ [ChainGetBalance] /\ db w1 = db w
         /\ exists evs, wire w1 = wire w ++ evs
                        /\ forallb (fun e => negb (is_send_wire e)) evs = true
     | Some b =>
         if balance_too_low config b then
           r = Throw FaucetBalanceTooLow
           /\ calls w1 = calls w ++ [ChainGetBalance] /\ db w1 = db w
           /\ exists evs, wire w1 = wire w ++ evs
                          /\ forallb (fun e => negb (is_send_wire e)) evs = true
         else
           match send_result config w (address req) with
           | Throw e =>
               r = Throw e /\ db w1 = db w
               /\ calls w1 = calls w ++ [ChainGetBalance;
                                         ChainSendTokens (address req) (requestId req)]
           | Ret tx =>
               r = Ret (response_of tx (clock w))
               /\ exists w5,
                    same_env w w5 /\ db w5 = db w /\ outages w5 = outages w
                    /\ calls w5 = calls w ++ [ChainGetBalance;
                                              ChainSendTokens (address req) (requestId req)]
                    /\ updateStats config (address req) (tx_hash tx) w5 = (Ret tt, w1)
           end
     end.
Proof.
  unfold payout, bind, throw, ret, Date_now. cbv beta iota.
  destruct (getBalance w) as [o1 w2] eqn:Hb.
  apply getBalance_spec in Hb as (Henv1 & Hdb1 & Ho1 & Hc1 & -> & Hw1).
  destruct (treasury_balance w) as [b|]; cbv iota.
  2:{ intros [= <- <-]. split; [exact Henv1|]. split; [congruence|]. auto. }
  cbv zeta. fold (balance_too_low config b).
  destruct (balance_too_low config b).
  { intros [= <- <-]. split; [exact Henv1|]. split; [congruence|]. auto. }
  destruct (sendTokens config _ _ w2) as [o2 w3] eqn:Hs.
  apply sendTokens_spec in Hs as (Henv2 & Hdb2 & Ho2 & Hc2 & -> & Hw2).
  assert (Hsame : send_result config w2 (address req)
                  = send_result config w (address req)).
  { unfold send_result. replace (submit w2) with (submit w) by (symmetry; apply Henv1).
    replace (wallet_address w2) with (wallet_address w) by (symmetry; apply Henv1).
    reflexivity. }
  rewrite Hsame.
  assert (Hc13 : calls w3 = calls w ++ [ChainGetBalance;
                                        ChainSendTokens (address req) (requestId req)])
    by (rewrite Hc2, Hc1, <- app_assoc; reflexivity).
  destruct (send_result config w (address req)) as [tx|e]; cbv iota.
  2:{ intros [= <- <-]. split; [frame_tac|]. split; [congruence|].
      split; [reflexivity|]. split; [congruence | exact Hc13]. }
  destruct (updateStats config _ _ w3) as [o3 w4] eqn:Hu.
  pose proof (updateStats_cases _ _ _ _ _ _ Hu) as (-> & Henv3 & Ho3 & _).
  cbv iota. intros [= <- <-].
  split; [frame_tac|]. split; [intros Ho; apply Ho3; congruence|].
  split.
  { f_equal. unfold response_of. f_equal.
    transitivity (clock w3); [apply Henv3|].
    transitivity (clock w2); [apply Henv2 | apply Henv1]. }
  exists w3. split; [frame_tac|]. split; [congruence|]. split; [congruence|].
  split; [exact Hc13 | exact Hu].
Qed.

End Pipeline.

(** * The claims *)

Lemma send_result_error (config : Config) (w : World) (a : string) (e : Exn) :
  send_result config w a = Throw e ->
  pipeline_error e = true
  /\ steps_made (@Throw FaucetResponse e) = 5%nat.
Proof.
  unfold send_result. destruct (submit w a); intros [= <-]; split; reflexivity.
Qed.

(** The calls of a run and the address format, together. *)
Lemma processRequest_calls_and_format
    (config : Config) (req : FaucetRequest) (w : World) :
  let r := fst (processRequest config req w) in
  let w' := snd (processRequest config req w) in
  (exists stats_calls,
     calls w' = calls w ++ firstn (steps_made r) (pipeline_calls config req)
                        ++ stats_calls
     /\ match r with
        | Ret resp =>
            stats_calls = [RedisGet STATS_KEY]
            \/ stats_calls = [RedisGet STATS_KEY; RedisSet STATS_KEY;
                              RedisSetex ("request:" +:+ txHash resp) (86400 * 7)]
        | Throw e => stats_calls = [] /\ pipeline_error e = true
        end)
  /\ (isValidAddress (address req) = false ->
      r = Throw InvalidAddressFormat /\ w' = w).
Proof.
  cbv zeta. rewrite processRequest_stages. unfold bind.
  destruct (admission config req w) as [o1 w1] eqn:Hadm.
  pose proof (admission_cases _ _ _ _ _ Hadm)
    as (Henv & Hout & Hdb & Hwire
        & [(Hv & -> & ->)
          |(Hv & [(-> & Hc & _)|[((m & ->) & Hc)|[((h & ->) & Hc)|(-> & Hc)]]])]);
    cbn [fst snd].
  - split; [|auto]. exists []. split; [|auto].
    cbn. now rewrite app_nil_r.
  - split; [|congruence]. exists []. split; [|auto].
    rewrite Hc. cbn. reflexivity.
  - split; [|congruence]. exists []. split; [|auto].
    rewrite Hc. cbn. reflexivity.
  - split; [|congruence]. exists []. split; [|auto].
    rewrite Hc. cbn. reflexivity.
  - split; [|congruence].
    destruct (payout config req w1) as [o2 w2] eqn:Hpay. cbn [fst snd].
    pose proof (payout_cases _ _ _ _ _ Hpay) as (_ & _ & Hp).
    destruct (treasury_balance w1) as [b|].
    2:{ destruct Hp as (-> & Hc2 & _). exists []. split; [|auto].
        rewrite Hc2, Hc. cbn. rewrite <- app_assoc. reflexivity. }
    destruct (balance_too_low config b).
    { destruct Hp as (-> & Hc2 & _). exists []. split; [|auto].
      rewrite Hc2, Hc. cbn. rewrite <- app_assoc. reflexivity. }
    destruct (send_result config w1 (address req)) as [tx|e] eqn:Hsend.
    2:{ destruct Hp as (-> & _ & Hc2).
        destruct (send_result_error _ _ _ _ Hsend) as (Hpe & Hsteps).
        exists []. split; [|auto]. rewrite Hsteps, Hc2, Hc. cbn.
        rewrite <- app_assoc. reflexivity. }
    destruct Hp as (-> & w5 & _ & _ & _ & Hc5 & Hu).
    apply updateStats_cases in Hu as (_ & _ & _ & ok0 & _ & Hu).
    cbn [steps_made].
    assert (Hpre : calls w5 = calls w ++ firstn 5 (pipeline_calls config req)).
    { rewrite Hc5, Hc. cbn. rewrite <- app_assoc. reflexivity. }
    destruct (stats_read _) as [st|].
    + destruct Hu as (ok1 & ok2 & _ & Hc2 & _).
      eexists. split; [|right; reflexivity].
      rewrite Hc2, Hpre, <- app_assoc. reflexivity.
    + destruct Hu as (Hc2 & _).
      eexists. split; [|left; reflexivity].
      rewrite Hc2, Hpre, <- app_assoc. reflexivity.
Qed.

(** The service calls of a run are the first calls of the fixed order,
    as many as the step it ended at, then those of the stats update. *)
Lemma processRequest_calls
    (config : Config) (req : FaucetRequest) (w : World) :
  let r := fst (processRequest config req w) in
  let w' := snd (processRequest config req w) in
  exists stats_calls,
     calls w' = calls w ++ firstn (steps_made r) (pipeline_calls config req)
                        ++ stats_calls
     /\ match r with
        | Ret resp =>
            stats_calls = [RedisGet STATS_KEY]
            \/ stats_calls = [RedisGet STATS_KEY; RedisSet STATS_KEY;
                              RedisSetex ("request:" +:+ txHash resp) (86400 * 7)]
        | Throw e => stats_calls = [] /\ pipeline_error e = true
        end.
Proof.
  pose proof (processRequest_calls_and_format config req w) as H.
  cbv zeta in *. exact (proj1 H).
Qed.

(** C1.  processRequest runs its steps in the fixed order validation,
    captcha, IP limit, address limit, balance read, send, stats update,
    and the failure of a step ends the run there.  Each step is judged
    by its own result in the world the steps before it have left: an
    address that fails the format check ends the run with the
    invalid-address error in an untouched world; a captcha that does not
    succeed ends it with the captcha error in the world verify has left;
    a refusal of the IP limit, and then of the address limit, ends it
    with that error in the world that check has left; a balance read
    that throws, or a balance found too low, ends it in the world
    getBalance has left; a transfer that throws ends it with the error
    of the transfer in the world sendTokens has left; and only after a
    confirmed transfer does updateStats run, after which the response is
    returned.  So the service calls of a run are exactly the first calls
    of the fixed order, as many as the step it ended at (followed, after
    a confirmed send, by the calls of the stats update). *)
Theorem processRequest_step_order
    (config : Config) (req : FaucetRequest) (w : World) :
  let r := fst (processRequest config req w) in
  let w' := snd (processRequest config req w) in
  (isValidAddress (address req) = false ->
   r = Throw InvalidAddressFormat /\ w' = w)
  /\ (isValidAddress (address req) = true ->
      exists captchaResult,
        fst (captcha_step config req w) = Ret captchaResult
        /\ (truthy (success captchaResult) = false ->
            r = Throw CaptchaVerificationFailed
            /\ w' = snd (captcha_step config req w))
        /\ (truthy (success captchaResult) = true ->
            exists ipRateLimit,
              fst (ip_step config req w) = Ret ipRateLimit
              /\ (allowed ipRateLimit = false ->
                  (exists minutes, r = Throw (IPRateLimitExceeded minutes))
                  /\ w' = snd (ip_step config req w))
              /\ (allowed ipRateLimit = true ->
                  exists addressRateLimit,
                    fst (address_step config req w) = Ret addressRateLimit
                    /\ (allowed addressRateLimit = false ->
                        (exists hours,
                            r = Throw (AddressRateLimitExceeded hours))
                        /\ w' = snd (address_step config req w))
                    /\ (allowed addressRateLimit = true ->
                        match fst (balance_step config req w) with
                        | Throw e =>
                            r = Throw e
                            /\ w' = snd (balance_step config req w)
                        | Ret balance =>
                            if balance_too_low config balance then
                              r = Throw FaucetBalanceTooLow
                              /\ w' = snd (balance_step config req w)
                            else
                              match fst (send_step config req w) with
                              | Throw e =>
                                  r = Throw e
                                  /\ w' = snd (send_step config req w)
                              | Ret tx =>
                                  r = Ret (response_of tx (clock w))
                                  /\ w' = snd (stats_step config req tx w)
                              end
                        end))))
  /\ (exists stats_calls,
        calls w' = calls w ++ firstn (steps_made r) (pipeline_calls config req)
                           ++ stats_calls
        /\ match r with
           | Ret resp =>
               stats_calls = [RedisGet STATS_KEY]
               \/ stats_calls = [RedisGet STATS_KEY; RedisSet STATS_KEY;
                                 RedisSetex ("request:" +:+ txHash resp)
                                   (86400 * 7)]
           | Throw e => stats_calls = [] /\ pipeline_error e = true
           end).
Proof.
  cbv zeta. split; [|split; [|exact (processRequest_calls config req w)]].
  - exact (proj2 (processRequest_calls_and_format config req w)).
  - intros Hvalid.
    unfold stats_step, send_step, balance_step, address_step, ip_step,
      captcha_step.
    unfold processRequest, bind, try_catch, throw, ret, Date_now.
    rewrite Hvalid. cbn [negb].
    destruct (verify config _ _ w) as [o1 w1] eqn:Hv.
    pose proof (verify_cases _ _ _ _ _ _ Hv) as (Henv1 & _ & _ & _ & Hcr).
    assert (Hr1 : exists cr, o1 = Ret cr).
    { destruct Hcr as [(_ & -> & _)|[(_ & _ & -> & _)|(_ & tok & _ & _ & _ & ->)]];
        eauto. }
    destruct Hr1 as (cr & ->). cbn [fst snd].
    exists cr. split; [reflexivity|].
    destruct (truthy (success cr)); cbn [negb].
    2:{ split; [auto | discriminate]. }
    split; [discriminate|]. intros _.
    destruct (checkIPRateLimit config _ w1) as [o2 w2] eqn:Hip.
    pose proof Hip as Hip'. unfold checkIPRateLimit in Hip'.
    apply checkRateLimit_frame in Hip' as (rl2 & _ & -> & Henv2 & _).
    cbn [fst snd]. exists rl2. split; [reflexivity|].
    destruct (allowed rl2); cbn [negb].
    2:{ split; [split; [eauto | reflexivity] | discriminate]. }
    split; [discriminate|]. intros _.
    destruct (checkAddressRateLimit config _ w2) as [o3 w3] eqn:Had.
    pose proof Had as Had'. unfold checkAddressRateLimit in Had'.
    apply checkRateLimit_frame in Had' as (rl3 & _ & -> & Henv3 & _).
    cbn [fst snd]. exists rl3. split; [reflexivity|].
    destruct (allowed rl3); cbn [negb].
    2:{ split; [split; [eauto | reflexivity] | discriminate]. }
    split; [discriminate|]. intros _.
    destruct (getBalance w3) as [[b|e] w4] eqn:Hb; cbn [fst snd];
      [|split; reflexivity].
    apply getBalance_spec in Hb as (Henv4 & _).
    cbv zeta. fold (balance_too_low config b).
    destruct (balance_too_low config b); [split; reflexivity|].
    destruct (sendTokens config _ _ w4) as [[tx|e] w5] eqn:Hs; cbn [fst snd];
      [|split; reflexivity].
    apply sendTokens_spec in Hs as (Henv5 & _).
    destruct (updateStats config _ _ w5) as [o6 w6] eqn:Hu.
    pose proof (updateStats_cases _ _ _ _ _ _ Hu) as (-> & Henv6 & _).
    cbn [fst snd]. split; [|reflexivity].
    unfold response_of. do 2 f_equal.
    transitivity (clock w5); [apply Henv6|].
    transitivity (clock w4); [apply Henv5|].
    transitivity (clock w3); [apply Henv4|].
    transitivity (clock w2); [apply Henv3|].
    transitivity (clock w1); [apply Henv2 | apply Henv1].
Qed.

Lemma treasury_balance_env (w w' : World) :
  same_env w w' -> treasury_balance w' = treasury_balance w.
Proof.
  intros (_ & _ & Hp & Hf & _). unfold treasury_balance. now rewrite Hp, Hf.
Qed.

Lemma send_result_env (config : Config) (w w' : World) (a : string) :
  same_env w w' -> send_result config w' a = send_result config w a.
Proof.
  intros (_ & _ & _ & _ & Hw & Hs). unfold send_result. now rewrite Hw, Hs.
Qed.

(** C4, as the code has it.  The balance check compares JavaScript
    numbers: the double nearest to the balance B (in ether) with twice
    the configured amount as a double.  When a request has passed the
    admission checks and getBalance returns B: if that comparison finds
    the balance lower, the request fails with the treasury-low error,
    sendTokens is not among the calls of the run and no transaction goes
    on the wire; otherwise sendTokens is called for the requested
    address and its outcome decides the request.  Whenever B >= 2A the
    comparison does not find the balance lower, so the second half of
    the claim holds as it is written; a balance that is too low is
    always below 2A. *)
Theorem balance_guard
    (config : Config) (req : FaucetRequest) (w w3 : World) (B : Z) :
  admission config req w = (Ret tt, w3) ->
  fst (getBalance w3) = Ret B ->
  let r := fst (processRequest config req w) in
  let w' := snd (processRequest config req w) in
  (Double.ltb (Double.of_ether B)
     (Double.twice (Double.of_ether (faucet_amount config))) = true ->
   r = Throw FaucetBalanceTooLow
   /\ exists cs evs,
        calls w' = calls w ++ cs /\ wire w' = wire w ++ evs
        /\ forallb (fun c => negb (is_send_call c)) cs = true
        /\ forallb (fun e => negb (is_send_wire e)) evs = true)
  /\ (Double.ltb (Double.of_ether B)
        (Double.twice (Double.of_ether (faucet_amount config))) = false ->
      (exists cs, calls w' = calls w ++ cs
                  /\ In (ChainSendTokens (address req) (requestId req)) cs)
      /\ r = match send_result config w (address req) with
             | Ret tx => Ret (response_of tx (clock w))
             | Throw e => Throw e
             end)
  /\ (faucet_amount config * 2 <= B ->
      Double.ltb (Double.of_ether B)
        (Double.twice (Double.of_ether (faucet_amount config))) = false)
  /\ (Double.ltb (Double.of_ether B)
        (Double.twice (Double.of_ether (faucet_amount config))) = true ->
      B < faucet_amount config * 2).
Proof.
  intros Hadm HB. cbv zeta.
  change (Double.ltb (Double.of_ether B)
            (Double.twice (Double.of_ether (faucet_amount config))))
    with (balance_too_low config B).
  assert (Henough : faucet_amount config * 2 <= B ->
                    balance_too_low config B = false)
    by apply balance_enough.
  split; [|split; [|split; [exact Henough|]]].
  3:{ intros Hlow. destruct (Z.lt_ge_cases B (faucet_amount config * 2)) as [|Hge];
        [assumption|]. rewrite (Henough Hge) in Hlow. discriminate Hlow. }
  all: rewrite processRequest_stages; unfold bind; rewrite Hadm.
  all: pose proof (admission_cases _ _ _ _ _ Hadm)
    as (Henv & _ & _ & (evs1 & Hw1 & Hns1) & Hcases).
  all: assert (Hc1 : calls w3 = calls w ++ admission_calls config req)
    by (destruct Hcases as [(_ & [=] & _)
          |(_ & [([=] & _)|[((m & [=]) & _)|[((h & [=]) & _)|(_ & Hc)]]])];
        exact Hc).
  all: clear Hcases.
  all: destruct (getBalance w3) as [ob wb] eqn:Hb.
  all: apply getBalance_spec in Hb as (_ & _ & _ & _ & Hob & _).
  all: cbn [fst] in HB; subst ob.
  all: destruct (payout config req w3) as [o2 w2] eqn:Hpay; cbn [fst snd].
  all: pose proof (payout_cases _ _ _ _ _ Hpay) as (_ & _ & Hp).
  all: destruct (treasury_balance w3) as [b|]; [|discriminate HB].
  all: injection HB as ->.
  all: intros HBA; rewrite HBA in Hp.
  - destruct Hp as (-> & Hc2 & _ & evs2 & Hw2 & Hns2).
    split; [reflexivity|].
    exists (admission_calls config req ++ [ChainGetBalance]), (evs1 ++ evs2).
    split; [rewrite Hc2, Hc1, <- app_assoc; reflexivity|].
    split; [rewrite Hw2, Hw1, <- app_assoc; reflexivity|].
    split; [reflexivity | now apply forallb_app_true].
  - rewrite (send_result_env config w w3 _ Henv) in Hp.
    rewrite (proj1 Henv) in Hp.
    destruct (send_result config w (address req)) as [tx|e].
    + destruct Hp as (-> & w5 & _ & _ & _ & Hc5 & Hu).
      split; [|reflexivity].
      apply updateStats_cases in Hu as (_ & _ & _ & ok0 & _ & Hu).
      destruct (stats_read _) as [st|].
      * destruct Hu as (ok1 & ok2 & _ & Hc2 & _).
        eexists. split; [rewrite Hc2, Hc5, Hc1, <- !app_assoc; reflexivity|].
        apply in_or_app. right. cbn. auto.
      * destruct Hu as (Hc2 & _).
        eexists. split; [rewrite Hc2, Hc5, Hc1, <- !app_assoc; reflexivity|].
        apply in_or_app. right. cbn. auto.
    + destruct Hp as (-> & _ & Hc2). split; [|reflexivity].
      eexists. split; [rewrite Hc2, Hc1, <- !app_assoc; reflexivity|].
      apply in_or_app. right. cbn. auto.
Qed.

(** C6. checkRateLimit fails open: for every key, limit and window, and
    whatever the database holds, if one of the Redis commands of the call
    fails (it is lost, or answered by an error), the call returns
    allowed = true with remaining = limit, and the database is as it was. *)
Theorem checkRateLimit_fails_open
    (config : Config) (key : string) (limit windowMs : Z) (w : World) :
  let r := fst (checkRateLimit config key limit windowMs w) in
  let w' := snd (checkRateLimit config key limit windowMs w) in
  forall evs,
    wire w' = wire w ++ evs ->
    (exists cmd, In (WRedis cmd false) evs) ->
    r = Ret (mkRateLimit true (JS.Num limit) (clock w + windowMs))
    /\ db w' = db w.
Proof.
  cbv zeta.
  destruct (checkRateLimit config key limit windowMs w) as [r w'] eqn:H.
  cbn [fst snd]. intros evs Hevs (cmd & Hin).
  apply checkRateLimit_cases in H as (_ & _ & _ & Hcases).
  destruct Hcases as
    [(-> & Hdb & _)
    |[(_ & _ & _ & _ & Hw)|[(_ & _ & _ & _ & Hw)|(_ & _ & _ & _ & Hw)]]].
  - split; [reflexivity | exact Hdb].
  - rewrite Hw in Hevs. apply app_inv_head in Hevs. subst evs.
    cbn in Hin. destruct Hin as [[=]|[[=]|[]]].
  - rewrite Hw in Hevs. apply app_inv_head in Hevs. subst evs.
    cbn in Hin. destruct Hin as [[=]|[[=]|[]]].
  - rewrite Hw in Hevs. apply app_inv_head in Hevs. subst evs.
    cbn in Hin. destruct Hin as [[=]|[[=]|[]]].
Qed.

(** C7, as the code has it.  verify never throws, and:
    (i) with captcha disabled it returns success = true for every token,
    missing or not, without a call to the provider;
    (ii) enabled, with a missing or empty token, it returns success = false
    with errorCodes = ['missing-input-response'] without a call to the
    provider;
    (iii) enabled, with a token, it posts once to the provider; when that
    call is rejected (network error, timeout, status outside 2xx) or
    resolves with a null body, it returns success = false with
    errorCodes = ['verification-error']; when it resolves with a body that
    is not an object, it returns the fields of that body, which are all
    undefined: a success that is not true, and no errorCodes. *)
Theorem verify_contract
    (config : Config) (token ip : option string) (w : World) :
  let r := fst (verify config token ip w) in
  let w' := snd (verify config token ip w) in
  (exists result, r = Ret result)
  /\ (captcha_enabled config = false ->
      r = Ret captcha_passed /\ success captcha_passed = JBool true
      /\ wire w' = wire w)
  /\ (captcha_enabled config = true -> JS.falsy token = true ->
      r = Ret (mkCaptchaResult (JBool false) None None
                 (Some ["missing-input-response"]) None None)
      /\ wire w' = wire w)
  /\ (captcha_enabled config = true ->
      forall tok, token = Some tok -> tok <> "" ->
        wire w' = wire w ++ [WHttpPost tok (remoteip ip)]
        /\ (siteverify w tok (remoteip ip) = Rejects
            \/ siteverify w tok (remoteip ip) = Resolves DataNull ->
            r = Ret (mkCaptchaResult (JBool false) None None
                       (Some ["verification-error"]) None None))
        /\ (forall body,
              siteverify w tok (remoteip ip) = Resolves (DataText body) ->
              r = Ret (mkCaptchaResult JUndefined None None None None None)
              /\ truthy JUndefined = false)).
Proof.
  cbv zeta. destruct (verify config token ip w) as [r w'] eqn:H.
  cbn [fst snd]. apply verify_cases in H as (_ & _ & _ & _ & Hcases).
  destruct Hcases as
    [(Hen & -> & Hw)|[(Hen & Hf & -> & Hw)|(Hen & t & -> & Hf & Hw & ->)]].
  - split; [eauto|]. split; [auto|]. split; intros; congruence.
  - split; [eauto|]. split; [congruence|]. split; [auto|].
    intros _ tok -> Hne. destruct tok; [congruence | discriminate Hf].
  - split; [eauto|]. split; [congruence|]. split; [congruence|].
    intros _ tok [= <-] Hne. split; [exact Hw|]. split.
    + intros [-> | ->]; reflexivity.
    + intros body ->. split; reflexivity.
Qed.

(** ** Letter case *)

Lemma code_range (c : ascii) : 0 <= JS.code c < 256.
Proof.
  unfold JS.code. pose proof (N_ascii_bounded c) as H. lia.
Qed.

Lemma lower_of_upper (c d : ascii) :
  JS.is_upper c = true -> JS.code d = JS.code c + 32 ->
  JS.lower_char c = d /\ JS.lower_char d = d.
Proof.
  intros Hu Hd. unfold JS.lower_char. rewrite Hu.
  assert (Hn : N_of_ascii d = (N_of_ascii c + 32)%N) by (unfold JS.code in Hd; lia).
  split.
  - rewrite <- Hn. apply ascii_N_embedding.
  - assert (Hl : JS.is_upper d = false); [|now rewrite Hl].
    unfold JS.is_upper in *. cbv zeta in *. rewrite Hd.
    pose proof (code_range c).
    repeat match goal with
           | H : context [?a <=? ?b] |- _ => destruct (Z.leb_spec a b)
           | H : context [?a =? ?b] |- _ => destruct (Z.eqb_spec a b)
           | |- context [?a <=? ?b] => destruct (Z.leb_spec a b)
           | |- context [?a =? ?b] => destruct (Z.eqb_spec a b)
           end; cbn in *; try reflexivity; try discriminate; lia.
Qed.

Lemma lower_char_same_letter (c d : ascii) :
  same_letter c d -> JS.lower_char c = JS.lower_char d.
Proof.
  intros [-> | [(Hu & Hd) | (Hu & Hd)]]; [reflexivity| |].
  - destruct (lower_of_upper c d Hu Hd) as (-> & ->). reflexivity.
  - destruct (lower_of_upper d c Hu Hd) as (-> & ->). reflexivity.
Qed.

Lemma toLowerCase_case_variant (a b : string) :
  case_variant a b -> JS.toLowerCase a = JS.toLowerCase b.
Proof.
  induction 1 as [|c d s t Hcd _ IH]; [reflexivity|].
  cbn [JS.toLowerCase]. rewrite IH. f_equal. now apply lower_char_same_letter.
Qed.


(** ** The stats document *)

Section StatsDocument.
Variable config : Config.

Lemma prefixed_inj (a b : string) :
  prefixed config a = prefixed config b -> a = b.
Proof. unfold prefixed. apply (inj (String.app (redis_keyPrefix config))). Qed.

Lemma stats_key_not_request (txHash : string) :
  prefixed config STATS_KEY <> prefixed config ("request:" +:+ txHash).
Proof. intros H. apply prefixed_inj in H. discriminate H. Qed.


Lemma lookup_live_frame (w w' : World) (key : string) :
  clock w' = clock w ->
  db w' !! prefixed config key = db w !! prefixed config key ->
  lookup_live config w' key = lookup_live config w key.
Proof. intros Hc Hd. unfold lookup_live. now rewrite Hc, Hd. Qed.

Lemma stored_stats_frame (w w' : World) :
  lookup_live config w' STATS_KEY = lookup_live config w STATS_KEY ->
  stored_stats config w' = stored_stats config w.
Proof. intros H. unfold stored_stats. now rewrite H. Qed.

Lemma stats_read_stored (w : World) (st : Stats) :
  stats_read (current config STATS_KEY w) = Some st ->
  st = stored_stats config w.
Proof.
  unfold current, stored_stats.
  destruct (lookup_live config w STATS_KEY) as [[[[|c s]|st'|rq] ex]|];
    cbn; congruence.
Qed.

Lemma stored_stats_written (w w' : World) (st : Stats) (e : Entry) (k : string) (ok : bool) :
  clock w' = clock w ->
  k <> prefixed config STATS_KEY ->
  db w' = insert_if ok k e
            (<[prefixed config STATS_KEY := mkEntry (StatsJson st) None]> (db w)) ->
  stored_stats config w' = st.
Proof.
  intros Hc Hk Hdb. unfold stored_stats, lookup_live. rewrite Hdb.
  assert (Hl : insert_if ok k e
                 (<[prefixed config STATS_KEY := mkEntry (StatsJson st) None]> (db w))
               !! prefixed config STATS_KEY
               = Some (mkEntry (StatsJson st) None)).
  { destruct ok; cbn [insert_if].
    - rewrite lookup_insert_ne by exact Hk. apply lookup_insert_eq.
    - apply lookup_insert_eq. }
  rewrite Hl. reflexivity.
Qed.

Lemma stored_stats_kept (w w' : World) (e : Entry) (k : string) (ok : bool) :
  clock w' = clock w ->
  k <> prefixed config STATS_KEY ->
  db w' = insert_if ok k e (db w) ->
  stored_stats config w' = stored_stats config w.
Proof.
  intros Hc Hk Hdb. apply stored_stats_frame, lookup_live_frame; [exact Hc|].
  rewrite Hdb. destruct ok; cbn [insert_if]; [|reflexivity].
  now apply lookup_insert_ne.
Qed.

(** What updateStats does to the stats document. *)
Lemma updateStats_stats (address txHash : string) (w w1 : World) r :
  updateStats config address txHash w = (r, w1) ->
  (stored_stats config w1 = stored_stats config w
   \/ stored_stats config w1 = bump_stats config (clock w) (stored_stats config w)
   \/ stored_stats config w1 = bump_stats config (clock w) default_stats)
  /\ (outages w = [] -> stats_read (current config STATS_KEY w) <> None ->
      stored_stats config w1 = bump_stats config (clock w) (stored_stats config w)).
Proof.
  intros H. apply updateStats_cases in H as (_ & Henv & _ & ok0 & Hok0 & H).
  assert (Hclock : clock w1 = clock w) by apply Henv.
  pose proof (stats_key_not_request txHash) as Hne.
  destruct (stats_read (if ok0 then current config STATS_KEY w else None))
    as [st|] eqn:Hread.
  - cbv zeta in H. destruct H as (ok1 & ok2 & Hok & _ & _ & Hdb).
    assert (Hst : st = stored_stats config w \/ st = default_stats).
    { destruct ok0; [left; now apply stats_read_stored | right].
      cbn in Hread. congruence. }
    split.
    + destruct ok1; cbn [insert_if] in Hdb.
      * right. rewrite (stored_stats_written w w1 _ _ _ _ Hclock (not_eq_sym Hne) Hdb).
        destruct Hst as [-> | ->]; auto.
      * left. exact (stored_stats_kept w w1 _ _ _ Hclock (not_eq_sym Hne) Hdb).
    + intros Ho _. destruct (Hok Ho) as (-> & ->). cbn [insert_if] in Hdb.
      rewrite (Hok0 Ho) in Hread. apply stats_read_stored in Hread. subst st.
      exact (stored_stats_written w w1 _ _ _ true Hclock (not_eq_sym Hne) Hdb).
  - destruct H as (_ & _ & Hdb). split.
    + left. apply stored_stats_frame, lookup_live_frame; [exact Hclock|].
      now rewrite Hdb.
    + intros Ho Hsome. rewrite (Hok0 Ho) in Hread. contradiction.
Qed.

End StatsDocument.



(** C10.  A failure of the stats update does not fail the request.
    updateStats never throws, whatever Redis does; when the three commands
    of the update are lost, the database is left as it was.  So a request
    that passed the admission checks, found the treasury funded and had its
    transfer confirmed returns the successful response under every outage
    schedule, and when Redis goes down after the admission checks the
    stats document and the transaction record stay as they were. *)
Theorem stats_failure_is_swallowed
    (config : Config) (req : FaucetRequest) (w : World) :
  (forall address txHash w0,
      fst (updateStats config address txHash w0) = Ret tt)
  /\ (forall address txHash w0 rest,
        outages w0 = true :: true :: true :: rest ->
        db (snd (updateStats config address txHash w0)) = db w0)
  /\ (forall w3 B tx,
        admission config req w = (Ret tt, w3) ->
        treasury_balance w = Some B -> faucet_amount config * 2 <= B ->
        send_result config w (address req) = Ret tx ->
        fst (processRequest config req w) = Ret (response_of tx (clock w))
        /\ (forall rest, outages w3 = true :: true :: true :: rest ->
              db (snd (processRequest config req w)) = db w3)).
Proof.
  assert (Hnever : forall address txHash w0,
             fst (updateStats config address txHash w0) = Ret tt).
  { intros a h w0. destruct (updateStats config a h w0) as [r w1] eqn:Hu.
    apply updateStats_cases in Hu as (-> & _). reflexivity. }
  assert (Hdown : forall address txHash w0 rest,
             outages w0 = true :: true :: true :: rest ->
             db (snd (updateStats config address txHash w0)) = db w0).
  { intros a h w0 rest Ho.
    unfold updateStats, redis_get, redis_set, redis_setex,
      client_get, client_set, client_setex, command.
    unfold bind, try_catch, modify, ret, Date_now.
    cbn. rewrite Ho. cbn. reflexivity. }
  split; [exact Hnever|]. split; [exact Hdown|].
  intros w3 B tx Hadm HB HBA Hsend.
  rewrite processRequest_stages. unfold bind. rewrite Hadm.
  pose proof (admission_cases _ _ _ _ _ Hadm) as (Henv & _).
  destruct (payout config req w3) as [o2 w2] eqn:Hpay. cbn [fst snd].
  pose proof (payout_cases _ _ _ _ _ Hpay) as (_ & _ & Hp).
  rewrite (treasury_balance_env _ _ Henv), HB in Hp.
  rewrite (balance_enough config B HBA) in Hp.
  rewrite (send_result_env config _ _ _ Henv), Hsend in Hp.
  destruct Hp as (-> & w5 & _ & Hdb5 & Ho5 & _ & Hu).
  split; [f_equal; f_equal; apply Henv|].
  intros rest Ho. rewrite <- Ho5 in Ho.
  specialize (Hdown (address req) (tx_hash tx) w5 rest Ho).
  rewrite Hu in Hdown. cbn [snd] in Hdown. congruence.
Qed.

(** ** The fixed-window counter *)

Section Counter.
Variable config : Config.
Variables (key : string) (limit windowMs : Z).



Lemma lookup_live_is_live (w : World) (e : Entry) :
  lookup_live config w key = Some e ->
  db w !! prefixed config key = Some e /\ live (clock w) e = true.
Proof.
  unfold lookup_live. destruct (db w !! prefixed config key) as [e'|]; [|discriminate].
  destruct (live (clock w) e') eqn:Hl; [|discriminate].
  intros [= <-]. auto.
Qed.





Lemma total_cons (d : N) (ds : list N) : total (d :: ds) = Z.of_N d + total ds.
Proof. unfold total. cbn [fold_right]. lia. Qed.

Lemma total_nonneg (ds : list N) : 0 <= total ds.
Proof. unfold total. lia. Qed.



End Counter.


(** ** One window of the counter *)

Section Window.
Variable config : Config.
Variables (key : string) (limit windowMs : Z).

(** From a counter at [k], the calls made before the key expires are
    allowed until the counter reaches the limit, and the next one is
    denied. *)
Lemma checks_counting (delays : list N) (w : World) (k texp : Z) :
  outages w = [] ->
  db w !! prefixed config key = Some (mkEntry (Text (JS.toString k)) (Some texp)) ->
  1 <= k <= limit -> limit <= 2 ^ 63 - 1 ->
  clock w + total delays < texp ->
  length delays = Z.to_nat (limit - k + 1) ->
  let run := checks config key limit windowMs delays w in
  map allowed (fst run) = repeat true (Z.to_nat (limit - k)) ++ [false]
  /\ outages (snd run) = []
  /\ db (snd run) !! prefixed config key
     = Some (mkEntry (Text (JS.toString limit)) (Some texp))
  /\ clock (snd run) = clock w + total delays.
Proof.
  revert w k. induction delays as [|d ds IH]; intros w k Ho Hdb Hk Hmax Ht Hlen;
    cbv zeta.
  - cbn [length] in Hlen. lia.
  - cbn [checks]. rewrite total_cons in Ht. pose proof (total_nonneg ds) as Hnn.
    set (e := mkEntry (Text (JS.toString k)) (Some texp)) in *.
    assert (Hl : lookup_live config (advance (Z.of_N d) w) key = Some e).
    { unfold lookup_live, advance. cbn [db clock with_clock]. rewrite Hdb.
      unfold live. cbn [expireAt e].
      destruct (Z.ltb_spec (clock w + Z.of_N d) texp); [reflexivity | lia]. }
    destruct (Z.eq_dec k limit) as [-> | Hne].
    + (* the counter is at the limit: this call is the denied one *)
      destruct (checkRateLimit_denied config key limit windowMs
                  (advance (Z.of_N d) w) e (JS.toString limit) limit Ho Hl
                  eq_refl (parseInt_toString limit) (Z.le_refl limit)) as [t ->].
      replace (limit - limit + 1) with 1 in Hlen by lia.
      destruct ds as [|d' ds']; [|cbn in Hlen; lia].
      cbn [checks fst snd map]. replace (limit - limit) with 0 by lia.
      rewrite total_cons. unfold total. cbn.
      repeat split; auto. lia.
    + rewrite (checkRateLimit_incr config key limit windowMs
                 (advance (Z.of_N d) w) e k Ho Hl eq_refl) by lia.
      set (w1 := log_wire _ _).
      assert (Hdb1 : db w1 !! prefixed config key
                     = Some (mkEntry (Text (JS.toString (k + 1))) (Some texp))).
      { unfold w1. cbn [db log_wire with_db]. apply lookup_insert_eq. }
      assert (Hclock : clock w1 = clock w + Z.of_N d) by reflexivity.
      specialize (IH w1 (k + 1) Ho Hdb1).
      rewrite Hclock in IH.
      assert (Hlen' : length ds = Z.to_nat (limit - (k + 1) + 1)).
      { cbn [length] in Hlen. lia. }
      specialize (IH ltac:(lia) Hmax ltac:(lia) Hlen'). cbv zeta in IH.
      destruct (checks config key limit windowMs ds w1) as [rs w2].
      cbn [fst snd map] in *. destruct IH as (Hmap & Ho2 & Hdb2 & Hc2).
      rewrite Hmap.
      replace (Z.to_nat (limit - k)) with (S (Z.to_nat (limit - (k + 1)))) by lia.
      rewrite total_cons.
      repeat split; auto. lia.
Qed.

End Window.

(** C3, as the code has it: for a limit N with 1 <= N (within the 64-bit
    range of a Redis counter) and a window of at least one second, with
    Redis answering.  Starting with no counter for the key, of N + 1
    sequential calls made before the time to live of the key
    (floor(W / 1000) seconds from the first call) has elapsed, the first N
    are allowed and the (N + 1)-th is denied; and the first call made once
    that time to live has elapsed is allowed again, with remaining = N - 1,
    and starts a new counter at 1. *)
Theorem rate_limit_window
    (config : Config) (key : string) (limit windowMs : Z)
    (delays : list N) (w : World) :
  1 <= limit <= 2 ^ 63 - 1 -> 1000 <= windowMs ->
  outages w = [] ->
  no_current (current config key w) = true ->
  length delays = Z.to_nat limit ->
  total delays < windowMs / 1000 * 1000 ->
  let run := checks config key limit windowMs (0%N :: delays) w in
  map allowed (fst run) = repeat true (Z.to_nat limit) ++ [false]
  /\ forall d : N,
       windowMs / 1000 * 1000 <= total delays + Z.of_N d ->
       let after := checkRateLimit config key limit windowMs
                      (advance (Z.of_N d) (snd run)) in
       fst after
         = Ret (mkRateLimit true (JS.Num (limit - 1))
                  (clock w + total delays + Z.of_N d + windowMs))
       /\ stored_count config (snd after) key = Some (JS.Num 1).
Proof.
  intros Hlim Hwin Ho Hno Hlen Htot. cbv zeta.
  cbn [checks].
  assert (Hadv : advance (Z.of_N 0) w = w).
  { unfold advance. cbn. rewrite Z.add_0_r. now destruct w. }
  rewrite Hadv.
  rewrite (checkRateLimit_first config key limit windowMs w Ho Hno Hwin).
  set (w1 := log_wire _ _).
  set (texp := clock w + windowMs / 1000 * 1000).
  assert (Hdb1 : db w1 !! prefixed config key
                 = Some (mkEntry (Text (JS.toString 1)) (Some texp))).
  { unfold w1. cbn [db log_wire with_db]. apply lookup_insert_eq. }
  assert (Hclock1 : clock w1 = clock w) by reflexivity.
  pose proof (checks_counting config key limit windowMs delays w1 1 texp
                Ho Hdb1 ltac:(lia) ltac:(lia)) as Hrun.
  rewrite Hclock1 in Hrun.
  specialize (Hrun ltac:(unfold texp; lia)
                   ltac:(rewrite Hlen; f_equal; lia)).
  cbv zeta in Hrun.
  destruct (checks config key limit windowMs delays w1) as [rs w2].
  cbn [fst snd map] in *. destruct Hrun as (Hmap & Ho2 & Hdb2 & Hc2).
  split.
  - rewrite Hmap.
    replace (Z.to_nat limit) with (S (Z.to_nat (limit - 1))) by lia.
    reflexivity.
  - intros d Hd.
    assert (Hno2 : no_current (current config key (advance (Z.of_N d) w2)) = true).
    { unfold current, lookup_live, advance. cbn [db clock with_clock].
      rewrite Hdb2. unfold live. cbn [expireAt].
      destruct (Z.ltb_spec (clock w2 + Z.of_N d) texp); [unfold texp in *; lia|].
      reflexivity. }
    rewrite (checkRateLimit_first config key limit windowMs
               (advance (Z.of_N d) w2) Ho2 Hno2 Hwin).
    cbn [fst snd]. split.
    + unfold advance. cbn [clock with_clock]. rewrite Hc2. reflexivity.
    + unfold stored_count, lookup_live. cbn [db clock log_wire with_db log_call].
      rewrite lookup_insert_eq. unfold live. cbn [expireAt value].
      match goal with
      | |- context [?a <? ?b] => destruct (Z.ltb_spec a b)
      end.
      * reflexivity.
      * assert (0 < windowMs / 1000) by (apply Z.div_str_pos; lia). lia.
Qed.

(** ** The cooldown query *)

Section Cooldown.
Variable config : Config.

Lemma checkCooldown_world (address : string) (w : World) :
  snd (checkCooldown config address w)
  = snd (checkRateLimit config (ADDRESS_KEY_PREFIX +:+ JS.toLowerCase address)
           (rateLimit_address_maxRequests config)
           (rateLimit_address_windowMs config) w).
Proof.
  unfold checkCooldown, bind. cbv zeta.
  destruct (checkRateLimit config _ _ _ w) as [r w1] eqn:H.
  apply checkRateLimit_frame in H as (rl & evs & -> & _).
  destruct (allowed rl); reflexivity.
Qed.

Lemma stored_count_none (w : World) (key : string) :
  stored_count config w key = None -> lookup_live config w key = None.
Proof. unfold stored_count. now destruct (lookup_live config w key). Qed.

Lemma verify_disabled (token ip : option string) (w : World) :
  captcha_enabled config = false ->
  verify config token ip w = (Ret captcha_passed, log_call (CaptchaVerify token ip) w).
Proof.
  intros H. unfold verify, bind, modify, ret. cbv beta iota. now rewrite H.
Qed.

Lemma ip_key_not_address_key (req : FaucetRequest) :
  prefixed config (address_key req) <> prefixed config (ip_key req).
Proof. intros H. apply prefixed_inj in H. discriminate H. Qed.

(** After a counter at 1 has been stored for the address, with a limit of
    1, a request for the address from a fresh IP is rate limited. *)
Lemma processRequest_after_first (req : FaucetRequest) (w : World) (texp : Z) :
  outages w = [] ->
  isValidAddress (address req) = true ->
  captcha_enabled config = false ->
  rateLimit_address_maxRequests config = 1 ->
  1000 <= rateLimit_ip_windowMs config ->
  lookup_live config w (ip_key req) = None ->
  db w !! prefixed config (address_key req) = Some (mkEntry (Text "1") (Some texp)) ->
  clock w < texp ->
  exists hours,
    fst (processRequest config req w) = Throw (AddressRateLimitExceeded hours).
Proof.
  intros Ho Hvalid Hen Hlim Hipw Hip Haddr Hlive.
  rewrite processRequest_stages. unfold bind, admission. rewrite Hvalid.
  cbn [negb]. unfold bind. rewrite verify_disabled by exact Hen.
  cbn [success captcha_passed truthy negb].
  unfold checkIPRateLimit. cbv zeta. fold (ip_key req).
  set (w1 := log_call _ w).
  rewrite (checkRateLimit_first config (ip_key req) _ _ w1 Ho);
    [|unfold current; change (lookup_live config w1 (ip_key req))
                        with (lookup_live config w (ip_key req));
      now rewrite Hip | exact Hipw].
  cbn [allowed negb].
  unfold checkAddressRateLimit. cbv zeta. fold (address_key req).
  set (w2 := log_wire _ _).
  assert (Hl : lookup_live config w2 (address_key req)
               = Some (mkEntry (Text "1") (Some texp))).
  { unfold lookup_live, w2. cbn [db clock log_wire with_db log_call w1].
    rewrite lookup_insert_ne by (apply not_eq_sym, ip_key_not_address_key).
    rewrite Haddr. unfold live. cbn [expireAt].
    destruct (Z.ltb_spec (clock w) texp); [reflexivity | lia]. }
  destruct (checkRateLimit_denied config (address_key req)
              (rateLimit_address_maxRequests config)
              (rateLimit_address_windowMs config) w2 _ "1" 1 Ho Hl
              eq_refl eq_refl ltac:(lia)) as [t ->].
  cbn [allowed negb]. unfold Date_now, throw. cbn [fst]. eauto.
Qed.

End Cooldown.

(** C8.  A cooldown query is not free of effects.  With Redis answering:
    for an address without a counter (and a window of at least one second)
    checkCooldown stores the counter of the address with count 1; for a
    counter below the limit it increments it.  So with the default address
    limit of 1 (captcha off, as in the defaults), after a single cooldown
    query for a fresh address the next processRequest for that address,
    valid and from a fresh IP, made within the time to live of the
    counter, fails with the address rate-limit error. *)
Theorem cooldown_query_consumes_budget
    (config : Config) (addr : string) (w : World) :
  outages w = [] ->
  let key := ADDRESS_KEY_PREFIX +:+ JS.toLowerCase addr in
  let w1 := snd (checkCooldown config addr w) in
  (1000 <= rateLimit_address_windowMs config ->
   stored_count config w key = None ->
   stored_count config w1 key = Some (JS.Num 1))
  /\ (forall e c,
        lookup_live config w key = Some e ->
        value e = Text (JS.toString c) ->
        c < rateLimit_address_maxRequests config ->
        - 2 ^ 63 <= c < 2 ^ 63 - 1 ->
        stored_count config w1 key = Some (JS.Num (c + 1)))
  /\ (forall (req : FaucetRequest) (d : N),
        rateLimit_address_maxRequests config = 1 ->
        captcha_enabled config = false ->
        1000 <= rateLimit_address_windowMs config ->
        1000 <= rateLimit_ip_windowMs config ->
        address req = addr ->
        isValidAddress addr = true ->
        stored_count config w key = None ->
        stored_count config w (ip_key req) = None ->
        Z.of_N d < rateLimit_address_windowMs config / 1000 * 1000 ->
        exists hours,
          fst (processRequest config req (advance (Z.of_N d) w1))
          = Throw (AddressRateLimitExceeded hours)).
Proof.
  intros Ho. cbv zeta. rewrite checkCooldown_world.
  set (key := ADDRESS_KEY_PREFIX +:+ JS.toLowerCase addr).
  assert (Hfirst : 1000 <= rateLimit_address_windowMs config ->
                   stored_count config w key = None ->
                   no_current (current config key w) = true).
  { intros _ Hnone. apply stored_count_none in Hnone. unfold current.
    now rewrite Hnone. }
  split; [|split].
  - intros Hwin Hnone.
    rewrite (checkRateLimit_first config key _ _ w Ho (Hfirst Hwin Hnone) Hwin).
    cbn [snd]. unfold stored_count, lookup_live.
    cbn [db clock log_wire with_db log_call].
    rewrite lookup_insert_eq. unfold live. cbn [expireAt value].
    assert (0 < rateLimit_address_windowMs config / 1000)
      by (apply Z.div_str_pos; lia).
    match goal with
    | |- context [?a <? ?b] => destruct (Z.ltb_spec a b); [reflexivity | lia]
    end.
  - intros e c He Hv Hc Hr.
    rewrite (checkRateLimit_incr config key _ _ w e c Ho He Hv Hc Hr).
    cbn [snd]. unfold stored_count, lookup_live.
    cbn [db clock log_wire with_db log_call].
    rewrite lookup_insert_eq.
    apply lookup_live_is_live in He as (_ & Hlive).
    unfold live in *. cbn [expireAt value]. rewrite Hlive.
    cbn [parse_current value]. now rewrite parseInt_toString.
  - intros req d Hlim Hen Hwin Hipw Hreq Hvalid Hnone Hip Hd.
    rewrite (checkRateLimit_first config key _ _ w Ho (Hfirst Hwin Hnone) Hwin).
    cbn [snd]. set (w1 := log_wire _ _).
    apply (processRequest_after_first config req (advance (Z.of_N d) w1)
             (clock w + rateLimit_address_windowMs config / 1000 * 1000)).
    + exact Ho.
    + now rewrite Hreq.
    + exact Hen.
    + exact Hlim.
    + exact Hipw.
    + apply stored_count_none in Hip.
      unfold lookup_live, advance, w1 in *.
      cbn [db clock log_wire with_db log_call with_clock].
      rewrite lookup_insert_ne.
      2:{ unfold key. rewrite <- Hreq. apply ip_key_not_address_key. }
      destruct (db w !! prefixed config (ip_key req)) as [e|]; [|reflexivity].
      unfold live in *. destruct (expireAt e) as [t|]; [|discriminate Hip].
      destruct (Z.ltb_spec (clock w) t); [discriminate Hip|].
      destruct (Z.ltb_spec (clock w + Z.of_N d) t); [lia | reflexivity].
    + unfold advance, w1. cbn [db clock log_wire with_db log_call with_clock].
      unfold address_key. rewrite Hreq. apply lookup_insert_eq.
    + unfold advance, w1. cbn [clock log_wire with_db log_call with_clock]. lia.
Qed.

(** ** Letter case *)

Lemma address_key_inj (a b : string) :
  ADDRESS_KEY_PREFIX +:+ a = ADDRESS_KEY_PREFIX +:+ b -> a = b.
Proof. apply (inj (String.app ADDRESS_KEY_PREFIX)). Qed.

(** C9.  The address-scoped rate limit does not depend on letter case.
    checkAddressRateLimit makes one call of checkRateLimit, for the key
    [address:] followed by the address in lower case, and touches no
    other key.  Two addresses that differ only in letter case have that
    key in common: they are answered alike in every world, and a request
    for one counts for the other: with Redis answering, after the first
    check for one of them the counter under the key of the other is 1,
    and with a limit of 1 the check for the other is then refused.  An
    address with another lower-case form has another key, which the
    check leaves as it was. *)
Theorem checkAddressRateLimit_case_insensitive
    (config : Config) (a b : string) (w : World) :
  case_variant a b ->
  let key := ADDRESS_KEY_PREFIX +:+ JS.toLowerCase a in
  let w1 := snd (checkAddressRateLimit config a w) in
  (calls w1
   = calls w ++ [RedisCheckRateLimit key (rateLimit_address_maxRequests config)
                   (rateLimit_address_windowMs config)]
   /\ forall k, k <> prefixed config key -> db w1 !! k = db w !! k)
  /\ ADDRESS_KEY_PREFIX +:+ JS.toLowerCase b = key
  /\ checkAddressRateLimit config b w = checkAddressRateLimit config a w
  /\ (outages w = [] -> 1000 <= rateLimit_address_windowMs config ->
      stored_count config w key = None ->
      stored_count config w1 (ADDRESS_KEY_PREFIX +:+ JS.toLowerCase b)
      = Some (JS.Num 1)
      /\ (rateLimit_address_maxRequests config <= 1 ->
          exists t,
            fst (checkAddressRateLimit config b w1)
            = Ret (mkRateLimit false (JS.Num 0) t)))
  /\ (forall c,
        JS.toLowerCase c <> JS.toLowerCase a ->
        db w1 !! prefixed config (ADDRESS_KEY_PREFIX +:+ JS.toLowerCase c)
        = db w !! prefixed config (ADDRESS_KEY_PREFIX +:+ JS.toLowerCase c)).
Proof.
  intros H. apply toLowerCase_case_variant in H. cbv zeta.
  unfold checkAddressRateLimit. cbv zeta. rewrite <- H.
  set (key := ADDRESS_KEY_PREFIX +:+ JS.toLowerCase a).
  set (limit := rateLimit_address_maxRequests config).
  set (windowMs := rateLimit_address_windowMs config).
  assert (Hframe : calls (snd (checkRateLimit config key limit windowMs w))
                   = calls w ++ [RedisCheckRateLimit key limit windowMs]
                   /\ forall k, k <> prefixed config key ->
                        db (snd (checkRateLimit config key limit windowMs w)) !! k
                        = db w !! k).
  { destruct (checkRateLimit config key limit windowMs w) as [r w1] eqn:E.
    apply checkRateLimit_frame in E as (rl & evs & _ & _ & Hc & _ & _ & _ & Hdb).
    auto. }
  split; [exact Hframe|]. split; [reflexivity|]. split; [reflexivity|].
  split.
  - intros Ho Hwin Hnone.
    assert (Hno : no_current (current config key w) = true).
    { apply stored_count_none in Hnone. unfold current. now rewrite Hnone. }
    rewrite (checkRateLimit_first config key limit windowMs w Ho Hno Hwin).
    cbn [snd]. set (w1 := log_wire _ _).
    assert (Hpos : 0 < windowMs / 1000) by (apply Z.div_str_pos; lia).
    assert (Hl : lookup_live config w1 key
                 = Some (mkEntry (Text "1")
                           (Some (clock w + windowMs / 1000 * 1000)))).
    { unfold lookup_live, w1. cbn [db clock log_wire with_db log_call].
      rewrite lookup_insert_eq. unfold live. cbn [expireAt].
      destruct (Z.ltb_spec (clock w) (clock w + windowMs / 1000 * 1000));
        [reflexivity | lia]. }
    split.
    + unfold stored_count. rewrite Hl. reflexivity.
    + intros Hlim.
      destruct (checkRateLimit_denied config key limit windowMs w1 _ "1" 1
                  Ho Hl eq_refl eq_refl Hlim) as (t & E).
      exists t. rewrite E. reflexivity.
  - intros c Hc. apply Hframe. intros E.
    apply prefixed_inj, address_key_inj in E. contradiction.
Qed.

(** * The claims on concrete runs *)

Lemma processRequest_step_order_witness :
  fst (processRequest default_config good_request poor_world)
    = Throw FaucetBalanceTooLow
  /\ snd (processRequest default_config good_request poor_world)
     = snd (balance_step default_config good_request poor_world).
Proof.
  destruct (proj1 (proj2 (processRequest_step_order default_config good_request
                            poor_world)) eq_refl)
    as (c & Hc & _ & H2).
  vm_compute in Hc. injection Hc as <-.
  destruct (H2 eq_refl) as (rl & Hrl & _ & H3).
  vm_compute in Hrl. injection Hrl as <-.
  destruct (H3 eq_refl) as (rl' & Hrl' & _ & H4).
  vm_compute in Hrl'. injection Hrl' as <-.
  specialize (H4 eq_refl).
  assert (E1 : fst (balance_step default_config good_request poor_world)
               = Ret (15 * 10 ^ 18)) by (vm_compute; reflexivity).
  rewrite E1 in H4.
  assert (E2 : balance_too_low default_config (15 * 10 ^ 18) = true)
    by (vm_compute; reflexivity).
  rewrite E2 in H4. exact H4.
Defined.



(** With a limit of 0 the first call, which is the (0 + 1)-th, is
    allowed. *)
Lemma limit_zero_first_call_allowed :
  map allowed
    (fst (checks default_config "address:0xabc" 0 86400000 [0%N] fresh_world))
  = [true].
Proof. vm_compute. reflexivity. Qed.

Lemma rate_limit_window_witness :
  map allowed
    (fst (checks default_config "address:0xabc" 2 86400000
            [0; 1000; 2000]%N fresh_world))
  = [true; true; false]
  /\ stored_count default_config
       (snd (checkRateLimit default_config "address:0xabc" 2 86400000
               (advance 86400000
                  (snd (checks default_config "address:0xabc" 2 86400000
                          [0; 1000; 2000]%N fresh_world)))))
       "address:0xabc"
     = Some (JS.Num 1).
Proof.
  pose proof (rate_limit_window default_config "address:0xabc" 2 86400000
                [1000; 2000]%N fresh_world) as H.
  cbv zeta in H.
  destruct H as (Hrun & Hafter); [lia | lia | reflexivity | reflexivity
                                  | reflexivity | vm_compute; reflexivity |].
  split; [exact Hrun|].
  apply (Hafter 86400000%N). vm_compute. discriminate.
Defined.

(** A balance one wei short of twice the amount reads as the same number
    as twice the amount: the request is served. *)
Lemma balance_guard_one_wei_short :
  let B := 20 * 10 ^ 18 - 1 in
  fst (getBalance (snd (admission default_config good_request short_world)))
  = Ret B
  /\ B < faucet_amount default_config * 2
  /\ fst (processRequest default_config good_request short_world)
     = Ret (mkResponse "0x5e7d" alice (10 * 10 ^ 18) 1700000000000)
  /\ In (ChainSendTokens alice "req_1")
       (calls (snd (processRequest default_config good_request short_world))).
Proof.
  cbv zeta. split; [vm_compute; reflexivity|]. split; [vm_compute; reflexivity|].
  split; [vm_compute; reflexivity|].
  vm_compute. tauto.
Qed.

Lemma balance_guard_witness :
  fst (processRequest default_config good_request poor_world)
  = Throw FaucetBalanceTooLow.
Proof.
  apply (balance_guard default_config good_request poor_world
           (snd (admission default_config good_request poor_world))
           (15 * 10 ^ 18)).
  - vm_compute. reflexivity.
  - vm_compute. reflexivity.
  - vm_compute. reflexivity.
Defined.



Lemma checkRateLimit_fails_open_witness :
  fst (checkRateLimit default_config "ip:203.0.113.7" 5 3600000 down_world)
  = Ret (mkRateLimit true (JS.Num 5) (1700000000000 + 3600000)).
Proof.
  apply (checkRateLimit_fails_open default_config "ip:203.0.113.7" 5 3600000
           down_world [WRedis (GET "ip:203.0.113.7") false]).
  - vm_compute. reflexivity.
  - exists (GET "ip:203.0.113.7"). left. reflexivity.
Defined.

(** A status 200 with a body that is not JSON: verify returns an undefined
    success and no error code, not success = false with
    ['verification-error']. *)
Lemma verify_malformed_body :
  let r := fst (verify captcha_config (Some "token") (Some "203.0.113.7") html_world) in
  r = Ret (mkCaptchaResult JUndefined None None None None None)
  /\ r <> Ret (mkCaptchaResult (JBool false) None None
                 (Some ["verification-error"]) None None).
Proof.
  cbv zeta. split; [vm_compute; reflexivity|].
  replace (fst (verify captcha_config (Some "token") (Some "203.0.113.7") html_world))
    with (Ret (mkCaptchaResult JUndefined None None None None None))
    by (vm_compute; reflexivity).
  discriminate.
Qed.

Lemma verify_contract_witness :
  fst (verify captcha_config None (Some "203.0.113.7") fresh_world)
  = Ret (mkCaptchaResult (JBool false) None None
           (Some ["missing-input-response"]) None None)
  /\ wire (snd (verify captcha_config None (Some "203.0.113.7") fresh_world))
     = wire fresh_world.
Proof.
  apply (proj1 (proj2 (proj2 (verify_contract captcha_config None
                                (Some "203.0.113.7") fresh_world))));
    reflexivity.
Defined.

Lemma cooldown_query_consumes_budget_witness :
  exists hours,
    fst (processRequest default_config good_request
           (advance 1000 (snd (checkCooldown default_config alice fresh_world))))
    = Throw (AddressRateLimitExceeded hours).
Proof.
  apply (proj2 (proj2 (cooldown_query_consumes_budget default_config alice
                         fresh_world eq_refl))
           good_request 1000%N);
    try reflexivity; try (vm_compute; reflexivity);
    vm_compute; discriminate.
Defined.

Lemma alice_case_variant : case_variant alice alice_lower.
Proof.
  unfold alice, alice_lower.
  repeat (apply case_variant_cons;
          [first [left; reflexivity | right; left; split; reflexivity]|]).
  apply case_variant_nil.
Defined.

Lemma checkAddressRateLimit_case_insensitive_witness :
  stored_count default_config
    (snd (checkAddressRateLimit default_config alice fresh_world))
    ("address:" +:+ alice_lower)
  = Some (JS.Num 1)
  /\ exists t,
       fst (checkAddressRateLimit default_config alice_lower
              (snd (checkAddressRateLimit default_config alice fresh_world)))
       = Ret (mkRateLimit false (JS.Num 0) t).
Proof.
  destruct (checkAddressRateLimit_case_insensitive default_config alice
              alice_lower fresh_world alice_case_variant)
    as (_ & _ & _ & H & _).
  destruct (H eq_refl ltac:(vm_compute; discriminate) eq_refl) as (H1 & H2).
  split; [exact H1|]. apply H2. vm_compute. discriminate.
Defined.

Lemma stats_failure_is_swallowed_witness :
  fst (processRequest default_config good_request flaky_world)
    = Ret (mkResponse "0x5e7d" alice (10 * 10 ^ 18) 1700000000000)
  /\ stored_stats default_config
       (snd (processRequest default_config good_request flaky_world))
     = default_stats.
Proof.
  destruct (proj2 (proj2 (stats_failure_is_swallowed default_config good_request
                            flaky_world))
              (snd (admission default_config good_request flaky_world))
              (1000 * 10 ^ 18)
              (mkTxResult "0x5e7d" "0xFa0ce7" alice (10 * 10 ^ 18) 21000))
    as (Hr & Hdb).
  - vm_compute. reflexivity.
  - reflexivity.
  - vm_compute. discriminate.
  - reflexivity.
  - split; [exact Hr|]. vm_compute. reflexivity.
Defined.

(** * The rest of the services: properties *)

(** ** RedisService *)

Section MoreRedisFacts.
Variable config : Config.

Lemma request_up {A} exec (w : World) :
  outages w = [] ->
  @request A exec w =
    match exec w with
    | (Ret a, d) => (Ret a, with_db d w)
    | (Throw e, _) => (Throw e, w)
    end.
Proof.
  intros H. unfold request. rewrite H. cbv iota beta.
  replace (with_outages [] w) with w
    by (rewrite <- H; symmetry; apply with_outages_id).
  reflexivity.
Qed.

Lemma request_lost {A} exec (w : World) (rest : list bool) :
  outages w = true :: rest ->
  @request A exec w = (Throw RedisError, with_outages rest w).
Proof. intros H. unfold request. now rewrite H. Qed.

Lemma command_lost {A} cmd exec (w : World) (rest : list bool) :
  outages w = true :: rest ->
  @command A cmd exec w
  = (Throw RedisError, log_wire (WRedis cmd false) (with_outages rest w)).
Proof. intros H. unfold command. now rewrite H. Qed.

Lemma try_catch_returns {A} (m : M A) (x : A) (w : World) :
  exists a, fst (try_catch m (fun _ => ret x) w) = Ret a.
Proof.
  unfold try_catch, ret. destruct (m w) as [[a|e] w1]; cbn; eauto.
Qed.

(** X1.  Nine methods of RedisService contain the failures of Redis:
    whatever Redis does, get, set, setex, del, incr, ttl, exists, mget
    and ping return a value and do not throw.  When the command is lost
    they return their fallback (null, false, false, false, 0, -1, false,
    the empty list, false) and leave the database as it was.  (close and
    flushAll, which have no try and catch, are not among them.) *)
Theorem redis_methods_contain_failures
    (key : string) (v : Stored) (seconds : Z) (ttl : option Z)
    (keys : list string) (w : World) :
  ((exists a, fst (redis_get config key w) = Ret a)
   /\ (exists a, fst (redis_set_ttl config key v ttl w) = Ret a)
   /\ (exists a, fst (redis_setex config key seconds v w) = Ret a)
   /\ (exists a, fst (redis_del config key w) = Ret a)
   /\ (exists a, fst (redis_incr config key w) = Ret a)
   /\ (exists a, fst (redis_ttl config key w) = Ret a)
   /\ (exists a, fst (redis_exists config key w) = Ret a)
   /\ (exists a, fst (redis_mget config keys w) = Ret a)
   /\ (exists a, fst (redis_ping w) = Ret a))
  /\ (forall rest, outages w = true :: rest ->
      (fst (redis_get config key w) = Ret None
       /\ db (snd (redis_get config key w)) = db w)
      /\ (fst (redis_set_ttl config key v ttl w) = Ret false
          /\ db (snd (redis_set_ttl config key v ttl w)) = db w)
      /\ (fst (redis_setex config key seconds v w) = Ret false
          /\ db (snd (redis_setex config key seconds v w)) = db w)
      /\ (fst (redis_del config key w) = Ret false
          /\ db (snd (redis_del config key w)) = db w)
      /\ (fst (redis_incr config key w) = Ret 0
          /\ db (snd (redis_incr config key w)) = db w)
      /\ (fst (redis_ttl config key w) = Ret (-1)
          /\ db (snd (redis_ttl config key w)) = db w)
      /\ (fst (redis_exists config key w) = Ret false
          /\ db (snd (redis_exists config key w)) = db w)
      /\ (fst (redis_mget config keys w) = Ret []
          /\ db (snd (redis_mget config keys w)) = db w)
      /\ (fst (redis_ping w) = Ret false
          /\ db (snd (redis_ping w)) = db w)).
Proof.
  split.
  - repeat split;
      try (unfold redis_get, redis_set_ttl, redis_setex, bind, modify;
           cbv beta iota; apply try_catch_returns);
      apply try_catch_returns.
  - intros rest Ho.
    unfold redis_get, redis_set_ttl, redis_setex, redis_del, redis_incr,
      redis_ttl, redis_exists, redis_mget, redis_ping.
    unfold client_get, client_set, client_setex, client_del, client_incr,
      client_ttl, client_exists, client_mget, client_ping, command, request.
    unfold bind, try_catch, modify, ret.
    destruct ttl as [t|]; [destruct (t =? 0)|];
      cbn; rewrite Ho; cbn; repeat split; reflexivity.
Qed.

Lemma redis_get_reads (key : string) (w : World) :
  outages w = [] ->
  fst (redis_get config key w) = Ret (current config key w).
Proof.
  intros Ho. destruct (redis_get config key w) as [r w1] eqn:H.
  apply redis_get_spec in H as (ok & -> & _ & _ & _ & _ & Hup).
  destruct (Hup Ho) as (_ & ->). reflexivity.
Qed.

Lemma current_advance_written (key : string) (v : Stored) (ex : option Z)
    (d : N) (w w1 : World) :
  clock w1 = clock w ->
  db w1 !! prefixed config key = Some (mkEntry v ex) ->
  current config key (advance (Z.of_N d) w1)
  = if live (clock w + Z.of_N d) (mkEntry v ex) then Some v else None.
Proof.
  intros Hc Hdb. unfold current, lookup_live, advance.
  cbn [db clock with_clock]. rewrite Hdb, Hc.
  destruct (live _ _); reflexivity.
Qed.

(** X2.  [set(key, value, 0)] is [set(key, value)]: a ttl of 0 is falsy,
    so the key is stored without expiry and get returns the value at any
    later time; whereas [setex(key, 0, value)] reaches Redis, is refused,
    returns false and stores nothing. *)
Theorem set_with_zero_ttl_never_expires
    (key : string) (v : Stored) (w : World) :
  outages w = [] ->
  redis_set_ttl config key v (Some 0) w = redis_set config key v w
  /\ fst (redis_set_ttl config key v (Some 0) w) = Ret true
  /\ (forall d : N,
        fst (redis_get config key
               (advance (Z.of_N d) (snd (redis_set_ttl config key v (Some 0) w))))
        = Ret (Some v))
  /\ fst (redis_setex config key 0 v w) = Ret false
  /\ db (snd (redis_setex config key 0 v w)) = db w.
Proof.
  intros Ho. split; [reflexivity|].
  change (redis_set_ttl config key v (Some 0) w) with (redis_set config key v w).
  destruct (redis_set config key v w) as [r w1] eqn:H.
  apply redis_set_spec in H as (ok & -> & Henv & _ & _ & Hdb & Hup).
  destruct (Hup Ho) as (Ho1 & ->). cbn [fst snd insert_if] in *.
  split; [reflexivity|]. split.
  - intros d. rewrite redis_get_reads by exact Ho1.
    rewrite (current_advance_written key v None d w w1);
      [reflexivity | apply Henv | rewrite Hdb; apply lookup_insert_eq].
  - unfold redis_setex, client_setex, bind, try_catch, modify, ret.
    cbv beta iota. rewrite command_up by exact Ho. cbn. auto.
Qed.

(** X3.  The round trip of setex and get: with Redis answering and a
    positive number of seconds, setex returns true, ttl then answers that
    number of seconds, and get returns the value for exactly
    seconds * 1000 ms and null from then on. *)
Theorem setex_get_round_trip
    (key : string) (v : Stored) (seconds : Z) (w : World) :
  outages w = [] -> 0 < seconds ->
  let w1 := snd (redis_setex config key seconds v w) in
  fst (redis_setex config key seconds v w) = Ret true
  /\ fst (redis_ttl config key w1) = Ret seconds
  /\ forall d : N,
       fst (redis_get config key (advance (Z.of_N d) w1))
       = Ret (if Z.of_N d <? seconds * 1000 then Some v else None).
Proof.
  intros Ho Hs. cbv zeta.
  destruct (redis_setex config key seconds v w) as [r w1] eqn:H.
  apply redis_setex_spec in H as (ok & -> & Henv & _ & _ & Hdb & Hup).
  destruct (Hup Ho) as (Ho1 & Hok). rewrite (Hok Hs) in *.
  cbn [fst snd insert_if] in *.
  assert (Hc : clock w1 = clock w) by apply Henv.
  assert (Hl : db w1 !! prefixed config key
               = Some (mkEntry v (Some (clock w + seconds * 1000))))
    by (rewrite Hdb; apply lookup_insert_eq).
  split; [reflexivity|]. split.
  - unfold redis_ttl, client_ttl, try_catch. rewrite command_up by exact Ho1.
    cbn [fst]. unfold lookup_live. rewrite Hl, Hc. unfold live. cbn [expireAt].
    destruct (Z.ltb_spec (clock w) (clock w + seconds * 1000)); [|lia].
    assert (Hdiv : (clock w + seconds * 1000 - clock w + 500) / 1000 = seconds)
      by (symmetry; apply (Z.div_unique _ 1000 seconds 500); lia).
    cbn [expireAt]. rewrite Hdiv. reflexivity.
  - intros d. rewrite redis_get_reads by exact Ho1.
    rewrite (current_advance_written key v _ d w w1 Hc Hl).
    unfold live. cbn [expireAt].
    destruct (Z.ltb_spec (clock w + Z.of_N d) (clock w + seconds * 1000));
      destruct (Z.ltb_spec (Z.of_N d) (seconds * 1000)); try reflexivity; lia.
Qed.

(** X4.  del removes the key and nothing else: with Redis answering it
    returns true whether or not the key was there, afterwards get returns
    null and exists returns false for the key, and every other key keeps
    its entry. *)
Theorem del_removes_key (key : string) (w : World) :
  outages w = [] ->
  let w1 := snd (redis_del config key w) in
  fst (redis_del config key w) = Ret true
  /\ (forall d : N,
        fst (redis_get config key (advance (Z.of_N d) w1)) = Ret None
        /\ fst (redis_exists config key (advance (Z.of_N d) w1)) = Ret false)
  /\ (forall k, k <> prefixed config key -> db w1 !! k = db w !! k).
Proof.
  intros Ho. cbv zeta.
  unfold redis_del, client_del, bind, try_catch, ret.
  rewrite request_up by exact Ho. cbn [fst snd].
  split; [reflexivity|]. split.
  - intros d.
    assert (Hl : lookup_live config
                   (advance (Z.of_N d)
                      (with_db (delete (prefixed config key) (db w)) w)) key
                 = None).
    { unfold lookup_live, advance. cbn [db clock with_clock with_db].
      now rewrite lookup_delete_eq. }
    split.
    + rewrite redis_get_reads by exact Ho. unfold current. now rewrite Hl.
    + unfold redis_exists, client_exists, bind, try_catch, ret.
      rewrite request_up by exact Ho. now rewrite Hl.
  - intros k Hk. cbn [db with_db]. now apply lookup_delete_ne.
Qed.

(** X5.  incr at its edges, with Redis answering.  On a key that is
    missing or has expired it returns 1 and creates a counter without
    expiry: from then on get returns '1' and ttl answers -1 at any later
    time.  On a value that is not an integer it returns 0, the value of a
    failure, and leaves the database as it was. *)
Theorem incr_edge_cases (key : string) (w : World) :
  outages w = [] ->
  (lookup_live config w key = None ->
   let w1 := snd (redis_incr config key w) in
   fst (redis_incr config key w) = Ret 1
   /\ forall d : N,
        fst (redis_get config key (advance (Z.of_N d) w1)) = Ret (Some (Text "1"))
        /\ fst (redis_ttl config key (advance (Z.of_N d) w1)) = Ret (-1))
  /\ (forall e, lookup_live config w key = Some e ->
        redis_integer (value e) = None ->
        fst (redis_incr config key w) = Ret 0
        /\ db (snd (redis_incr config key w)) = db w).
Proof.
  intros Ho. split.
  - intros Hnone. cbv zeta.
    unfold redis_incr, client_incr, try_catch.
    rewrite command_up by exact Ho. rewrite Hnone. cbn [fst snd].
    split; [reflexivity|]. intros d.
    set (w1 := log_wire _ _).
    assert (Hl : lookup_live config (advance (Z.of_N d) w1) key
                 = Some (mkEntry (Text "1") None)).
    { unfold lookup_live, advance, w1.
      cbn [db clock with_clock with_db log_wire].
      now rewrite lookup_insert_eq. }
    split.
    + rewrite redis_get_reads by exact Ho. unfold current. now rewrite Hl.
    + unfold redis_ttl, client_ttl, try_catch.
      rewrite command_up by exact Ho. now rewrite Hl.
  - intros e He Hn.
    unfold redis_incr, client_incr, try_catch.
    rewrite command_up by exact Ho. rewrite He, Hn. cbn. auto.
Qed.

(** X6.  mget reads like get: with Redis answering and at least one key
    it returns, in order, what get returns for each key, so as many
    entries as keys; for an empty list of keys Redis refuses the command
    and mget returns the empty list. *)
Theorem mget_reads_like_get (keys : list string) (w : World) :
  outages w = [] ->
  fst (redis_mget config keys w) = Ret (map (fun k => current config k w) keys)
  /\ (forall k, fst (redis_get config k w) = Ret (current config k w))
  /\ db (snd (redis_mget config keys w)) = db w.
Proof.
  intros Ho. split; [|split].
  - unfold redis_mget, client_mget, try_catch, ret.
    rewrite request_up by exact Ho. destruct keys; reflexivity.
  - intros k. now apply redis_get_reads.
  - unfold redis_mget, client_mget, try_catch, ret.
    rewrite request_up by exact Ho. destruct keys; reflexivity.
Qed.

End MoreRedisFacts.

(** ** Strings *)

Lemma prefix_app (p s : string) : String.prefix p (p +:+ s) = true.
Proof.
  induction p as [|c p IH].
  - now destruct s.
  - change (String c p +:+ s) with (String c (p +:+ s)). cbn.
    destruct (ascii_dec c c); [exact IH | congruence].
Qed.

Lemma prefix_split (p s : string) :
  String.prefix p s = true -> s = p +:+ substring_from (String.length p) s.
Proof.
  revert s. induction p as [|c p IH]; intros s H.
  - now destruct s.
  - destruct s as [|d s]; [discriminate H|]. cbn in H.
    destruct (ascii_dec c d) as [->|]; [|discriminate H].
    change (String d s = String d (p +:+ substring_from (String.length p) s)).
    f_equal. now apply IH.
Qed.

Lemma substring_from_app (p s : string) :
  substring_from (String.length p) (p +:+ s) = s.
Proof. induction p as [|c p IH]; [now destruct s | exact IH]. Qed.

Lemma falsy_some (s : string) : JS.falsy (Some s) = false <-> s <> "".
Proof. destruct s; cbn; split; congruence. Qed.

(** ** The admin middleware *)

(** X7.  adminAuth lets a request through exactly when an admin token is
    configured and the Authorization header is the word Bearer, one
    space, and that token.  With no token configured nobody passes: a
    Bearer header is answered 500, any other header 401. *)
Theorem adminAuth_passes_only_the_token (authHeader : option string) (adminToken : string) :
  (adminAuth authHeader adminToken = Next
   <-> adminToken <> "" /\ authHeader = Some ("Bearer " +:+ adminToken))
  /\ (adminAuth authHeader "" = Refused 500
      \/ adminAuth authHeader "" = Refused 401).
Proof.
  split.
  - unfold adminAuth. split.
    + destruct authHeader as [h|]; [|discriminate].
      destruct (JS.falsy (Some h)); [discriminate|]. cbn [orb].
      destruct (String.prefix "Bearer " h) eqn:Hp; [|discriminate]. cbn [negb].
      destruct (JS.falsy (Some adminToken)) eqn:Hf; [discriminate|].
      destruct (String.eqb_spec (substring_from 7 h) adminToken) as [He|];
        [|discriminate].
      intros _. split; [now apply falsy_some|].
      f_equal. rewrite <- He. exact (prefix_split "Bearer " h Hp).
    + intros [Hne ->].
      assert (Hf : JS.falsy (Some ("Bearer " +:+ adminToken)) = false)
        by reflexivity.
      rewrite Hf, (prefix_app "Bearer " adminToken). cbn [orb negb].
      apply falsy_some in Hne. rewrite Hne.
      change (substring_from 7 ("Bearer " +:+ adminToken)) with adminToken.
      now rewrite String.eqb_refl.
  - unfold adminAuth. destruct authHeader as [h|]; [|now right].
    destruct (JS.falsy (Some h) || negb (String.prefix "Bearer " h));
      [now right | now left].
Qed.

(** ** The configuration *)

Lemma env_or_unset (env : Env) (name fallback : string) :
  JS.falsy (env !! name) = true -> env_or env name fallback = fallback.
Proof.
  unfold env_or. destruct (env !! name) as [s|]; [|reflexivity].
  intros ->. reflexivity.
Qed.

Lemma env_or_set (env : Env) (name fallback s : string) :
  env !! name = Some s -> s <> "" -> env_or env name fallback = s.
Proof.
  unfold env_or. intros -> Hs. apply falsy_some in Hs. now rewrite Hs.
Qed.

(** X8.  validateConfig returns exactly when FAUCET_PRIVATE_KEY is set
    and starts with 0x, RPC_URL is set and not empty, and, if
    HCAPTCHA_ENABLED is the word true, HCAPTCHA_SECRET is set and not
    empty.  It looks at nothing else: the rate-limit variables are not
    validated. *)
Theorem validateConfig_accepts (env : Env) :
  (validateConfig env = None
   <-> (exists key, env !! "FAUCET_PRIVATE_KEY" = Some ("0x" +:+ key))
       /\ (exists url, env !! "RPC_URL" = Some url /\ url <> "")
       /\ (env !! "HCAPTCHA_ENABLED" = Some "true" ->
           exists secret, env !! "HCAPTCHA_SECRET" = Some secret /\ secret <> ""))
  /\ (forall name value,
        name <> "FAUCET_PRIVATE_KEY" -> name <> "RPC_URL" ->
        name <> "HCAPTCHA_ENABLED" -> name <> "HCAPTCHA_SECRET" ->
        validateConfig (<[name := value]> env) = validateConfig env).
Proof.
  split.
  - unfold validateConfig. cbv zeta. cbn [List.filter].
    destruct (env !! "FAUCET_PRIVATE_KEY") as [pk|] eqn:Hpk.
    2:{ cbn [JS.falsy]. destruct (JS.falsy (env !! "RPC_URL")); cbn;
        (split; [discriminate | intros [[k Hk] _]; discriminate Hk]). }
    destruct (JS.falsy (Some pk)) eqn:Hfpk.
    { destruct (JS.falsy (env !! "RPC_URL")); cbn;
        (split; [discriminate|]); intros [[k Hk] _];
        injection Hk as ->; discriminate Hfpk. }
    destruct (env !! "RPC_URL") as [url|] eqn:Hurl.
    2:{ cbn. split; [discriminate | intros (_ & (u & Hu & _) & _); discriminate Hu]. }
    destruct (JS.falsy (Some url)) eqn:Hfurl.
    { cbn. split; [discriminate|]. intros (_ & (u & Hu & Hne) & _).
      injection Hu as <-. apply falsy_some in Hne. congruence. }
    cbn [length Nat.ltb Nat.leb negb andb default from_option id].
    change (0 <? 0)%nat with false. cbv iota.
    destruct (String.prefix "0x" pk) eqn:Hpre; cbn [negb].
    2:{ split; [discriminate|]. intros [[k Hk] _]. injection Hk as ->.
        rewrite (prefix_app "0x" k) in Hpre. discriminate Hpre. }
    assert (Hkey : exists key, Some pk = Some ("0x" +:+ key)).
    { eexists. f_equal. exact (prefix_split "0x" pk Hpre). }
    assert (Hu : exists u, Some url = Some u /\ u <> "").
    { exists url. split; [reflexivity | now apply falsy_some]. }
    destruct (env !! "HCAPTCHA_ENABLED") as [en|] eqn:Hen.
    2:{ cbn [andb]. split; [|reflexivity]. intros _.
        split; [exact Hkey|]. split; [exact Hu | discriminate]. }
    destruct (String.eqb_spec en "true") as [->|Hne]; cbn [andb].
    2:{ split; [|reflexivity]. intros _. split; [exact Hkey|].
        split; [exact Hu | congruence]. }
    unfold env_or.
    destruct (env !! "HCAPTCHA_SECRET") as [sec|] eqn:Hsec.
    2:{ cbn. split; [discriminate|]. intros (_ & _ & H).
        destruct (H eq_refl) as (s & Hs & _). discriminate Hs. }
    destruct (JS.falsy (Some sec)) eqn:Hfsec.
    { cbn. split; [discriminate|]. intros (_ & _ & H).
      destruct (H eq_refl) as (s & Hs & Hne). injection Hs as <-.
      apply falsy_some in Hne. congruence. }
    rewrite Hfsec. split; [|reflexivity]. intros _.
    split; [exact Hkey|]. split; [exact Hu|]. intros _.
    exists sec. split; [reflexivity | now apply falsy_some].
  - intros name value H1 H2 H3 H4. unfold validateConfig, env_or.
    cbv zeta. cbn [List.filter].
    rewrite !lookup_insert_ne by assumption. reflexivity.
Qed.

(** X9.  The limits come from the environment as they are written.
    Unset or empty, the four variables give 5 requests per hour and IP
    and 1 request per day and address.  An integer of size at most 2^53
    written in RATE_LIMIT_ADDRESS_MAX_REQUESTS becomes the address
    limit whatever its value, 0 and negative numbers included, and
    validateConfig accepts the environment as before. *)
Theorem limits_are_read_unchecked (env : Env) (amount n : Z) :
  JS.falsy (env !! "RATE_LIMIT_IP_MAX_REQUESTS") = true ->
  JS.falsy (env !! "RATE_LIMIT_IP_WINDOW_MS") = true ->
  JS.falsy (env !! "RATE_LIMIT_ADDRESS_MAX_REQUESTS") = true ->
  JS.falsy (env !! "RATE_LIMIT_ADDRESS_WINDOW_MS") = true ->
  Z.abs n <= 2 ^ 53 ->
  (exists c, config_of_env env amount = Some c
     /\ rateLimit_ip_maxRequests c = 5
     /\ rateLimit_ip_windowMs c = 3600000
     /\ rateLimit_address_maxRequests c = 1
     /\ rateLimit_address_windowMs c = 86400000)
  /\ let env' := <["RATE_LIMIT_ADDRESS_MAX_REQUESTS" := JS.toString n]> env in
     (exists c, config_of_env env' amount = Some c
        /\ rateLimit_address_maxRequests c = n
        /\ rateLimit_ip_maxRequests c = 5)
     /\ validateConfig env' = validateConfig env.
Proof.
  intros H1 H2 H3 H4 Hn. split.
  - unfold config_of_env. rewrite !env_or_unset by assumption.
    eexists. split; [reflexivity|]. repeat split; reflexivity.
  - cbv zeta. split.
    + unfold config_of_env.
      assert (Hne : JS.toString n <> "").
      { pose proof (parseInt_toString n) as Hp. intros E. rewrite E in Hp.
        discriminate Hp. }
      rewrite (env_or_set _ "RATE_LIMIT_ADDRESS_MAX_REQUESTS" "1" (JS.toString n))
        by (try apply lookup_insert_eq; exact Hne).
      rewrite !env_or_unset
        by (rewrite lookup_insert_ne by discriminate; assumption).
      unfold parse_limit at 3. rewrite parseInt_toString.
      destruct (Z.leb_spec (Z.abs n) (2 ^ 53)); [|lia].
      eexists. split; [reflexivity|]. split; reflexivity.
    + unfold validateConfig, env_or. cbv zeta. cbn [List.filter].
      rewrite !lookup_insert_ne by discriminate. reflexivity.
Qed.

(** ** The HTTP handlers *)

Section HandlerFacts.
Variable config : Config.
Variable isAddress : string -> bool.
Variable library_message : string.

Lemma processRequest_outcome (req : FaucetRequest) (w : World) :
  match fst (processRequest config req w) with
  | Ret _ => True
  | Throw e => pipeline_error e = true
  end.
Proof.
  rewrite processRequest_stages. unfold bind.
  destruct (admission config req w) as [r1 w1] eqn:Ha.
  apply admission_cases in Ha as (_ & _ & _ & _ & Hcases).
  destruct Hcases as [(_ & -> & _)|(_ & [(-> & _)|[((m & ->) & _)|[((h & ->) & _)|(-> & _)]]])];
    try reflexivity.
  destruct (payout config req w1) as [r2 w2] eqn:Hp.
  apply payout_cases in Hp as (_ & _ & Hp). cbn [fst].
  destruct (treasury_balance w1) as [b|].
  - destruct (balance_too_low config b).
    + destruct Hp as (-> & _). reflexivity.
    + destruct (send_result config w1 (address req)) as [tx|e] eqn:Hs.
      * destruct Hp as (-> & _). exact I.
      * destruct Hp as (-> & _). now apply send_result_error in Hs.
  - destruct Hp as (-> & _). reflexivity.
Qed.

(** X10.  The handler of POST /request checks the body before it calls
    any service.  A body without an address or without a captcha token
    (missing or empty) is answered 400, whether captcha is enabled or
    not, and an address that isAddress rejects likewise: no service
    (captcha, Redis, chain) is called, and the database, the service
    calls and the wire are as they were. *)
Theorem post_request_validates_first
    (address captchaToken req_ip remoteAddress : option string)
    (nonce : string) (w : World) :
  (JS.falsy address = true \/ JS.falsy captchaToken = true ->
   post_request config isAddress library_message
     address captchaToken req_ip remoteAddress nonce w
   = (Ret (mkHttp 400 (inr "Missing required fields: address and captchaToken")), w))
  /\ (forall a, address = Some a -> JS.falsy address = false ->
      JS.falsy captchaToken = false -> isAddress a = false ->
      post_request config isAddress library_message
        address captchaToken req_ip remoteAddress nonce w
      = (Ret (mkHttp 400 (inr "Invalid Ethereum address")), w)).
Proof.
  unfold post_request, bind, try_catch, ret, Date_now. cbv beta iota. split.
  - intros H. destruct address as [a|], captchaToken as [t|]; try reflexivity.
    destruct (JS.falsy (Some a)), (JS.falsy (Some t)); try reflexivity.
    destruct H; discriminate.
  - intros a -> Ha Ht Hi. destruct captchaToken as [t|]; [|discriminate Ht].
    rewrite Ha, Ht, Hi. reflexivity.
Qed.

(** The request the handler hands to the service. *)
Lemma post_request_runs (a token : string) (req_ip remoteAddress : option string)
    (nonce : string) (w : World) :
  a <> "" -> token <> "" -> isAddress a = true ->
  post_request config isAddress library_message
    (Some a) (Some token) req_ip remoteAddress nonce w
  = let req := mkRequest a (Some token)
                 match remoteip req_ip, remoteip remoteAddress with
                 | Some ip, _ => ip
                 | None, Some ip => ip
                 | None, None => "unknown"
                 end
                 ("req_" +:+ JS.toString (clock w) +:+ "_" +:+ nonce) in
    match processRequest config req w with
    | (Ret result, w1) => (Ret (mkHttp 200 (inl result)), w1)
    | (Throw e, w1) =>
        let message := error_message library_message e in
        (Ret (if includes "rate limit" message then mkHttp 429 (inr message)
              else if includes "captcha" message
                   then mkHttp 400 (inr "Captcha verification failed")
              else if includes "balance" message
                   then mkHttp 503
                          (inr "Faucet temporarily unavailable. Please try again later.")
              else mkHttp 500 (inr "Internal server error")), w1)
    end.
Proof.
  intros Ha Ht Hi. apply falsy_some in Ha, Ht.
  unfold post_request, bind, try_catch, ret, Date_now. cbv beta iota zeta.
  rewrite Ha, Ht, Hi. cbn [orb negb].
  destruct (processRequest config _ w) as [[r|e] w1]; [reflexivity|].
  cbv iota.
  destruct (includes "rate limit" _); [reflexivity|].
  destruct (includes "captcha" _); [reflexivity|].
  destruct (includes "balance" _); reflexivity.
Qed.

(** X11.  The status of POST /request for a well-formed body, by the
    way processRequest ends: 200 when it returns; 429 for both
    rate-limit errors; 503 for a balance that is too low and for a
    balance that cannot be read; 500 for everything else the services
    throw themselves, the failed captcha included (its message starts
    with a capital letter, the handler looks for the lower-case word).
    The only other error that reaches the handler is the one of the
    chain library, answered by the words of its message.  The world is
    left as processRequest leaves it. *)
Theorem post_request_status
    (a token : string) (req_ip remoteAddress : option string)
    (nonce : string) (w : World) :
  a <> "" -> token <> "" -> isAddress a = true ->
  let req := mkRequest a (Some token)
               match remoteip req_ip, remoteip remoteAddress with
               | Some ip, _ => ip
               | None, Some ip => ip
               | None, None => "unknown"
               end
               ("req_" +:+ JS.toString (clock w) +:+ "_" +:+ nonce) in
  let answer := post_request config isAddress library_message
                  (Some a) (Some token) req_ip remoteAddress nonce w in
  snd answer = snd (processRequest config req w)
  /\ exists response,
       fst answer = Ret response
       /\ match fst (processRequest config req w) with
          | Ret result => response = mkHttp 200 (inl result)
          | Throw (IPRateLimitExceeded _ as e)
          | Throw (AddressRateLimitExceeded _ as e) =>
              response = mkHttp 429 (inr (error_message library_message e))
          | Throw FaucetBalanceTooLow | Throw BalanceUnavailable =>
              status response = 503
          | Throw CaptchaVerificationFailed | Throw InvalidAddressFormat
          | Throw InvalidEthereumAddress | Throw ReceiptIsNull
          | Throw TransactionFailedOnChain =>
              response = mkHttp 500 (inr "Internal server error")
          | Throw ProviderError =>
              status response = 429 \/ status response = 400
              \/ status response = 503 \/ status response = 500
          | Throw _ => False
          end.
Proof.
  intros Ha Ht Hi req answer. subst answer.
  rewrite post_request_runs by assumption. cbv zeta. fold req.
  pose proof (processRequest_outcome req w) as Hout.
  destruct (processRequest config req w) as [[r|e] w1]; cbn [fst snd] in *.
  - split; [reflexivity|]. eexists. split; reflexivity.
  - split; [reflexivity|]. eexists. split; [reflexivity|].
    destruct e; try reflexivity; try discriminate Hout; cbn [error_message];
      destruct (includes "rate limit" library_message); cbn [status]; auto;
      destruct (includes "captcha" library_message); cbn [status]; auto;
      destruct (includes "balance" library_message); cbn [status]; auto.
Qed.

(** X12.  GET /cooldown/:address answers 400 for an address isAddress
    rejects, leaving the world as it was, and 200 otherwise, with the
    answer and the effects of checkCooldown; it never answers 500,
    whatever Redis does. *)
Theorem get_cooldown_status (address : string) (w : World) :
  (isAddress address = false ->
   get_cooldown config isAddress address w
   = (Ret (mkHttp 400 (inr "Invalid Ethereum address")), w))
  /\ (isAddress address = true ->
      exists cooldown,
        fst (checkCooldown config address w) = Ret cooldown
        /\ get_cooldown config isAddress address w
           = (Ret (mkHttp 200 (inl cooldown)), snd (checkCooldown config address w)))
  /\ exists response,
       fst (get_cooldown config isAddress address w) = Ret response
       /\ status response <> 500.
Proof.
  assert (Hc : exists cooldown, fst (checkCooldown config address w) = Ret cooldown).
  { unfold checkCooldown, bind. cbv zeta.
    destruct (checkRateLimit config _ _ _ w) as [r w1] eqn:H.
    apply checkRateLimit_frame in H as (rl & evs & -> & _).
    destruct (allowed rl); cbn; eauto. }
  destruct Hc as [cooldown Hc].
  unfold get_cooldown, bind, try_catch, ret.
  destruct (isAddress address); cbn [negb].
  - destruct (checkCooldown config address w) as [r w1]. cbn [fst snd] in *.
    subst r. split; [discriminate|]. split; [eauto|].
    eexists. split; [reflexivity | discriminate].
  - split; [reflexivity|]. split; [discriminate|].
    eexists. split; [reflexivity | discriminate].
Qed.

(** X13.  POST /manual-send goes straight to sendTokens: no balance is
    read, no counter is touched, and the amount of the body plays no
    part.  The only service call is the transfer, the database is
    unchanged, a confirmed transfer carries the configured faucet amount
    and is answered 200, and a failed one is answered 500 with the
    message of the error. *)
Theorem manual_send_checks_nothing {A} (a : string) (amount : option A) (w : World) :
  a <> "" ->
  let answer := manual_send config library_message (Some a) amount w in
  db (snd answer) = db w
  /\ calls (snd answer)
     = calls w ++ [ChainSendTokens a ("manual_" +:+ JS.toString (clock w))]
  /\ fst answer
     = Ret match send_result config w a with
           | Ret tx => mkHttp 200 (inl tx)
           | Throw e => mkHttp 500 (inr (error_message library_message e))
           end
  /\ (forall tx, send_result config w a = Ret tx ->
                 tx_amount tx = faucet_amount config).
Proof.
  intros Ha answer. subst answer. apply falsy_some in Ha.
  unfold manual_send, bind, try_catch, ret, Date_now. rewrite Ha.
  destruct (sendTokens config a _ w) as [r w1] eqn:Hs.
  apply sendTokens_spec in Hs as (_ & Hdb & _ & Hc & -> & _).
  split; [|split; [|split]].
  - destruct (send_result config w a); exact Hdb.
  - destruct (send_result config w a); exact Hc.
  - destruct (send_result config w a); reflexivity.
  - unfold send_result. intros tx. destruct (submit w a); intros [= <-].
    reflexivity.
Qed.

End HandlerFacts.

(** ** The rate limit, with Redis answering *)

Section RateLimitFacts.
Variable config : Config.

(** With Redis answering, the answer of checkRateLimit depends on the
    clock and on the entry of its key only. *)
Lemma checkRateLimit_local (key : string) (limit windowMs : Z) (w w' : World) :
  outages w = [] -> outages w' = [] ->
  clock w' = clock w ->
  db w' !! prefixed config key = db w !! prefixed config key ->
  fst (checkRateLimit config key limit windowMs w')
  = fst (checkRateLimit config key limit windowMs w).
Proof.
  intros Ho Ho' Hc Hd.
  pose proof (lookup_live_frame config w w' key Hc Hd) as Hl.
  unfold checkRateLimit, bind, try_catch, modify, Date_now, ret.
  cbv beta iota zeta.
  rewrite !client_get_up by assumption.
  change (lookup_live config (log_call ?c w') key)
    with (lookup_live config w' key).
  change (lookup_live config (log_call ?c w) key)
    with (lookup_live config w key).
  rewrite Hl.
  destruct (no_current _).
  - unfold client_setex. rewrite !command_up by assumption.
    destruct (0 <? windowMs / 1000); cbn [fst clock log_wire log_call with_db];
      now rewrite Hc.
  - destruct (JS.ge _ limit).
    + unfold client_ttl. rewrite !command_up by assumption.
      unfold lookup_live. cbn [fst db clock log_wire log_call with_db].
      now rewrite Hc, Hd.
    + unfold client_incr. rewrite !command_up by assumption.
      unfold lookup_live. cbn [db clock log_wire log_call with_db].
      rewrite Hc, Hd.
      destruct (db w !! prefixed config key) as [e|];
        [destruct (live (clock w) e);
         [destruct (redis_integer (value e)) as [n|];
          [destruct (n <? 2 ^ 63 - 1)|]|]|];
        cbn [fst clock log_wire log_call with_db]; now rewrite ?Hc.
Qed.


(** checkRateLimit is the case where nothing happens in between. *)
Lemma checkRateLimit_meanwhile_nothing (key : string) (limit windowMs : Z) (w : World) :
  checkRateLimit_meanwhile config key limit windowMs (fun w0 => w0) w
  = checkRateLimit config key limit windowMs w.
Proof.
  unfold checkRateLimit_meanwhile, checkRateLimit, bind, try_catch, modify.
  cbv beta iota zeta.
  destruct (client_get config key _) as [[cur|e] w1]; reflexivity.
Qed.

(** X24.  Two calls that overlap both pass, and the counter passes the
    limit.  checkRateLimit reads the counter and writes it in two
    commands, with an await between them.  With Redis answering and a
    counter c below the limit: when a second call for the key runs while
    the first awaits the answer of its GET, both see c, both are allowed
    and both increment: the counter ends at c + 2.  With one request
    left (c + 1 = limit) it ends above the limit. *)
Theorem overlapping_calls_pass_the_limit
    (key : string) (limit windowMs : Z) (w : World) (e : Entry) (c : Z) :
  outages w = [] ->
  lookup_live config w key = Some e ->
  value e = Text (JS.toString c) ->
  c < limit -> - 2 ^ 63 <= c -> c + 1 < 2 ^ 63 - 1 ->
  let second := checkRateLimit config key limit windowMs in
  let at_await :=
    log_wire (WRedis (GET key) true)
      (log_call (RedisCheckRateLimit key limit windowMs) w) in
  let run :=
    checkRateLimit_meanwhile config key limit windowMs
      (fun w0 => snd (second w0)) w in
  (exists rl, fst (second at_await) = Ret rl /\ allowed rl = true)
  /\ (exists rl, fst run = Ret rl /\ allowed rl = true)
  /\ stored_count config (snd run) key = Some (JS.Num (c + 2))
  /\ (c + 1 = limit -> ~ count_within config key limit (snd run)).
Proof.
  intros Ho He Hv Hc Hlo Hhi. cbv zeta.
  set (wa := log_wire (WRedis (GET key) true)
               (log_call (RedisCheckRateLimit key limit windowMs) w)).
  assert (Hea : lookup_live config wa key = Some e) by exact He.
  pose proof (checkRateLimit_incr config key limit windowMs wa e c
                Ho Hea Hv Hc ltac:(lia)) as Hsecond.
  apply lookup_live_is_live in He as Hlive. destruct Hlive as (_ & Hlive).
  assert (Hne : JS.falsy (Some (JS.toString c)) = false).
  { pose proof (parseInt_toString c) as Hp.
    destruct (JS.toString c); [discriminate Hp | reflexivity]. }
  assert (Hrun :
    checkRateLimit_meanwhile config key limit windowMs
      (fun w0 => snd (checkRateLimit config key limit windowMs w0)) w
    = (Ret (mkRateLimit true (JS.Num (limit - c - 1)) (clock w + windowMs)),
       log_wire (WRedis (INCR key) true)
         (with_db (<[prefixed config key :=
                       mkEntry (Text (JS.toString (c + 1 + 1))) (expireAt e)]>
                     (db (snd (checkRateLimit config key limit windowMs wa))))
            (snd (checkRateLimit config key limit windowMs wa))))).
  { unfold checkRateLimit_meanwhile, bind, try_catch, modify.
    cbv beta iota zeta.
    rewrite client_get_up by exact Ho. fold wa.
    change (lookup_live config (log_call _ w) key) with (lookup_live config w key).
    rewrite He. cbn [fmap option_fmap option_map]. rewrite Hv.
    cbn [no_current parse_current]. rewrite Hne, parseInt_toString.
    cbn [JS.ge]. destruct (Z.leb_spec limit c); [lia|].
    rewrite Hsecond. cbn [snd].
    set (wb := log_wire (WRedis (INCR key) true) _).
    assert (Hob : outages wb = []) by exact Ho.
    assert (Heb : lookup_live config wb key
                  = Some (mkEntry (Text (JS.toString (c + 1))) (expireAt e))).
    { unfold lookup_live, wb. cbn [db clock log_wire with_db log_call].
      rewrite lookup_insert_eq. unfold live in *. cbn [expireAt].
      change (clock wa) with (clock w). now rewrite Hlive. }
    rewrite (client_incr_up config key wb _ (c + 1) Hob Heb eq_refl ltac:(lia)).
    unfold Date_now, ret. cbn [expireAt]. reflexivity. }
  split; [rewrite Hsecond; eexists; split; reflexivity|].
  split; [rewrite Hrun; eexists; split; reflexivity|].
  assert (Hcount : stored_count config
                     (snd (checkRateLimit_meanwhile config key limit windowMs
                             (fun w0 => snd (checkRateLimit config key limit windowMs w0)) w))
                     key = Some (JS.Num (c + 2))).
  { rewrite Hrun. cbn [snd]. unfold stored_count, lookup_live.
    cbn [db clock log_wire with_db].
    rewrite lookup_insert_eq. rewrite Hsecond. cbn [snd clock log_wire with_db log_call].
    unfold live in *. cbn [expireAt].
    change (clock wa) with (clock w). rewrite Hlive.
    cbn [value parse_current]. rewrite parseInt_toString. do 2 f_equal. lia. }
  split; [exact Hcount|].
  intros Hlim. unfold count_within. rewrite Hcount. lia.
Qed.

End RateLimitFacts.

(** ** The admin routes and the other queries *)

Section AdminFacts.
Variable config : Config.

Lemma redis_del_frame (key : string) (w : World) :
  (exists ok, fst (redis_del config key w) = Ret ok)
  /\ clock (snd (redis_del config key w)) = clock w
  /\ (outages w = [] -> outages (snd (redis_del config key w)) = [])
  /\ (forall k, k <> prefixed config key ->
                db (snd (redis_del config key w)) !! k = db w !! k).
Proof.
  unfold redis_del, client_del, request, bind, try_catch, ret.
  destruct (outages w) as [|[|] rest] eqn:Ho; cbn.
  - split; [eauto|]. split; [reflexivity|]. split; [reflexivity|].
    intros k Hk. now apply lookup_delete_ne.
  - split; [eauto|]. split; [reflexivity|]. split; [discriminate|]. reflexivity.
  - split; [eauto|]. split; [reflexivity|]. split; [discriminate|].
    intros k Hk. now apply lookup_delete_ne.
Qed.

(** X16.  POST /reset-rate-limit resets no rate limit.  For a type ip or
    address and a value it answers 200 with the words of a reset,
    whatever Redis does, but it deletes the key [ratelimit:ip:<value>]
    or [ratelimit:address:<value>], and the counters of checkRateLimit
    live under [ip:<ip>] and [address:<address>]: every counter keeps
    its entry, and with Redis answering the next check of every IP and
    of every address is answered as it would have been without the
    reset. *)
Theorem reset_rate_limit_keeps_the_counters (type value : string) (w : World) :
  type = "ip" \/ type = "address" -> value <> "" ->
  let answer := reset_rate_limit config (Some type) (Some value) w in
  fst answer
  = Ret (mkHttp 200 (inl ("Rate limit reset for " +:+ type +:+ ": " +:+ value)))
  /\ (forall x,
        db (snd answer) !! prefixed config (IP_KEY_PREFIX +:+ x)
        = db w !! prefixed config (IP_KEY_PREFIX +:+ x)
        /\ db (snd answer) !! prefixed config (ADDRESS_KEY_PREFIX +:+ x)
           = db w !! prefixed config (ADDRESS_KEY_PREFIX +:+ x))
  /\ (outages w = [] ->
      forall x,
        fst (checkIPRateLimit config x (snd answer))
        = fst (checkIPRateLimit config x w)
        /\ fst (checkAddressRateLimit config x (snd answer))
           = fst (checkAddressRateLimit config x w)).
Proof.
  intros Ht Hv. cbv zeta. apply falsy_some in Hv.
  assert (Htf : JS.falsy (Some type) = false) by (destruct Ht as [-> | ->]; reflexivity).
  assert (Hok : String.eqb type "ip" || String.eqb type "address" = true)
    by (destruct Ht as [-> | ->]; reflexivity).
  unfold reset_rate_limit, redis_delete, bind, try_catch, ret.
  rewrite Htf, Hv, Hok. cbn [orb negb].
  set (key := if String.eqb type "ip" then _ else _).
  destruct (redis_del_frame key w) as ((ok & Hr) & Hc & Ho & Hdb).
  destruct (redis_del config key w) as [r w1]. cbn [fst snd] in *. subst r.
  assert (Hkeys : forall x,
             prefixed config (IP_KEY_PREFIX +:+ x) <> prefixed config key
             /\ prefixed config (ADDRESS_KEY_PREFIX +:+ x) <> prefixed config key).
  { intros x. unfold key.
    split; intros H; apply prefixed_inj in H;
      destruct (String.eqb type "ip"); discriminate H. }
  split; [reflexivity|]. split.
  - intros x. destruct (Hkeys x). split; now apply Hdb.
  - intros Hup x. destruct (Hkeys x) as [Hi Ha].
    unfold checkIPRateLimit, checkAddressRateLimit. cbv zeta.
    split; apply checkRateLimit_local; auto.
    apply Hdb. destruct (Hkeys (JS.toLowerCase x)) as [_ Hx]. exact Hx.
Qed.

(** X17.  checkEligibility is checkCooldown behind the format check of
    the service.  For an address the pattern rejects it answers without
    touching anything.  For any other address it leaves the world
    exactly as checkCooldown does, the counter of the address included,
    and is eligible when checkCooldown says the address can request, with
    the same end of the cooldown. *)
Theorem checkEligibility_is_checkCooldown (cooldownHours : Z) (address : string) (w : World) :
  (isValidAddress address = false ->
   checkEligibility config cooldownHours address w
   = (Ret (mkEligibility false (Some "Invalid address format") None), w))
  /\ (isValidAddress address = true ->
      snd (checkEligibility config cooldownHours address w)
      = snd (checkCooldown config address w)
      /\ exists e c,
           fst (checkEligibility config cooldownHours address w) = Ret e
           /\ fst (checkCooldown config address w) = Ret c
           /\ eligible e = canRequest c
           /\ nextEligibleAt e = cooldownEndsAt c).
Proof.
  unfold checkEligibility, checkCooldown, checkAddressRateLimit, bind, ret, Date_now.
  cbv zeta. destruct (isValidAddress address); cbn [negb].
  - split; [discriminate|]. intros _.
    destruct (checkRateLimit config _ _ _ w) as [r w1] eqn:H.
    apply checkRateLimit_frame in H as (rl & evs & -> & _).
    destruct (allowed rl); cbn; split; try reflexivity;
      eexists; eexists; repeat split; reflexivity.
  - split; [reflexivity | discriminate].
Qed.

(** X18.  getStats never throws and writes nothing: it reads the stats
    key, then the balance.  When the balance cannot be read it answers
    the zero statistics with balance 0, whatever is stored.  Otherwise,
    for a stored document (or none, or an empty one, which count as the
    zero statistics) it answers that document with the balance; when
    Redis does not answer the read it takes the document as missing. *)
Theorem getStats_never_fails (w : World) :
  let answer := getStats config w in
  (exists stats, fst answer = Ret stats)
  /\ db (snd answer) = db w
  /\ calls (snd answer) = calls w ++ [RedisGet STATS_KEY; ChainGetBalance]
  /\ exists ok : bool,
       (outages w = [] -> ok = true)
       /\ match treasury_balance w with
          | None => fst answer = Ret (mkFaucetStats default_stats 0)
          | Some balance =>
              forall stats,
                stats_read (if ok then current config STATS_KEY w else None)
                = Some stats ->
                fst answer = Ret (mkFaucetStats stats balance)
          end.
Proof.
  cbv zeta. unfold getStats, bind, try_catch, ret.
  destruct (redis_get config STATS_KEY w) as [r1 w1] eqn:Hg.
  apply redis_get_spec in Hg as (ok & -> & Henv1 & Hc1 & _ & Hdb1 & Hup).
  destruct (getBalance w1) as [r2 w2] eqn:Hb.
  apply getBalance_spec in Hb as (Henv2 & Hdb2 & _ & Hc2 & -> & _).
  rewrite (treasury_balance_env w w1 Henv1).
  assert (Hcalls : calls w2 = calls w ++ [RedisGet STATS_KEY; ChainGetBalance])
    by (rewrite Hc2, Hc1, <- app_assoc; reflexivity).
  assert (Hdb : db w2 = db w) by congruence.
  set (data := if ok then current config STATS_KEY w else None).
  destruct (treasury_balance w) as [b|].
  - destruct data as [[[|c s]|st|rq]|] eqn:Hd; cbn;
      (split; [eauto|]); (split; [exact Hdb|]); (split; [exact Hcalls|]);
      exists ok; (split; [intros Ho; apply Hup, Ho|]);
      fold data; rewrite Hd; cbn; intros stats [= <-]; reflexivity.
  - cbn. split; [eauto|]. split; [exact Hdb|]. split; [exact Hcalls|].
    exists ok. split; [intros Ho; apply Hup, Ho|]. reflexivity.
Qed.

End AdminFacts.

(** ** Quota and failed requests *)

Section QuotaFacts.
Variable config : Config.

Lemma live_until (now t : Z) (v : Stored) :
  now < t -> live now (mkEntry v (Some t)) = true.
Proof. intros H. unfold live. cbn. now apply Z.ltb_lt. Qed.

(** The admission of a request whose two counters are missing, with
    Redis answering and captcha off: both counters are created. *)
Lemma admission_fresh (req : FaucetRequest) (w : World) :
  outages w = [] ->
  isValidAddress (address req) = true ->
  captcha_enabled config = false ->
  1000 <= rateLimit_ip_windowMs config ->
  1000 <= rateLimit_address_windowMs config ->
  lookup_live config w (ip_key req) = None ->
  lookup_live config w (address_key req) = None ->
  exists w1,
    admission config req w = (Ret tt, w1)
    /\ same_env w w1 /\ outages w1 = []
    /\ db w1
       = <[prefixed config (address_key req) :=
             mkEntry (Text "1")
               (Some (clock w + rateLimit_address_windowMs config / 1000 * 1000))]>
           (<[prefixed config (ip_key req) :=
                mkEntry (Text "1")
                  (Some (clock w + rateLimit_ip_windowMs config / 1000 * 1000))]>
              (db w)).
Proof.
  intros Ho Hvalid Hen Hipw Haw Hip Haddr.
  unfold admission, bind. rewrite Hvalid. cbn [negb].
  rewrite verify_disabled by exact Hen.
  cbn [success captcha_passed truthy negb].
  unfold checkIPRateLimit. cbv zeta. fold (ip_key req).
  set (w1 := log_call _ w).
  rewrite (checkRateLimit_first config (ip_key req) _ _ w1 Ho);
    [|change (lookup_live config w1 (ip_key req))
        with (lookup_live config w (ip_key req));
      now rewrite Hip | exact Hipw].
  cbn [allowed negb].
  unfold checkAddressRateLimit. cbv zeta. fold (address_key req).
  set (w2 := log_wire _ _).
  assert (Hl : lookup_live config w2 (address_key req) = None).
  { unfold lookup_live in *. unfold w2, w1.
    cbn [db clock log_wire with_db log_call].
    rewrite lookup_insert_ne by (apply not_eq_sym, ip_key_not_address_key).
    exact Haddr. }
  rewrite (checkRateLimit_first config (address_key req) _ _ w2 Ho);
    [|now rewrite Hl | exact Haw].
  cbn [allowed negb]. unfold ret. eexists. split; [reflexivity|].
  split; [repeat split|]. split; [exact Ho | reflexivity].
Qed.

Lemma counter_key_not_stats (k a : string) :
  prefixed config (IP_KEY_PREFIX +:+ a) <> prefixed config STATS_KEY
  /\ prefixed config (ADDRESS_KEY_PREFIX +:+ a) <> prefixed config STATS_KEY
  /\ prefixed config (IP_KEY_PREFIX +:+ a) <> prefixed config ("request:" +:+ k)
  /\ prefixed config (ADDRESS_KEY_PREFIX +:+ a) <> prefixed config ("request:" +:+ k).
Proof.
  repeat split; intros H; apply prefixed_inj in H; discriminate H.
Qed.

(** The payout leaves the counters of the rate limits alone. *)
Lemma payout_keeps_counters (req : FaucetRequest) (w : World) (a : string) :
  db (snd (payout config req w)) !! prefixed config (IP_KEY_PREFIX +:+ a)
  = db w !! prefixed config (IP_KEY_PREFIX +:+ a)
  /\ db (snd (payout config req w)) !! prefixed config (ADDRESS_KEY_PREFIX +:+ a)
     = db w !! prefixed config (ADDRESS_KEY_PREFIX +:+ a).
Proof.
  destruct (payout config req w) as [r w1] eqn:Hp.
  apply payout_cases in Hp as (_ & _ & Hp). cbn [snd].
  destruct (treasury_balance w) as [b|].
  2:{ destruct Hp as (_ & _ & -> & _). auto. }
  destruct (balance_too_low config b).
  { destruct Hp as (_ & _ & -> & _). auto. }
  destruct (send_result config w (address req)) as [tx|e].
  2:{ destruct Hp as (_ & -> & _). auto. }
  destruct Hp as (_ & w5 & _ & Hdb5 & _ & _ & Hu).
  apply updateStats_cases in Hu as (_ & _ & _ & ok0 & _ & Hu).
  destruct (counter_key_not_stats (tx_hash tx) a) as (H1 & H2 & H3 & H4).
  destruct (stats_read _) as [st|].
  - destruct Hu as (ok1 & ok2 & _ & _ & _ & ->). rewrite Hdb5.
    unfold insert_if. destruct ok1, ok2;
      rewrite ?lookup_insert_ne by (apply not_eq_sym; assumption); auto.
  - destruct Hu as (_ & _ & ->). rewrite Hdb5. auto.
Qed.

(** X19.  A request that has passed the rate limits has spent its quota,
    however it ends.  With Redis answering, captcha off, a valid address
    and no counter yet for the IP and the address, processRequest leaves
    both counters at 1 -- also when it then fails on the balance or on
    the transfer.  So with the default address limit of 1, after a
    request that failed, every request for the address made from
    another IP before the counter expires is refused with the address
    rate-limit error, whatever the balance is by then. *)
Theorem quota_is_spent_whatever_the_outcome (req : FaucetRequest) (w : World) :
  outages w = [] ->
  isValidAddress (address req) = true ->
  captcha_enabled config = false ->
  1000 <= rateLimit_ip_windowMs config ->
  1000 <= rateLimit_address_windowMs config ->
  stored_count config w (ip_key req) = None ->
  stored_count config w (address_key req) = None ->
  let w1 := snd (processRequest config req w) in
  stored_count config w1 (ip_key req) = Some (JS.Num 1)
  /\ stored_count config w1 (address_key req) = Some (JS.Num 1)
  /\ forall (req' : FaucetRequest) (w2 : World),
       rateLimit_address_maxRequests config = 1 ->
       address req' = address req ->
       outages w2 = [] ->
       db w2 = db w1 ->
       clock w <= clock w2
         < clock w + rateLimit_address_windowMs config / 1000 * 1000 ->
       lookup_live config w2 (ip_key req') = None ->
       exists hours,
         fst (processRequest config req' w2) = Throw (AddressRateLimitExceeded hours).
Proof.
  intros Ho Hvalid Hen Hipw Haw Hip Haddr. cbv zeta.
  apply stored_count_none in Hip, Haddr.
  destruct (admission_fresh req w Ho Hvalid Hen Hipw Haw Hip Haddr)
    as (w3 & Ha & Henv & Ho3 & Hdb3).
  rewrite processRequest_stages. unfold bind. rewrite Ha.
  destruct (payout_keeps_counters req w3 (ipAddress req)) as [Hki _].
  destruct (payout_keeps_counters req w3 (JS.toLowerCase (address req))) as [_ Hka].
  fold (ip_key req) in Hki. fold (address_key req) in Hka.
  assert (Hclock : clock (snd (payout config req w3)) = clock w).
  { destruct (payout config req w3) as [r w4] eqn:Hp.
    apply payout_cases in Hp as (Henv4 & _). cbn [snd].
    transitivity (clock w3); [apply Henv4 | apply Henv]. }
  assert (Hpi : 0 < rateLimit_ip_windowMs config / 1000)
    by (apply Z.div_str_pos; lia).
  assert (Hpa : 0 < rateLimit_address_windowMs config / 1000)
    by (apply Z.div_str_pos; lia).
  assert (Hdbi : db (snd (payout config req w3)) !! prefixed config (ip_key req)
                 = Some (mkEntry (Text "1")
                           (Some (clock w + rateLimit_ip_windowMs config / 1000 * 1000)))).
  { rewrite Hki, Hdb3.
    rewrite lookup_insert_ne by apply ip_key_not_address_key.
    apply lookup_insert_eq. }
  assert (Hdba : db (snd (payout config req w3)) !! prefixed config (address_key req)
                 = Some (mkEntry (Text "1")
                           (Some (clock w + rateLimit_address_windowMs config / 1000 * 1000)))).
  { rewrite Hka, Hdb3. apply lookup_insert_eq. }
  destruct (payout config req w3) as [r w4]. cbn [snd] in *.
  split; [|split].
  - unfold stored_count, lookup_live. rewrite Hdbi, Hclock.
    rewrite live_until by lia. reflexivity.
  - unfold stored_count, lookup_live. rewrite Hdba, Hclock.
    rewrite live_until by lia. reflexivity.
  - intros req' w2 Hlim Hsame Ho2 Hdb2 Hc2 Hip2.
    apply (processRequest_after_first config req' w2
             (clock w + rateLimit_address_windowMs config / 1000 * 1000));
      try assumption.
    + now rewrite Hsame.
    + unfold address_key in *. rewrite Hsame, Hdb2. exact Hdba.
    + lia.
Qed.

(** X20.  A request refused for the format of its address or for its
    captcha costs nothing: the database is as it was, so no counter has
    moved, and no balance has been read and no transfer attempted. *)
Theorem refusal_before_the_limits_is_free (req : FaucetRequest) (w : World) :
  fst (processRequest config req w) = Throw InvalidAddressFormat
  \/ fst (processRequest config req w) = Throw CaptchaVerificationFailed ->
  let w1 := snd (processRequest config req w) in
  db w1 = db w
  /\ (forall key limit windowMs,
        ~ In (RedisCheckRateLimit key limit windowMs) (skipn (length (calls w)) (calls w1)))
  /\ ~ In ChainGetBalance (skipn (length (calls w)) (calls w1))
  /\ (forall a r, ~ In (ChainSendTokens a r) (skipn (length (calls w)) (calls w1))).
Proof.
  rewrite processRequest_stages. unfold bind. cbv zeta.
  destruct (admission config req w) as [r1 w1] eqn:Ha.
  apply admission_cases in Ha as (_ & _ & _ & _ & Hcases).
  assert (Hskip : forall l : list Call, skipn (length (calls w)) (calls w ++ l) = l).
  { intros l. rewrite skipn_app, skipn_all, Nat.sub_diag. reflexivity. }
  destruct Hcases as [(_ & -> & ->)|(_ & [(-> & Hc & Hdb & _)|[((m & ->) & _)|[((h & ->) & _)|(-> & _)]]])];
    cbn [fst snd].
  - intros _. rewrite skipn_all. split; [reflexivity|].
    repeat split; intros; intros [].
  - intros _. rewrite Hc, Hskip. cbn [firstn admission_calls].
    split; [exact Hdb|].
    repeat split; intros; intros [H|[]]; discriminate H.
  - intros [H|H]; discriminate H.
  - intros [H|H]; discriminate H.
  - destruct (payout config req w1) as [r2 w2] eqn:Hp.
    apply payout_cases in Hp as (_ & _ & Hp). cbn [fst snd].
    intros H. exfalso.
    destruct (treasury_balance w1) as [b|].
    + destruct (balance_too_low config b).
      * destruct Hp as (-> & _). destruct H as [H|H]; discriminate H.
      * destruct (send_result config w1 (address req)) as [tx|e] eqn:Hs.
        -- destruct Hp as (-> & _). destruct H as [H|H]; discriminate H.
        -- destruct Hp as (-> & _).
           unfold send_result in Hs. destruct (submit w1 (address req));
             try discriminate Hs; injection Hs as <-;
             destruct H as [H|H]; discriminate H.
    + destruct Hp as (-> & _). destruct H as [H|H]; discriminate H.
Qed.

End QuotaFacts.

(** ** BlockchainService *)

(** X21.  getBalance asks the primary endpoint once and the fallback
    endpoint only after the primary has failed, at most once, and only if
    one is configured; it answers the first balance it gets.  When no
    endpoint answers it throws its own error, never the one of the
    provider, and in every case it leaves Redis alone. *)
Theorem getBalance_asks_the_fallback_last (w : World) :
  let answer := getBalance w in
  let asked := skipn (length (wire w)) (wire (snd answer)) in
  db (snd answer) = db w
  /\ match primary_balance w, fallback_balance w with
     | Some b, _ =>
         fst answer = Ret b /\ asked = [WGetBalance false true]
     | None, None =>
         fst answer = Throw BalanceUnavailable
         /\ asked = [WGetBalance false false]
     | None, Some (Some b) =>
         fst answer = Ret b
         /\ asked = [WGetBalance false false; WGetBalance true true]
     | None, Some None =>
         fst answer = Throw BalanceUnavailable
         /\ asked = [WGetBalance false false; WGetBalance true false]
     end.
Proof.
  cbv zeta.
  assert (Hskip : forall l : list Wire, skipn (length (wire w)) (wire w ++ l) = l).
  { intros l. rewrite skipn_app, skipn_all, Nat.sub_diag. reflexivity. }
  unfold getBalance, bind, try_catch, modify, ret, throw, get_world,
    provider_getBalance. cbv beta iota.
  change (primary_balance (log_call ChainGetBalance w)) with (primary_balance w).
  destruct (primary_balance w) as [b|].
  - cbn [fst snd db wire log_wire log_call]. rewrite Hskip. auto.
  - change (fallback_balance (log_wire _ (log_call _ w)))
      with (fallback_balance w).
    destruct (fallback_balance w) as [[b|]|] eqn:Hfb; cbv beta iota;
      change (fallback_balance (log_wire _ (log_call _ w)))
        with (fallback_balance w); rewrite ?Hfb; cbv beta iota;
      cbn [fst snd db wire log_wire log_call];
      rewrite <- ?app_assoc; rewrite Hskip; auto.
Qed.

(** ** The record of a transfer *)

Section RecordFacts.
Variable config : Config.

(** X22.  What updateStats leaves behind.  With Redis answering and a
    stats document that is missing or well formed, it stamps the
    document with the time of the call as lastRequest, and stores the
    record of the transfer (address, hash, amount, time) under
    [request:<txHash>], where get finds it for exactly seven days. *)
Theorem request_record_is_kept_seven_days (address txHash : string) (w : World) :
  outages w = [] ->
  stats_read (current config STATS_KEY w) <> None ->
  let w1 := snd (updateStats config address txHash w) in
  lastRequest (stored_stats config w1) = Some (clock w)
  /\ forall d : N,
       fst (redis_get config ("request:" +:+ txHash) (advance (Z.of_N d) w1))
       = Ret (if Z.of_N d <? 7 * 86400 * 1000
              then Some (RequestJson
                           (mkRequestRecord address txHash
                              (faucet_amount config) (clock w)))
              else None).
Proof.
  intros Ho Hread. cbv zeta.
  destruct (updateStats config address txHash w) as [r w1] eqn:Hu.
  cbn [snd]. split.
  - apply updateStats_stats in Hu as (_ & Hs).
    rewrite (Hs Ho Hread). reflexivity.
  - apply updateStats_cases in Hu as (_ & Henv & Ho1 & ok0 & Hok0 & Hu).
    rewrite (Hok0 Ho) in Hu.
    destruct (stats_read (current config STATS_KEY w)) as [st|];
      [|contradiction].
    cbv zeta in Hu. destruct Hu as (ok1 & ok2 & Hok & _ & _ & Hdb).
    destruct (Hok Ho) as (-> & ->). cbn [insert_if] in Hdb.
    intros d. rewrite redis_get_reads by (apply Ho1, Ho).
    rewrite (current_advance_written config ("request:" +:+ txHash)
               (request_record config address txHash (clock w))
               (Some (clock w + 86400 * 7 * 1000)) d w w1);
      [|apply Henv | rewrite Hdb; apply lookup_insert_eq].
    unfold live, request_record. cbn [expireAt].
    destruct (Z.ltb_spec (clock w + Z.of_N d) (clock w + 86400 * 7 * 1000));
      destruct (Z.ltb_spec (Z.of_N d) (7 * 86400 * 1000));
      try reflexivity; lia.
Qed.

End RecordFacts.

(** ** The information routes *)

Section InformationFacts.
Variable config : Config.
Variable chainId : Z.

(** X23.  An unreadable balance fails GET /info and not GET /stats.
    GET /info answers 200, with the balance and the address of the
    wallet, when an endpoint gives the balance, and 500 when none does;
    GET /stats answers 200 in both cases (with the zero statistics and
    balance 0 in the second).  Neither writes to the database. *)
Theorem info_needs_the_balance_stats_do_not (w : World) :
  fst (get_info config chainId w)
  = Ret match treasury_balance w with
        | Some balance =>
            mkHttp 200
              (inl (mkFaucetInfo chainId (wallet_address w) balance
                      (faucet_amount config) None))
        | None => mkHttp 500 (inr "Failed to retrieve faucet information")
        end
  /\ db (snd (get_info config chainId w)) = db w
  /\ (exists stats, fst (get_stats config w) = Ret (mkHttp 200 (inl stats))
        /\ (treasury_balance w = None -> stats = mkFaucetStats default_stats 0))
  /\ db (snd (get_stats config w)) = db w.
Proof.
  split; [|split; [|split]].
  - unfold get_info, getFaucetInfo, getAddress, bind, try_catch, ret.
    destruct (getBalance w) as [r w1] eqn:Hb.
    apply getBalance_spec in Hb as (Henv & _ & _ & _ & -> & _).
    destruct (treasury_balance w); cbn [fst]; [|reflexivity].
    replace (wallet_address w1) with (wallet_address w)
      by (symmetry; apply Henv).
    reflexivity.
  - unfold get_info, getFaucetInfo, getAddress, bind, try_catch, ret.
    destruct (getBalance w) as [r w1] eqn:Hb.
    apply getBalance_spec in Hb as (_ & Hdb & _ & _ & -> & _).
    destruct (treasury_balance w); exact Hdb.
  - destruct (getStats_never_fails config w) as ((stats & Hs) & _ & _ & ok & _ & Hm).
    cbv zeta in *. unfold get_stats, bind, try_catch, ret.
    destruct (getStats config w) as [r w1]. cbn [fst] in *. subst r.
    exists stats. split; [reflexivity|]. intros Hnone. rewrite Hnone in Hm.
    congruence.
  - destruct (getStats_never_fails config w) as ((stats & Hs) & Hdb & _).
    cbv zeta in *. unfold get_stats, bind, try_catch, ret.
    destruct (getStats config w) as [r w1]. cbn [fst snd] in *. subst r.
    exact Hdb.
Qed.

End InformationFacts.

(** * The properties on concrete runs *)

Lemma redis_methods_contain_failures_witness :
  fst (redis_incr default_config "ip:203.0.113.7" down_world) = Ret 0
  /\ fst (redis_ttl default_config "ip:203.0.113.7" down_world) = Ret (-1).
Proof.
  destruct (proj2 (redis_methods_contain_failures default_config
                     "ip:203.0.113.7" (Text "1") 60 None [] down_world)
              [] eq_refl)
    as (_ & _ & _ & _ & (Hi & _) & (Ht & _) & _).
  split; [exact Hi | exact Ht].
Defined.

Lemma set_with_zero_ttl_never_expires_witness :
  fst (redis_get default_config "stats"
         (advance (Z.of_N 86400000)
            (snd (redis_set_ttl default_config "stats" (Text "x") (Some 0)
                    fresh_world))))
  = Ret (Some (Text "x")).
Proof.
  destruct (set_with_zero_ttl_never_expires default_config "stats" (Text "x")
              fresh_world eq_refl) as (_ & _ & H & _).
  exact (H 86400000%N).
Defined.

Lemma setex_get_round_trip_witness :
  fst (redis_ttl default_config "request:0x5e7d"
         (snd (redis_setex default_config "request:0x5e7d" 60 (Text "x")
                 fresh_world)))
  = Ret 60.
Proof.
  destruct (setex_get_round_trip default_config "request:0x5e7d" (Text "x") 60
              fresh_world eq_refl ltac:(lia)) as (_ & H & _).
  exact H.
Defined.

Lemma del_removes_key_witness :
  fst (redis_exists default_config "address:0xabc"
         (advance (Z.of_N 0)
            (snd (redis_del default_config "address:0xabc"
                    (snd (redis_setex default_config "address:0xabc" 60
                            (Text "1") fresh_world)))))) = Ret false.
Proof.
  destruct (del_removes_key default_config "address:0xabc"
              (snd (redis_setex default_config "address:0xabc" 60 (Text "1")
                      fresh_world))
              ltac:(vm_compute; reflexivity)) as (_ & H & _).
  exact (proj2 (H 0%N)).
Defined.

Lemma incr_edge_cases_witness :
  fst (redis_incr default_config "ip:203.0.113.7" fresh_world) = Ret 1.
Proof.
  destruct (proj1 (incr_edge_cases default_config "ip:203.0.113.7" fresh_world
                     eq_refl)
              ltac:(vm_compute; reflexivity)) as (H & _).
  exact H.
Defined.

Lemma mget_reads_like_get_witness :
  fst (redis_mget default_config ["stats"; "ip:203.0.113.7"] fresh_world)
  = Ret (map (fun k => current default_config k fresh_world)
           ["stats"; "ip:203.0.113.7"]).
Proof.
  exact (proj1 (mget_reads_like_get default_config ["stats"; "ip:203.0.113.7"]
                  fresh_world eq_refl)).
Defined.

Lemma adminAuth_passes_only_the_token_witness :
  adminAuth (Some "Bearer s3cret") "s3cret" = Next.
Proof.
  apply (proj1 (adminAuth_passes_only_the_token (Some "Bearer s3cret") "s3cret")).
  split; [discriminate | reflexivity].
Defined.

Lemma validateConfig_accepts_witness : validateConfig minimal_env = None.
Proof.
  apply (proj1 (validateConfig_accepts minimal_env)).
  split; [|split].
  - exists "ac0974bec39a17e36ba4a6b4d238ff944bacb478". vm_compute. reflexivity.
  - exists "http://localhost:8545". split; [vm_compute; reflexivity | discriminate].
  - vm_compute. discriminate.
Defined.

Lemma limits_are_read_unchecked_witness :
  exists c,
    config_of_env (<["RATE_LIMIT_ADDRESS_MAX_REQUESTS" := JS.toString 0]> minimal_env)
      (10 * 10 ^ 18) = Some c
    /\ rateLimit_address_maxRequests c = 0
    /\ rateLimit_ip_maxRequests c = 5.
Proof.
  apply (limits_are_read_unchecked minimal_env (10 * 10 ^ 18) 0);
    try (vm_compute; reflexivity); lia.
Defined.

Lemma post_request_validates_first_witness :
  post_request default_config isValidAddress "" (Some alice) None
    (Some "203.0.113.7") None "k3x9" fresh_world
  = (Ret (mkHttp 400 (inr "Missing required fields: address and captchaToken")),
     fresh_world).
Proof.
  apply (proj1 (post_request_validates_first default_config isValidAddress ""
                  (Some alice) None (Some "203.0.113.7") None "k3x9" fresh_world)).
  right. reflexivity.
Defined.

Lemma post_request_status_witness :
  fst (post_request captcha_config isValidAddress "" (Some alice) (Some "token")
         (Some "203.0.113.7") None "k3x9" html_world)
  = Ret (mkHttp 500 (inr "Internal server error")).
Proof.
  destruct (post_request_status captcha_config isValidAddress "" alice "token"
              (Some "203.0.113.7") None "k3x9" html_world)
    as (_ & response & Hr & Hm).
  - discriminate.
  - discriminate.
  - vm_compute. reflexivity.
  - rewrite Hr. f_equal. revert Hm. vm_compute. intros Hm. exact Hm.
Defined.

Lemma get_cooldown_status_witness :
  get_cooldown default_config isValidAddress "0xZZZZ" fresh_world
  = (Ret (mkHttp 400 (inr "Invalid Ethereum address")), fresh_world).
Proof.
  apply (proj1 (get_cooldown_status default_config isValidAddress "0xZZZZ"
                  fresh_world)).
  reflexivity.
Defined.

Lemma manual_send_checks_nothing_witness :
  fst (manual_send default_config "" (Some alice) (Some 500) poor_world)
  = Ret (mkHttp 200
           (inl (mkTxResult "0x5e7d" "0xFa0ce7" alice (10 * 10 ^ 18) 21000))).
Proof.
  destruct (manual_send_checks_nothing default_config "" alice (Some 500)
              poor_world ltac:(discriminate)) as (_ & _ & H & _).
  exact H.
Defined.

Lemma overlapping_calls_pass_the_limit_witness :
  stored_count default_config
    (snd (checkRateLimit_meanwhile default_config "ip:203.0.113.7" 5 3600000
            (fun w0 =>
               snd (checkRateLimit default_config "ip:203.0.113.7" 5 3600000 w0))
            counting_world))
    "ip:203.0.113.7"
  = Some (JS.Num 6).
Proof.
  assert (Hup : outages counting_world = []) by reflexivity.
  assert (He : lookup_live default_config counting_world "ip:203.0.113.7"
               = Some (mkEntry (Text "4") (Some 1700001800000)))
    by (vm_compute; reflexivity).
  assert (Hv : value (mkEntry (Text "4") (Some 1700001800000))
               = Text (JS.toString 4)) by (vm_compute; reflexivity).
  destruct (overlapping_calls_pass_the_limit default_config "ip:203.0.113.7"
              5 3600000 counting_world _ 4 Hup He Hv
              ltac:(lia) ltac:(lia) ltac:(lia)) as (_ & _ & H & _).
  exact H.
Defined.

Lemma reset_rate_limit_keeps_the_counters_witness :
  fst (reset_rate_limit default_config (Some "address") (Some alice_lower)
         cooling_world)
  = Ret (mkHttp 200
           (inl ("Rate limit reset for " +:+ "address" +:+ ": " +:+ alice_lower)))
  /\ fst (checkAddressRateLimit default_config alice
            (snd (reset_rate_limit default_config (Some "address")
                    (Some alice_lower) cooling_world)))
     = fst (checkAddressRateLimit default_config alice cooling_world).
Proof.
  destruct (reset_rate_limit_keeps_the_counters default_config "address"
              alice_lower cooling_world (or_intror eq_refl)
              ltac:(discriminate)) as (Hr & _ & Hc).
  split; [exact Hr|].
  exact (proj2 (Hc ltac:(vm_compute; reflexivity) alice)).
Defined.

Lemma checkEligibility_is_checkCooldown_witness :
  snd (checkEligibility default_config 24 alice fresh_world)
  = snd (checkCooldown default_config alice fresh_world).
Proof.
  apply (proj2 (checkEligibility_is_checkCooldown default_config 24 alice
                  fresh_world)).
  vm_compute. reflexivity.
Defined.

Lemma quota_is_spent_whatever_the_outcome_witness :
  exists hours,
    fst (processRequest default_config second_request refilled_world)
    = Throw (AddressRateLimitExceeded hours).
Proof.
  destruct (quota_is_spent_whatever_the_outcome default_config good_request
              poor_world) as (_ & _ & H);
    try (vm_compute; reflexivity); try (vm_compute; discriminate).
  apply H; try (vm_compute; reflexivity).
  vm_compute. split; [discriminate | reflexivity].
Defined.

Lemma refusal_before_the_limits_is_free_witness :
  db (snd (processRequest captcha_config good_request html_world))
  = db html_world.
Proof.
  apply (refusal_before_the_limits_is_free captcha_config good_request html_world).
  right. vm_compute. reflexivity.
Defined.

Lemma request_record_is_kept_seven_days_witness :
  lastRequest
    (stored_stats default_config
       (snd (updateStats default_config alice "0x5e7d" fresh_world)))
  = Some 1700000000000.
Proof.
  destruct (request_record_is_kept_seven_days default_config alice "0x5e7d"
              fresh_world eq_refl ltac:(vm_compute; discriminate)) as (H & _).
  exact H.
Defined.
